(** * script.js: functions, scope and class-toggling helpers

    A shallow embedding of [script.js] and of the part of the JavaScript
    and DOM semantics it runs on.  The development is organised as the
    script is:

    - [JS]: primitive values, the Number type (IEEE 754 binary64), the
      coercion [Number(v)] and the conversion of a Number to a string;
    - [DOM]: elements, the document, selectors and class lists;
    - [State] and [M]: the global counter, the document, the registered
      listeners, the pending timeouts and the clock, and computations over
      them that return or throw;
    - [Browser]: the calls the script makes ([querySelector], [classList],
      [setAttribute], [setTimeout], [addEventListener], ...);
    - [Script]: the functions of [script.js], line by line, and the bodies of
      the listeners it registers;
    - [Page]: the dispatch of events to the listeners, timeouts and time.

    The properties follow the definitions.

    Strings are sequences of 8-bit code units (the Latin-1 range of the
    UTF-16 code units of a JavaScript string). *)

From Stdlib Require Import ZArith Lia Bool List Ascii String.
From Stdlib Require Import Floats.SpecFloat.
From stdpp Require Import base option list gmap strings.

Import ListNotations.
Local Open Scope string_scope.
Local Open Scope Z_scope.

(** ** Completions: a call returns normally or throws *)

Inductive exn : Type :=
| TypeError
| SyntaxError
| InvalidCharacterError.

Inductive completion (A : Type) : Type :=
| Normal (a : A)
| Throw (e : exn).

Arguments Normal {A} a.
Arguments Throw {A} e.

(** ** Values and Numbers *)

Module JS.

(** A Number is an IEEE 754 binary64 value: 53 bits of precision, and
    exponents below 1024. *)
Definition prec : Z := 53.
Definition emax : Z := 1024.

Definition number : Type := spec_float.

Definition NaN : number := S754_nan.
Definition Infinity : number := S754_infinity false.
Definition pos_zero : number := S754_zero false.

(** [x + y] on Numbers. *)
Definition number_add (x y : number) : number := SFadd prec emax x y.

Definition number_neg (neg : bool) (x : number) : number :=
  if neg then SFopp x else x.

(** The Number nearest to the integer [z], ties to even. *)
Definition number_of_Z (z : Z) : number := binary_normalize prec emax z 0 false.

(** Decimal digits of a positive integer are counted by repeated division;
    [fuel] bounds the number of digits. *)
Fixpoint decimal_digits_fuel (fuel : nat) (z : Z) : Z :=
  match fuel with
  | O => 0
  | S fuel' => if z <=? 0 then 0 else 1 + decimal_digits_fuel fuel' (z / 10)
  end.

Definition decimal_digits (z : Z) : Z :=
  decimal_digits_fuel (S (Z.to_nat (Z.log2 z))) z.

(** The Number nearest to [m * 10^e] for [m > 0], ties to even.  Values
    that are certainly above the largest Number or below half of the
    smallest one are settled without computing the power of ten. *)
Definition number_of_decimal (m e : Z) : number :=
  if m <=? 0 then pos_zero
  else
    let d := decimal_digits m in
    if 310 <=? e + d - 1 then Infinity
    else if e + d <=? -325 then pos_zero
    else if 0 <=? e then number_of_Z (m * 10 ^ e)
    else SFdiv prec emax (S754_finite false (Z.to_pos m) 0)
                         (S754_finite false (Z.to_pos (10 ^ (- e))) 0).

(** *** Characters *)

Definition code (c : ascii) : Z := Z.of_N (N_of_ascii c).

(** WhiteSpace and LineTerminator code units below 256: TAB, LF, VT, FF,
    CR, SP and NBSP. *)
Definition is_js_whitespace (c : ascii) : bool :=
  let n := code c in
  ((9 <=? n) && (n <=? 13)) || (n =? 32) || (n =? 160).

Definition digit_value (c : ascii) : option Z :=
  let n := code c in
  if (48 <=? n) && (n <=? 57) then Some (n - 48)
  else if (97 <=? n) && (n <=? 102) then Some (n - 87)
  else if (65 <=? n) && (n <=? 70) then Some (n - 55)
  else None.

Definition digit_in_base (base : Z) (c : ascii) : option Z :=
  match digit_value c with
  | Some d => if d <? base then Some d else None
  | None => None
  end.

(** [digits base acc s] reads the longest prefix of [s] made of digits of
    [base]: the value read (continuing [acc]), how many digits, the rest. *)
Fixpoint digits (base : Z) (acc : Z) (s : string) : Z * Z * string :=
  match s with
  | String c r =>
      match digit_in_base base c with
      | Some d =>
          let '(v, n, rest) := digits base (acc * base + d) r in (v, n + 1, rest)
      | None => (acc, 0, s)
      end
  | EmptyString => (acc, 0, s)
  end.

Fixpoint trim_start (s : string) : string :=
  match s with
  | String c r => if is_js_whitespace c then trim_start r else s
  | EmptyString => s
  end.

Fixpoint trim_end (s : string) : string :=
  match s with
  | String c r =>
      match trim_end r with
      | EmptyString => if is_js_whitespace c then EmptyString else String c EmptyString
      | r' => String c r'
      end
  | EmptyString => s
  end.

Definition trim (s : string) : string := trim_end (trim_start s).

(** *** StringToNumber *)

(** NonDecimalIntegerLiteral: [0x], [0o] or [0b] and at least one digit. *)
Definition non_decimal_literal (s : string) : option number :=
  match s with
  | String "0" (String p r) =>
      let base :=
        if (p =? "x")%char || (p =? "X")%char then Some 16
        else if (p =? "o")%char || (p =? "O")%char then Some 8
        else if (p =? "b")%char || (p =? "B")%char then Some 2
        else None in
      match base with
      | Some b =>
          match digits b 0 r with
          | (v, n, EmptyString) => if 0 <? n then Some (number_of_Z v) else None
          | _ => None
          end
      | None => None
      end
  | _ => None
  end.

(** ExponentPart (optional): [e] or [E], an optional sign, digits. *)
Definition exponent_part (s : string) : option Z :=
  match s with
  | EmptyString => Some 0
  | String c r =>
      if (c =? "e")%char || (c =? "E")%char then
        let '(neg, r') :=
          match r with
          | String "-" r' => (true, r')
          | String "+" r' => (false, r')
          | _ => (false, r)
          end in
        match digits 10 0 r' with
        | (v, n, EmptyString) =>
            if 0 <? n then Some (if neg : bool then - v else v) else None
        | _ => None
        end
      else None
  end.

(** StrUnsignedDecimalLiteral. *)
Definition unsigned_decimal_literal (s : string) : option number :=
  if String.eqb s "Infinity" then Some Infinity
  else
    let '(int_v, int_n, r1) := digits 10 0 s in
    let '(m, frac_n, r2) :=
      match r1 with
      | String "." r => digits 10 int_v r
      | _ => (int_v, 0, r1)
      end in
    if (int_n + frac_n) =? 0 then None
    else
      match exponent_part r2 with
      | Some e => Some (number_of_decimal m (e - frac_n))
      | None => None
      end.

(** StrNumericLiteral: a non-decimal integer, or a decimal literal with an
    optional sign. *)
Definition StrNumericLiteral (s : string) : option number :=
  match non_decimal_literal s with
  | Some x => Some x
  | None =>
      match s with
      | String "-" r => number_neg true <$> unsigned_decimal_literal r
      | String "+" r => unsigned_decimal_literal r
      | _ => unsigned_decimal_literal s
      end
  end.

(** StringToNumber: white space is trimmed, the empty string is [+0], a
    numeric literal is its value, and anything else is [NaN]. *)
Definition StringToNumber (s : string) : number :=
  let t := trim s in
  if String.eqb t "" then pos_zero
  else match StrNumericLiteral t with
       | Some x => x
       | None => NaN
       end.

(** *** Number::toString *)

Definition digit_char (d : Z) : ascii := ascii_of_N (Z.to_N (48 + d)).

Fixpoint decimal_string_fuel (fuel : nat) (z : Z) (acc : string) : string :=
  match fuel with
  | O => acc
  | S fuel' =>
      let acc' := String (digit_char (z mod 10)) acc in
      if z <? 10 then acc' else decimal_string_fuel fuel' (z / 10) acc'
  end.

(** The decimal digits of a non-negative integer. *)
Definition decimal_string (z : Z) : string :=
  decimal_string_fuel (S (Z.to_nat (Z.log2 z))) z "".

Fixpoint zeros (n : nat) : string :=
  match n with
  | O => ""
  | S n' => String "0" (zeros n')
  end.

(** For [0 < N / D < 1]: the number of zeros between the decimal point and
    the first significant digit. *)
Fixpoint leading_zeros (fuel : nat) (N D : Z) : Z :=
  match fuel with
  | O => 0
  | S fuel' => if D <=? N * 10 then 0 else 1 + leading_zeros fuel' (N * 10) D
  end.

(** The [n] with [10^(n-1) <= N / D < 10^n]. *)
Definition decimal_exponent (N D : Z) : Z :=
  if D <=? N then decimal_digits (N / D) else - leading_zeros 400 N D.

Definition number_eqb (x y : number) : bool :=
  match x, y with
  | S754_finite sx mx ex, S754_finite sy my ey =>
      Bool.eqb sx sy && (mx =? my)%positive && (ex =? ey)
  | S754_zero sx, S754_zero sy => Bool.eqb sx sy
  | S754_infinity sx, S754_infinity sy => Bool.eqb sx sy
  | _, _ => false
  end.

(** The [k]-digit decimals [s * 10^(n-k)] next to [x = N / D], below and
    above, and which of them read back as [x]; of two that do, the one
    nearer to [x] is taken, and the even one when they are as near. *)
Definition shortest_at (x : number) (N D n k : Z) : option (Z * Z) :=
  let sc := k - n in
  let P := if 0 <=? sc then N * 10 ^ sc else N in
  let Q := if 0 <=? sc then D else D * 10 ^ (- sc) in
  let lo := P / Q in
  let hi := if lo + 1 =? 10 ^ k then (10 ^ (k - 1), n + 1) else (lo + 1, n) in
  let ok_lo := number_eqb (number_of_decimal lo (n - k)) x in
  let ok_hi := number_eqb (number_of_decimal (fst hi) (snd hi - k)) x in
  match ok_lo, ok_hi with
  | true, true =>
      match 2 * P ?= (2 * lo + 1) * Q with
      | Lt => Some (lo, n)
      | Gt => Some hi
      | Eq => if Z.even lo then Some (lo, n) else Some hi
      end
  | true, false => Some (lo, n)
  | false, true => Some hi
  | false, false => None
  end.

(** The least [k] (from [k] on) for which [shortest_at] answers, with the
    digits [s] and the exponent [n] found there. *)
Fixpoint shortest_from (fuel : nat) (x : number) (N D n k : Z) : Z * Z * Z :=
  match fuel with
  | O => (N / D, n, k)
  | S fuel' =>
      match shortest_at x N D n k with
      | Some (s, n') => (s, n', k)
      | None => shortest_from fuel' x N D n (k + 1)
      end
  end.

Definition exponent_string (e : Z) : string :=
  (if e <? 0 then "-" else "+") ++ decimal_string (Z.abs e).

(** Number::toString for a positive finite Number [m * 2^e]. *)
Definition positive_to_string (m : positive) (e : Z) : string :=
  let N := if 0 <=? e then Z.pos m * 2 ^ e else Z.pos m in
  let D := if 0 <=? e then 1 else 2 ^ (- e) in
  let '(s, n, k) :=
    shortest_from 17 (S754_finite false m e) N D (decimal_exponent N D) 1 in
  let ds := decimal_string s in
  if (k <=? n) && (n <=? 21) then ds ++ zeros (Z.to_nat (n - k))
  else if (0 <? n) && (n <=? 21) then
    substring 0 (Z.to_nat n) ds ++ "." ++ substring (Z.to_nat n) (Z.to_nat (k - n)) ds
  else if (-6 <? n) && (n <=? 0) then "0." ++ zeros (Z.to_nat (- n)) ++ ds
  else if k =? 1 then ds ++ "e" ++ exponent_string (n - 1)
  else substring 0 1 ds ++ "." ++ substring 1 (Z.to_nat (k - 1)) ds
       ++ "e" ++ exponent_string (n - 1).

Definition NumberToString (x : number) : string :=
  match x with
  | S754_nan => "NaN"
  | S754_zero _ => "0"
  | S754_infinity s => if s then "-Infinity" else "Infinity"
  | S754_finite s m e => (if s then "-" else "") ++ positive_to_string m e
  end.

(** *** Primitive values *)

(** The primitive values of the language.  Objects are left out: their
    coercion runs the object's own [valueOf] and [toString]. *)
Inductive value : Type :=
| VUndefined
| VNull
| VBoolean (b : bool)
| VNumber (n : number)
| VString (s : string)
| VSymbol (description : string)
| VBigInt (z : Z).

(** [Number(v)]: ToNumber on every primitive but a BigInt, which is
    converted to the nearest Number; a Symbol has no Number. *)
Definition Number (v : value) : completion number :=
  match v with
  | VUndefined => Normal NaN
  | VNull => Normal pos_zero
  | VBoolean b => Normal (if b then number_of_Z 1 else pos_zero)
  | VNumber n => Normal n
  | VString s => Normal (StringToNumber s)
  | VSymbol _ => Throw TypeError
  | VBigInt z => Normal (number_of_Z z)
  end.

(** [String(b)] for a boolean. *)
Definition BooleanToString (b : bool) : string := if b then "true" else "false".

(** *** Integer-valued Numbers

    A Number that holds an integer is written as that integer.  A sum of
    two of them is the integer sum rounded to 53 significant bits, ties to
    even; sums stay far below [2^1024], where a Number would overflow. *)
Definition round53 (z : Z) : Z :=
  let bits := Z.log2 (Z.abs z) + 1 in
  if bits <=? prec then z
  else
    let sh := bits - prec in
    let q := Z.abs z / 2 ^ sh in
    let r := Z.abs z mod 2 ^ sh in
    let half := 2 ^ (sh - 1) in
    let q' := if r <? half then q
              else if half <? r then q + 1
              else if Z.even q then q else q + 1 in
    Z.sgn z * (q' * 2 ^ sh).

Definition integer_add (x y : Z) : Z := round53 (x + y).

End JS.

(** ** The document *)

Module DOM.

(** An element.  [elemId] is the empty string when the element has no id;
    [classList] is its DOMTokenList, in order and without repetition;
    [attributes] holds the attributes other than [id] and [class], under
    their names in lower case; [textContent] is the text of the element
    itself, without the text of its child elements;
    [value] is the value of a form control, and [None] on an element that
    is none (its [value] is undefined); [parentNode] is the parent element
    ([None] for the root and for a detached element); [rendered] is the
    class list as it stood at the last style and layout computation. *)
Record Element : Type := mkElement {
  localName : string;
  elemId : string;
  classList : list string;
  attributes : gmap string string;
  textContent : string;
  value : option string;
  parentNode : option nat;
  rendered : list string
}.

Definition with_classList (cl : list string) (e : Element) : Element :=
  mkElement (localName e) (elemId e) cl (attributes e) (textContent e)
            (value e) (parentNode e) (rendered e).

Definition with_attributes (a : gmap string string) (e : Element) : Element :=
  mkElement (localName e) (elemId e) (classList e) a (textContent e)
            (value e) (parentNode e) (rendered e).

Definition with_textContent (t : string) (e : Element) : Element :=
  mkElement (localName e) (elemId e) (classList e) (attributes e) t
            (value e) (parentNode e) (rendered e).

Definition with_parentNode (p : option nat) (e : Element) : Element :=
  mkElement (localName e) (elemId e) (classList e) (attributes e)
            (textContent e) (value e) p (rendered e).

Definition with_rendered (r : list string) (e : Element) : Element :=
  mkElement (localName e) (elemId e) (classList e) (attributes e)
            (textContent e) (value e) (parentNode e) r.

(** The elements the page ever had, in tree order; an element is referred
    to by its position.  Element 0 is the document element. *)
Abbreviation Document := (list Element).

(** An element is connected when its chain of parents ends at the document
    element. *)
Fixpoint connected_fuel (fuel : nat) (doc : Document) (h : nat) : bool :=
  match fuel with
  | O => false
  | S fuel' =>
      match doc !! h with
      | None => false
      | Some e =>
          match parentNode e with
          | None => Nat.eqb h 0
          | Some p => connected_fuel fuel' doc p
          end
      end
  end.

Definition isConnected (doc : Document) (h : nat) : bool :=
  connected_fuel (length doc) doc h.

(** The first position from [i] on whose element satisfies [p]. *)
Fixpoint find_from (p : nat -> Element -> bool) (i : nat) (l : list Element)
  : option nat :=
  match l with
  | [] => None
  | e :: r => if p i e then Some i else find_from p (S i) r
  end.

(** The first connected element, in tree order, that satisfies [p]. *)
Definition first_match (doc : Document) (p : Element -> bool) : option nat :=
  find_from (fun i e => isConnected doc i && p e) 0%nat doc.


(** *** Class lists *)

(** ASCII white space, which no token may contain. *)
Definition is_ascii_whitespace (c : ascii) : bool :=
  let n := JS.code c in
  (n =? 9) || (n =? 10) || (n =? 12) || (n =? 13) || (n =? 32).

Fixpoint any_char (p : ascii -> bool) (s : string) : bool :=
  match s with
  | EmptyString => false
  | String c r => p c || any_char p r
  end.

(** What [add], [remove] and [toggle] throw for a token: SyntaxError for
    the empty string, InvalidCharacterError for one with white space. *)
Definition token_error (c : string) : option exn :=
  if String.eqb c "" then Some SyntaxError
  else if any_char is_ascii_whitespace c then Some InvalidCharacterError
  else None.

Definition tokens_contains (c : string) (l : list string) : bool :=
  bool_decide (c ∈ l).

Definition tokens_add (c : string) (l : list string) : list string :=
  if tokens_contains c l then l else l ++ [c].

Definition tokens_remove (c : string) (l : list string) : list string :=
  filter (fun x => x ≠ c) l.


(** *** Selectors

    The selectors modelled: selector lists; the descendant, child ([>]),
    next-sibling ([+]) and subsequent-sibling ([~]) combinators; compound
    selectors made of a type selector or [*] and of id, class and attribute
    selectors and [:not(...)]; white space around them.  Type and attribute
    names are compared in lower case, ids and classes as they are, as in
    an HTML document that is not in quirks mode.  Not
    modelled, and refused by [parse_selector] as if they were no selectors:
    comments, namespaces, escapes and characters above U+007F, the flags of
    an attribute selector, the pseudo-classes other than [:not], the
    pseudo-elements, and a bracket or a string left open at the end. *)
Inductive attr_op : Type :=
| HasAttr
| AttrEquals
| AttrIncludes
| AttrDashMatch
| AttrPrefix
| AttrSuffix
| AttrSubstring.

Inductive combinator : Type :=
| Descendant
| Child
| NextSibling
| SubsequentSibling.

(** A simple selector.  The argument of [:not] is a list of complex
    selectors, each the compound selector of its subject and then, going
    left, the combinators and compound selectors before it. *)
#[local] Set Warnings "-register-all".
Inductive simple_selector : Type :=
| Universal
| Tag (name : string)
| ById (i : string)
| ByClass (c : string)
| ByAttr (name : string) (op : attr_op) (v : string)
| Not (alts : list (list simple_selector
                    * list (combinator * list simple_selector))).

#[local] Set Warnings "register-all".

Abbreviation compound_selector := (list simple_selector).

Abbreviation complex_selector :=
  (compound_selector * list (combinator * compound_selector))%type.

Definition is_digit (c : ascii) : bool :=
  let n := JS.code c in (48 <=? n) && (n <=? 57).

Definition is_letter (c : ascii) : bool :=
  let n := JS.code c in
  ((97 <=? n) && (n <=? 122)) || ((65 <=? n) && (n <=? 90)) || (n =? 95).

Definition is_ident_char (c : ascii) : bool :=
  is_letter c || is_digit c || (JS.code c =? 45).

Fixpoint all_chars (p : ascii -> bool) (s : string) : bool :=
  match s with
  | EmptyString => true
  | String c r => p c && all_chars p r
  end.

(** An identifier: letters, digits, [_] and [-], not starting with a digit
    nor with a [-] that no letter or [-] follows. *)
Definition valid_ident (s : string) : bool :=
  match s with
  | EmptyString => false
  | String c r =>
      all_chars is_ident_char s
      && (is_letter c
          || ((JS.code c =? 45)
              && match r with
                 | String c' _ => is_letter c' || (JS.code c' =? 45)
                 | EmptyString => false
                 end))
  end.

Definition lower (c : ascii) : ascii :=
  let n := JS.code c in
  if (65 <=? n) && (n <=? 90) then ascii_of_N (Z.to_N (n + 32)) else c.

Fixpoint to_lower (s : string) : string :=
  match s with
  | EmptyString => EmptyString
  | String c r => String (lower c) (to_lower r)
  end.

Fixpoint skip_whitespace (s : string) : string :=
  match s with
  | String c r => if is_ascii_whitespace c then skip_whitespace r else s
  | EmptyString => s
  end.

(** The longest prefix of [s] whose characters satisfy [p], and the rest. *)
Fixpoint take_while (p : ascii -> bool) (s : string) : string * string :=
  match s with
  | String c r =>
      if p c then let '(a, b) := take_while p r in (String c a, b)
      else (EmptyString, s)
  | EmptyString => (EmptyString, s)
  end.

Definition take_ident (s : string) : option (string * string) :=
  let '(name, rest) := take_while is_ident_char s in
  if valid_ident name then Some (name, rest) else None.

(** The double and the single quote. *)
Definition is_quote (c : ascii) : bool :=
  (JS.code c =? 34) || (JS.code c =? 39).

(** A string in quotes [q]: what stands before the closing quote.  A
    backslash or a line break in it is not modelled. *)
Definition take_quoted (q : ascii) (s : string) : option (string * string) :=
  let '(v, rest) :=
    take_while (fun c => negb ((c =? q)%char || (JS.code c =? 92)
                               || (JS.code c =? 10) || (JS.code c =? 13)
                               || (JS.code c =? 12))) s in
  match rest with
  | String c r => if (c =? q)%char then Some (v, r) else None
  | EmptyString => None
  end.

Definition take_attr_op (s : string) : option (attr_op * string) :=
  match s with
  | String "=" r => Some (AttrEquals, r)
  | String "~" (String "=" r) => Some (AttrIncludes, r)
  | String "|" (String "=" r) => Some (AttrDashMatch, r)
  | String "^" (String "=" r) => Some (AttrPrefix, r)
  | String "$" (String "=" r) => Some (AttrSuffix, r)
  | String "*" (String "=" r) => Some (AttrSubstring, r)
  | _ => None
  end.

(** What follows the [[] of an attribute selector, to its []]. *)
Definition parse_attribute (s : string) : option (simple_selector * string) :=
  '(name, s1) ← take_ident (skip_whitespace s);
  match skip_whitespace s1 with
  | String "]" r => Some (ByAttr (to_lower name) HasAttr "", r)
  | s2 =>
      '(op, s3) ← take_attr_op s2;
      '(v, s4) ← match skip_whitespace s3 with
                 | String c r =>
                     if is_quote c then take_quoted c r else take_ident (String c r)
                 | EmptyString => None
                 end;
      match skip_whitespace s4 with
      | String "]" r => Some (ByAttr (to_lower name) op v, r)
      | _ => None
      end
  end.

(** The context of a complex selector as it is read, from left to right,
    turned to start at its subject. *)
Fixpoint to_subject (first : compound_selector)
    (more : list (combinator * compound_selector)) (acc : list (combinator * compound_selector))
  : complex_selector :=
  match more with
  | [] => (first, acc)
  | (comb, next) :: more' => to_subject next more' ((comb, first) :: acc)
  end.

(** The parser; [fuel] bounds the depth of its calls. *)
Fixpoint parse_subclasses (fuel : nat) (s : string)
  : option (compound_selector * string) :=
  match fuel with
  | O => None
  | S fuel' =>
      match s with
      | String "#" r =>
          '(name, r1) ← take_ident r;
          '(l, r2) ← parse_subclasses fuel' r1;
          Some (ById name :: l, r2)
      | String "." r =>
          '(name, r1) ← take_ident r;
          '(l, r2) ← parse_subclasses fuel' r1;
          Some (ByClass name :: l, r2)
      | String "[" r =>
          '(a, r1) ← parse_attribute r;
          '(l, r2) ← parse_subclasses fuel' r1;
          Some (a :: l, r2)
      | String ":" r =>
          '(name, r1) ← take_ident r;
          if String.eqb (to_lower name) "not"
          then match r1 with
               | String "(" r2 =>
                   '(alts, r3) ← parse_list fuel' (skip_whitespace r2);
                   match skip_whitespace r3 with
                   | String ")" r4 =>
                       '(l, r5) ← parse_subclasses fuel' r4;
                       Some (Not alts :: l, r5)
                   | _ => None
                   end
               | _ => None
               end
          else None
      | _ => Some ([], s)
      end
  end
with parse_compound (fuel : nat) (s : string)
  : option (compound_selector * string) :=
  match fuel with
  | O => None
  | S fuel' =>
      match s with
      | String "*" r =>
          '(l, r1) ← parse_subclasses fuel' r;
          Some (Universal :: l, r1)
      | _ =>
          match take_ident s with
          | Some (name, r) =>
              '(l, r1) ← parse_subclasses fuel' r;
              Some (Tag (to_lower name) :: l, r1)
          | None =>
              '(l, r1) ← parse_subclasses fuel' s;
              if bool_decide (l = []) then None else Some (l, r1)
          end
      end
  end
with parse_more (fuel : nat) (s : string)
  : option (list (combinator * compound_selector) * string) :=
  match fuel with
  | O => None
  | S fuel' =>
      let s1 := skip_whitespace s in
      let next (comb : combinator) (r : string) :=
        '(c, r1) ← parse_compound fuel' (skip_whitespace r);
        '(l, r2) ← parse_more fuel' r1;
        Some ((comb, c) :: l, r2) in
      match s1 with
      | EmptyString => Some ([], s1)
      | String "," _ => Some ([], s1)
      | String ")" _ => Some ([], s1)
      | String ">" r => next Child r
      | String "+" r => next NextSibling r
      | String "~" r => next SubsequentSibling r
      | _ =>
          match s with
          | String c _ => if is_ascii_whitespace c then next Descendant s1 else None
          | EmptyString => None
          end
      end
  end
with parse_list (fuel : nat) (s : string)
  : option (list complex_selector * string) :=
  match fuel with
  | O => None
  | S fuel' =>
      '(c, r) ← parse_compound fuel' s;
      '(more, r1) ← parse_more fuel' r;
      match r1 with
      | String "," r2 =>
          '(l, r3) ← parse_list fuel' (skip_whitespace r2);
          Some (to_subject c more [] :: l, r3)
      | _ => Some ([to_subject c more []], r1)
      end
  end.

Definition parse_selector (s : string) : option (list complex_selector) :=
  '(l, rest) ← parse_list (4 * String.length s + 8) (skip_whitespace s);
  if String.eqb rest "" then Some l else None.

(** *** Matching

    The attributes of an element as a selector and [getAttribute] read
    them.  [id] and [class] are held apart from the others: an empty
    [elemId] stands for no [id]; the class list stands for the [class]
    whose value is its tokens with one space between them, as [classList]
    writes it, and an empty class list for no [class]. *)
Fixpoint join (l : list string) : string :=
  match l with
  | [] => ""
  | [c] => c
  | c :: r => c ++ " " ++ join r
  end.

Definition attribute (e : Element) (name : string) : option string :=
  if String.eqb name "id"
  then (if String.eqb (elemId e) "" then None else Some (elemId e))
  else if String.eqb name "class"
  then (if bool_decide (classList e = []) then None else Some (join (classList e)))
  else attributes e !! name.

(** The attributes whose values an attribute selector compares without
    regard to case in an HTML document. *)
Definition case_insensitive_attributes : list string :=
  ["accept"; "accept-charset"; "align"; "alink"; "axis"; "bgcolor"; "charset";
   "checked"; "clear"; "codetype"; "color"; "compact"; "declare"; "defer";
   "dir"; "direction"; "disabled"; "enctype"; "face"; "frame"; "hreflang";
   "http-equiv"; "lang"; "language"; "link"; "media"; "method"; "multiple";
   "nohref"; "noresize"; "noshade"; "nowrap"; "readonly"; "rel"; "rev";
   "rules"; "scope"; "scrolling"; "selected"; "shape"; "target"; "text";
   "type"; "valign"; "valuetype"; "vlink"].

Fixpoint is_prefix (p s : string) : bool :=
  match p, s with
  | EmptyString, _ => true
  | String a p', String b s' => (a =? b)%char && is_prefix p' s'
  | _, EmptyString => false
  end.

Fixpoint is_substring (p s : string) : bool :=
  is_prefix p s
  || match s with
     | String _ s' => is_substring p s'
     | EmptyString => false
     end.

Fixpoint is_suffix (p s : string) : bool :=
  String.eqb p s
  || match s with
     | String _ s' => is_suffix p s'
     | EmptyString => false
     end.

(** The words of [s], which white space separates. *)
Fixpoint words_from (fuel : nat) (s : string) : list string :=
  match fuel with
  | O => []
  | S fuel' =>
      match skip_whitespace s with
      | EmptyString => []
      | s1 =>
          let '(w, r) := take_while (fun c => negb (is_ascii_whitespace c)) s1 in
          w :: words_from fuel' r
      end
  end.

Definition words (s : string) : list string :=
  words_from (S (String.length s)) s.

Definition attr_matches (name : string) (op : attr_op) (v : string)
    (a : option string) : bool :=
  match a with
  | None => false
  | Some x =>
      let fold (s : string) :=
        if bool_decide (name ∈ case_insensitive_attributes) then to_lower s else s in
      let x := fold x in
      let v := fold v in
      match op with
      | HasAttr => true
      | AttrEquals => String.eqb x v
      | AttrIncludes =>
          negb (String.eqb v "") && negb (any_char is_ascii_whitespace v)
          && bool_decide (v ∈ words x)
      | AttrDashMatch => String.eqb x v || is_prefix (v ++ "-") x
      | AttrPrefix => negb (String.eqb v "") && is_prefix v x
      | AttrSuffix => negb (String.eqb v "") && is_suffix v x
      | AttrSubstring => negb (String.eqb v "") && is_substring v x
      end
  end.

(** The ancestors of an element, nearest first, and the siblings before
    it, nearest first: the elements with its parent that stand before it
    in tree order. *)
Fixpoint ancestors_of (fuel : nat) (doc : Document) (h : nat) : list nat :=
  match fuel with
  | O => []
  | S fuel' =>
      match doc !! h with
      | Some e =>
          match parentNode e with
          | Some p => p :: ancestors_of fuel' doc p
          | None => []
          end
      | None => []
      end
  end.

Definition previous_siblings (doc : Document) (h : nat) : list nat :=
  match doc !! h with
  | Some e =>
      match parentNode e with
      | Some p =>
          reverse
            (filter (fun k => parentNode <$> doc !! k = Some (Some p)) (seq 0 h))
      | None => []
      end
  | None => []
  end.

(** The elements a combinator relates an element to. *)
Definition related (doc : Document) (comb : combinator) (h : nat) : list nat :=
  match comb with
  | Descendant => ancestors_of (length doc) doc h
  | Child => take 1 (ancestors_of (length doc) doc h)
  | NextSibling => take 1 (previous_siblings doc h)
  | SubsequentSibling => previous_siblings doc h
  end.

Section Complex.

Variable matches1 : simple_selector -> nat -> bool.
Variable doc : Document.

Definition matches_compound (c : compound_selector) (h : nat) : bool :=
  forallb (fun s => matches1 s h) c.

Fixpoint matches_context (ctx : list (combinator * compound_selector)) (h : nat)
  : bool :=
  match ctx with
  | [] => true
  | (comb, c) :: ctx' =>
      existsb (fun k => matches_compound c k && matches_context ctx' k)
              (related doc comb h)
  end.

Definition matches_complex (c : complex_selector) (h : nat) : bool :=
  matches_compound (fst c) h && matches_context (snd c) h.

End Complex.

Fixpoint matches_simple (doc : Document) (s : simple_selector) (h : nat)
  {struct s} : bool :=
  match doc !! h with
  | None => false
  | Some e =>
      match s with
      | Universal => true
      | Tag name => String.eqb (localName e) name
      | ById i => String.eqb (elemId e) i
      | ByClass c => tokens_contains c (classList e)
      | ByAttr name op v => attr_matches name op v (attribute e name)
      | Not alts =>
          negb (existsb
                  (fun c => matches_complex (fun s' k => matches_simple doc s' k) doc c h)
                  alts)
      end
  end.

(** Whether element [h] matches one of the complex selectors of a list. *)
Definition matches (doc : Document) (sel : list complex_selector) (h : nat) : bool :=
  existsb (fun c => matches_complex (matches_simple doc) doc c h) sel.

(** [document.querySelector(sel)]: the first connected element, in tree
    order, that matches; [None] (null) when there is none, SyntaxError when
    [sel] is refused. *)
Definition querySelector (doc : Document) (sel : string)
  : completion (option nat) :=
  match parse_selector sel with
  | Some cs =>
      Normal (find_from (fun i _ => isConnected doc i && matches doc cs i) 0%nat doc)
  | None => Throw SyntaxError
  end.

(** [document.getElementById(i)]. *)
Definition getElementById (doc : Document) (i : string) : option nat :=
  if String.eqb i "" then None
  else first_match doc (fun e => String.eqb (elemId e) i).

(** *** Changes to one element of the document *)

Definition update (h : nat) (f : Element -> Element) (doc : Document) : Document :=
  alter f h doc.

(** Setting [textContent] replaces the children of the element by the
    text: its child elements leave the document. *)
Definition set_textContent (h : nat) (t : string) (doc : Document) : Document :=
  update h (with_textContent t)
    ((fun e => if bool_decide (parentNode e = Some h)
               then with_parentNode None e else e) <$> doc).

(** A style and layout computation: every element is rendered with the
    classes it has now. *)
Definition flush_layout (doc : Document) : Document :=
  (fun e => with_rendered (classList e) e) <$> doc.

End DOM.



(** ** The state of the page *)

(** A reference held in a variable: an element, or [None] for null. *)
Abbreviation Ref := (option nat).

(** The closure [script.js] passes to [setTimeout] (line 83): it keeps the
    element and the class of the call of [animateOnce] that made it. *)
Inductive TimerCallback : Type :=
| RemoveClass (el : nat) (animationClass : string).

(** A pending timeout, due when the clock reaches [due]. *)
Record Timer : Type := mkTimer {
  timerId : Z;
  due : Z;
  callback : TimerCallback
}.

Inductive EventTarget : Type :=
| TheDocument
| Node (h : nat).

(** The function values [script.js] registers as listeners, each with the
    constants of the enclosing function it refers to. *)
Inductive Handler : Type :=
| OnDOMContentLoaded
| OnAddClick (num1 num2 sumResult : Ref)
| OnIncLocalClick (localOut : Ref)
| OnIncGlobalClick (globalOut : Ref)
| OnAnimateBoxBtnClick
| OnAnimBoxClick
| OnFlipBtnClick (flipCard : Ref)
| OnFlipCardClick (flipCard : Ref)
| OnStartSpinClick (spinner : Ref)
| OnStopSpinClick (spinner : Ref)
| OnOpenModalBtnClick
| OnCloseModalBtnClick
| OnModalClick
| OnKeydown.

Record Listener : Type := mkListener {
  target : EventTarget;
  eventType : string;
  handler : Handler
}.

(** [globalCounter] is the script's global variable (line 9), an
    integer-valued Number; [now] is the clock, in milliseconds. *)
Record State : Type := mkState {
  globalCounter : Z;
  document : DOM.Document;
  listeners : list Listener;
  timers : list Timer;
  nextTimerId : Z;
  now : Z
}.

Definition with_globalCounter (c : Z) (st : State) : State :=
  mkState c (document st) (listeners st) (timers st) (nextTimerId st) (now st).

Definition with_document (d : DOM.Document) (st : State) : State :=
  mkState (globalCounter st) d (listeners st) (timers st) (nextTimerId st) (now st).

Definition with_listeners (l : list Listener) (st : State) : State :=
  mkState (globalCounter st) (document st) l (timers st) (nextTimerId st) (now st).

Definition with_timers (t : list Timer) (n : Z) (st : State) : State :=
  mkState (globalCounter st) (document st) (listeners st) t n (now st).

Definition with_now (t : Z) (st : State) : State :=
  mkState (globalCounter st) (document st) (listeners st) (timers st)
          (nextTimerId st) t.

#[global] Instance TimerCallback_eq_dec : EqDecision TimerCallback.
Proof. solve_decision. Defined.

#[global] Instance EventTarget_eq_dec : EqDecision EventTarget.
Proof. solve_decision. Defined.

(** ** Computations: a state transformer that may throw

    What a computation did before it throws stays done. *)

Definition M (A : Type) : Type := State -> completion A * State.

Definition ret {A : Type} (a : A) : M A := fun st => (Normal a, st).

Definition throw {A : Type} (e : exn) : M A := fun st => (Throw e, st).

Definition bind {A B : Type} (m : M A) (k : A -> M B) : M B :=
  fun st =>
    match m st with
    | (Normal a, st') => k a st'
    | (Throw e, st') => (Throw e, st')
    end.

Notation "'let*' x ':=' m 'in' k" := (bind m (fun x => k))
  (at level 10, x binder, k at level 200).

Definition lift {A : Type} (c : completion A) : M A := fun st => (c, st).

Definition get_document : M DOM.Document := fun st => (Normal (document st), st).

Definition modify_document (f : DOM.Document -> DOM.Document) : M unit :=
  fun st => (Normal tt, with_document (f (document st)) st).

(** Using a reference: a property of null is a TypeError. *)
Definition deref (r : Ref) : M nat :=
  match r with
  | Some h => ret h
  | None => throw TypeError
  end.

(** Reading an element through its handle. *)
Definition element (h : nat) : M DOM.Element :=
  let* doc := get_document in
  match doc !! h with
  | Some e => ret e
  | None => throw TypeError
  end.

(** ** The interfaces of the browser the script calls *)

Module Browser.

Definition querySelector (sel : string) : M Ref :=
  let* doc := get_document in lift (DOM.querySelector doc sel).

Definition getElementById (i : string) : M Ref :=
  let* doc := get_document in ret (DOM.getElementById doc i).

Definition check_token (c : string) : M unit :=
  match DOM.token_error c with
  | Some e => throw e
  | None => ret tt
  end.

Definition set_classList (el : nat) (f : list string -> list string) : M unit :=
  modify_document
    (DOM.update el (fun e => DOM.with_classList (f (DOM.classList e)) e)).

(** [el.classList.add(c)] *)
Definition classList_add (el : nat) (c : string) : M unit :=
  let* _ := check_token c in set_classList el (DOM.tokens_add c).

(** [el.classList.remove(c)] *)
Definition classList_remove (el : nat) (c : string) : M unit :=
  let* _ := check_token c in set_classList el (DOM.tokens_remove c).

(** [el.classList.contains(c)] *)
Definition classList_contains (el : nat) (c : string) : M bool :=
  let* e := element el in ret (DOM.tokens_contains c (DOM.classList e)).

(** [el.classList.toggle(c)]: removes a class that is there and answers
    false, adds one that is not and answers true. *)
Definition classList_toggle (el : nat) (c : string) : M bool :=
  let* _ := check_token c in
  let* e := element el in
  if DOM.tokens_contains c (DOM.classList e)
  then let* _ := set_classList el (DOM.tokens_remove c) in ret false
  else let* _ := set_classList el (DOM.tokens_add c) in ret true.

(** [el.setAttribute(name, v)], for the attribute names the script uses
    (none of them [id] or [class]). *)
Definition setAttribute (el : nat) (name v : string) : M unit :=
  modify_document
    (DOM.update el (fun e => DOM.with_attributes (<[name := v]> (DOM.attributes e)) e)).

(** [el.offsetWidth]: reading it makes the browser compute style and layout
    at once.  The width itself is not modelled. *)
Definition offsetWidth (el : nat) : M unit :=
  modify_document DOM.flush_layout.

(** [el.textContent = t] *)
Definition set_textContent (el : nat) (t : string) : M unit :=
  modify_document (DOM.set_textContent el t).

(** [el.value]: a string on a form control, undefined elsewhere. *)
Definition get_value (el : nat) : M JS.value :=
  let* e := element el in
  ret (match DOM.value e with
       | Some v => JS.VString v
       | None => JS.VUndefined
       end).

(** The delay of a timeout is a 32-bit signed integer: the argument wraps
    around, and a negative delay is no delay. *)
Definition ToInt32 (z : Z) : Z :=
  let m := z mod 2 ^ 32 in if m <? 2 ^ 31 then m else m - 2 ^ 32.

Definition timer_delay (d : Z) : Z := Z.max 0 (ToInt32 d).

(** [setTimeout(cb, d)]: the timeout is pending from now on, and its handle
    is returned. *)
Definition setTimeout (cb : TimerCallback) (d : Z) : M Z :=
  fun st =>
    let i := nextTimerId st in
    (Normal i,
     with_timers (timers st ++ [mkTimer i (now st + timer_delay d) cb]) (i + 1) st).

(** [clearTimeout(i)] *)
Definition clearTimeout (i : Z) : M unit :=
  fun st =>
    (Normal tt,
     with_timers (filter (fun t => timerId t ≠ i) (timers st)) (nextTimerId st) st).

(** [t.addEventListener(type, h)] *)
Definition addEventListener (t : EventTarget) (type : string) (h : Handler) : M unit :=
  fun st => (Normal tt, with_listeners (listeners st ++ [mkListener t type h]) st).

End Browser.

(** ** script.js *)

Module Script.

Import Browser.

(** Line 9: [let globalCounter = 0;] *)
Definition globalCounter_init : Z := 0.

(** Lines 17-20. *)
Definition add (a b : JS.value) : M JS.number :=
  let* x := lift (JS.Number a) in
  let* y := lift (JS.Number b) in
  ret (JS.number_add x y).

(** Lines 26-29; [None] is a call without the argument. *)
Definition greet (name : option string) : M string :=
  let name := default "guest" name in
  let greeting := "hi " ++ name in
  ret greeting.

(** Lines 36-40. *)
Definition incrementLocal : M Z :=
  let count := 0 in
  let count := JS.integer_add count 1 in
  ret count.

(** Lines 47-50. *)
Definition incrementGlobal : M Z :=
  fun st =>
    let st' := with_globalCounter (JS.integer_add (globalCounter st) 1) st in
    (Normal (globalCounter st'), st').

(** Lines 60-65. *)
Definition toggleClass (selector className : string) : M bool :=
  let* el := querySelector selector in
  match el with
  | None => ret false
  | Some el =>
      let* _ := classList_toggle el className in
      classList_contains el className
  end.

(** Lines 75-87; [duration] is [None] in a call without the argument.
    The answer is null ([None]) or the id of the timeout. *)
Definition animateOnce (selector animationClass : string) (duration : option Z)
  : M (option Z) :=
  let duration := default 700 duration in
  let* el := querySelector selector in
  match el with
  | None => ret None
  | Some el =>
      let* _ := classList_remove el animationClass in
      let* _ := offsetWidth el in
      let* _ := classList_add el animationClass in
      let* id := setTimeout (RemoveClass el animationClass) duration in
      ret (Some id)
  end.

(** Lines 83-85: the body of the timeout's callback. *)
Definition run_callback (cb : TimerCallback) : M unit :=
  match cb with
  | RemoveClass el animationClass => classList_remove el animationClass
  end.

(** Lines 94-100. *)
Definition openModal (modalSelector : string) : M bool :=
  let* modal := querySelector modalSelector in
  match modal with
  | None => ret false
  | Some modal =>
      let* _ := classList_add modal "open" in
      let* _ := setAttribute modal "aria-hidden" "false" in
      ret true
  end.

(** Lines 101-107. *)
Definition closeModal (modalSelector : string) : M bool :=
  let* modal := querySelector modalSelector in
  match modal with
  | None => ret false
  | Some modal =>
      let* _ := classList_remove modal "open" in
      let* _ := setAttribute modal "aria-hidden" "true" in
      ret true
  end.

(** [r.addEventListener(type, h)] on a reference. *)
Definition listen (r : Ref) (type : string) (h : Handler) : M unit :=
  let* el := deref r in addEventListener (Node el) type h.

(** Lines 110-201: the body of the DOMContentLoaded listener. *)
Definition wire : M unit :=
  let* num1 := getElementById "num1" in
  let* num2 := getElementById "num2" in
  let* addBtn := getElementById "addBtn" in
  let* sumResult := getElementById "sumResult" in
  let* _ := listen addBtn "click" (OnAddClick num1 num2 sumResult) in
  let* incLocalBtn := getElementById "incLocal" in
  let* incGlobalBtn := getElementById "incGlobal" in
  let* localOut := getElementById "localOut" in
  let* globalOut := getElementById "globalOut" in
  let* _ := listen incLocalBtn "click" (OnIncLocalClick localOut) in
  let* _ := listen incGlobalBtn "click" (OnIncGlobalClick globalOut) in
  let* animateBoxBtn := getElementById "animateBoxBtn" in
  let* _ := listen animateBoxBtn "click" OnAnimateBoxBtnClick in
  let* animBox := getElementById "animBox" in
  let* _ := listen animBox "click" OnAnimBoxClick in
  let* flipBtn := getElementById "flipBtn" in
  let* flipCard := getElementById "flipCard" in
  let* _ := listen flipBtn "click" (OnFlipBtnClick flipCard) in
  let* _ := listen flipCard "click" (OnFlipCardClick flipCard) in
  let* spinner := getElementById "spinner" in
  let* startSpin := getElementById "startSpin" in
  let* stopSpin := getElementById "stopSpin" in
  let* _ := listen startSpin "click" (OnStartSpinClick spinner) in
  let* _ := listen stopSpin "click" (OnStopSpinClick spinner) in
  let* openModalBtn := getElementById "openModalBtn" in
  let* closeModalBtn := getElementById "closeModalBtn" in
  let* _ := listen openModalBtn "click" OnOpenModalBtnClick in
  let* _ := listen closeModalBtn "click" OnCloseModalBtnClick in
  let* demoModal := getElementById "demoModal" in
  let* _ := listen demoModal "click" OnModalClick in
  addEventListener TheDocument "keydown" OnKeydown.

(** An event as a listener sees it: [e.target], and [e.key] for a key
    press. *)
Record Event : Type := mkEvent {
  type : string;
  eventTarget : EventTarget;
  key : option string
}.

(** The bodies of the listeners; [this] is the target the listener is
    registered on. *)
Definition run_handler (h : Handler) (this : EventTarget) (e : Event) : M unit :=
  match h with
  | OnDOMContentLoaded => wire
  | OnAddClick num1 num2 sumResult =>
      (* lines 117-121 *)
      let* n1 := deref num1 in
      let* v1 := get_value n1 in
      let* n2 := deref num2 in
      let* v2 := get_value n2 in
      let* result := add v1 v2 in
      let* out := deref sumResult in
      set_textContent out ("result: " ++ JS.NumberToString result)
  | OnIncLocalClick localOut =>
      (* lines 129-133 *)
      let* value := incrementLocal in
      let* out := deref localOut in
      set_textContent out
        ("returned local value: " ++ JS.NumberToString (JS.number_of_Z value))
  | OnIncGlobalClick globalOut =>
      (* lines 135-138 *)
      let* value := incrementGlobal in
      let* out := deref globalOut in
      set_textContent out
        ("globalCounter is now: " ++ JS.NumberToString (JS.number_of_Z value))
  | OnAnimateBoxBtnClick =>
      (* lines 142-145 *)
      let* _ := animateOnce "#animBox" "anim-pop" (Some 700) in ret tt
  | OnAnimBoxClick =>
      (* line 149 *)
      let* _ := animateOnce "#animBox" "anim-pop" (Some 700) in ret tt
  | OnFlipBtnClick flipCard =>
      (* lines 155-159 *)
      let* isNowFlipped := toggleClass "#flipCard" "flipped" in
      let* card := deref flipCard in
      setAttribute card "aria-pressed" (JS.BooleanToString isNowFlipped)
  | OnFlipCardClick flipCard =>
      (* lines 162-165 *)
      let* isNowFlipped := toggleClass "#flipCard" "flipped" in
      let* card := deref flipCard in
      setAttribute card "aria-pressed" (JS.BooleanToString isNowFlipped)
  | OnStartSpinClick spinner =>
      (* lines 172-175 *)
      let* sp := deref spinner in
      let* _ := classList_add sp "spinning" in
      setAttribute sp "aria-hidden" "false"
  | OnStopSpinClick spinner =>
      (* lines 176-179 *)
      let* sp := deref spinner in
      let* _ := classList_remove sp "spinning" in
      setAttribute sp "aria-hidden" "true"
  | OnOpenModalBtnClick =>
      (* lines 185-187 *)
      let* _ := openModal "#demoModal" in ret tt
  | OnCloseModalBtnClick =>
      (* lines 188-190 *)
      let* _ := closeModal "#demoModal" in ret tt
  | OnModalClick =>
      (* lines 193-195 *)
      if bool_decide (eventTarget e = this)
      then let* _ := closeModal "#demoModal" in ret tt
      else ret tt
  | OnKeydown =>
      (* lines 198-200 *)
      if bool_decide (key e = Some "Escape")
      then let* _ := closeModal "#demoModal" in ret tt
      else ret tt
  end.

(** The page once the script has been evaluated: the counter is 0 and the
    DOMContentLoaded listener is registered (lines 9 and 110). *)
Definition load (doc : DOM.Document) : State :=
  mkState globalCounter_init doc
          [mkListener TheDocument "DOMContentLoaded" OnDOMContentLoaded]
          [] 1 0.

End Script.

(** ** Events and time *)

Module Page.

Import Script.

(** An element and its ancestors, nearest first. *)
Fixpoint ancestors (fuel : nat) (doc : DOM.Document) (h : nat) : list nat :=
  match fuel with
  | O => []
  | S fuel' =>
      match doc !! h with
      | None => []
      | Some e =>
          h :: match DOM.parentNode e with
               | None => []
               | Some p => ancestors fuel' doc p
               end
      end
  end.

(** The targets an event reaches as it bubbles: the target, its ancestors
    and, from a connected element, the document. *)
Definition path (doc : DOM.Document) (t : EventTarget) : list EventTarget :=
  match t with
  | TheDocument => [TheDocument]
  | Node h =>
      map Node (ancestors (length doc) doc h)
      ++ (if DOM.isConnected doc h then [TheDocument] else [])
  end.

(** The listeners of [ls] registered on [t] for events of type [ty], in the
    order of their registration, each with its [this]. *)
Definition listeners_on (ls : list Listener) (ty : string) (t : EventTarget)
  : list (EventTarget * Handler) :=
  map (fun l => (t, handler l))
      (filter (fun l => target l = t ∧ eventType l = ty) ls).

(** The listeners an event invokes, in order.  They are settled when the
    dispatch starts. *)
Definition invoked (e : Event) (st : State) : list (EventTarget * Handler) :=
  flat_map (listeners_on (listeners st) (type e)) (path (document st) (eventTarget e)).

(** One listener runs; an exception it throws is reported and ends this
    listener only. *)
Definition invoke (e : Event) (st : State) (l : EventTarget * Handler) : State :=
  snd (run_handler (snd l) (fst l) e st).

Definition dispatch (e : Event) (st : State) : State :=
  fold_left (invoke e) (invoked e st) st.

Definition click (h : nat) : Event := mkEvent "click" (Node h) None.

Definition keydown (t : EventTarget) (k : string) : Event :=
  mkEvent "keydown" t (Some k).

Definition DOMContentLoaded : Event := mkEvent "DOMContentLoaded" TheDocument None.

(** What happens to the page: an event is dispatched, a timeout fires, time
    passes, the browser renders a frame, the user edits a form control. *)
Inductive Input : Type :=
| Dispatch (e : Event)
| Timeout (id : Z)
| Tick (dt : Z)
| Frame
| Edit (h : nat) (v : string).

Definition find_timer (id : Z) (ts : list Timer) : option Timer :=
  snd <$> list_find (fun t => timerId t = id) ts.

(** A pending timeout fires once its time has come, and is then no longer
    pending. *)
Definition fire (id : Z) (st : State) : State :=
  match find_timer id (timers st) with
  | Some t =>
      if due t <=? now st
      then snd (run_callback (callback t) (snd (Browser.clearTimeout id st)))
      else st
  | None => st
  end.

(** The user gives a form control a new value; other elements have none
    to give. *)
Definition with_value (v : string) (e : DOM.Element) : DOM.Element :=
  DOM.mkElement (DOM.localName e) (DOM.elemId e) (DOM.classList e)
                (DOM.attributes e) (DOM.textContent e)
                (match DOM.value e with
                 | Some _ => Some v
                 | None => None
                 end)
                (DOM.parentNode e) (DOM.rendered e).

Definition step (st : State) (i : Input) : State :=
  match i with
  | Dispatch e => dispatch e st
  | Timeout id => fire id st
  | Tick dt => with_now (now st + Z.max 0 dt) st
  | Frame => with_document (DOM.flush_layout (document st)) st
  | Edit h v => with_document (DOM.update h (with_value v) (document st)) st
  end.

(** The page after a sequence of inputs. *)
Definition run (st : State) (inputs : list Input) : State :=
  fold_left step inputs st.

(** The inputs whose dispatch runs the listener that calls
    [incrementGlobal] (line 136). *)
Definition is_incGlobal (l : EventTarget * Handler) : bool :=
  match snd l with
  | OnIncGlobalClick _ => true
  | _ => false
  end.

Definition calls_incrementGlobal (st : State) (i : Input) : bool :=
  match i with
  | Dispatch e => existsb is_incGlobal (invoked e st)
  | _ => false
  end.

End Page.

(** ** Observations and test pages *)

Import Script.

(** The classes of element [h], and whether [c] is one of them. *)
Definition classes (st : State) (h : nat) : list string :=
  match document st !! h with
  | Some e => DOM.classList e
  | None => []
  end.

Definition hasClass (st : State) (h : nat) (c : string) : bool :=
  DOM.tokens_contains c (classes st h).

(** [el.getAttribute(name)], read off a state.  The name is taken in lower
    case, as on an element of an HTML document. *)
Definition getAttribute (st : State) (h : nat) (name : string) : option string :=
  e ← document st !! h; DOM.attribute e (DOM.to_lower name).

(** The text of element [h] itself: what [el.textContent] reads on an
    element without child elements, as one is once a text has been set on
    it. *)
Definition textOf (st : State) (h : nat) : option string :=
  DOM.textContent <$> document st !! h.


(** Whether an event sent to [t] reaches the listeners of the document. *)
Definition in_document (st : State) (t : EventTarget) : bool :=
  match t with
  | TheDocument => true
  | Node h => DOM.isConnected (document st) h
  end.

(** What [openModal] (lines 97-98) and [closeModal] (lines 104-105) make of
    the element they find. *)
Definition opened (e : DOM.Element) : DOM.Element :=
  DOM.with_attributes (<["aria-hidden" := "false"]> (DOM.attributes e))
    (DOM.with_classList (DOM.tokens_add "open" (DOM.classList e)) e).

Definition closed (e : DOM.Element) : DOM.Element :=
  DOM.with_attributes (<["aria-hidden" := "true"]> (DOM.attributes e))
    (DOM.with_classList (DOM.tokens_remove "open" (DOM.classList e)) e).

(** A computation keeps a relation between the state it starts in and the
    state it ends in, whether it returns or throws. *)
Definition keeps {A : Type} (R : State -> State -> Prop) (m : M A) : Prop :=
  forall st, R st (snd (m st)).

(** The listeners [script.js] registers for key presses all have the body
    of lines 198-200. *)
Definition wired_listener (l : Listener) : Prop :=
  eventType l = "keydown" -> handler l = OnKeydown.

(** The largest value the counter reaches: above it, adding 1 to a Number
    gives the Number back. *)
Definition counter_limit : Z := 2 ^ 53.

(** A relation between states that holds across every change of the
    document, of the timeouts, of the clock, and across the registration of
    a listener that is one of the script's. *)
Record StepRelation (R : State -> State -> Prop) : Prop := mkStepRelation {
  rel_refl : forall st, R st st;
  rel_trans : forall s1 s2 s3, R s1 s2 -> R s2 s3 -> R s1 s3;
  rel_document : forall st d, R st (with_document d st);
  rel_timers : forall st t n, R st (with_timers t n st);
  rel_now : forall st t, R st (with_now t st);
  rel_listen :
    forall st l, wired_listener l -> R st (with_listeners (listeners st ++ [l]) st)
}.

(** [q] followed by [n] zero bits. *)
Fixpoint shift (q : positive) (n : nat) : positive :=
  match n with
  | O => q
  | S n' => xO (shift q n')
  end.

(** The counter is an integer from 0 to [counter_limit]. *)
Definition counter_in_range (st : State) : Prop :=
  0 <= globalCounter st <= counter_limit.

(** From [s] to [s'] the counter stayed in range and did not go down. *)
Definition counter_grows (s s' : State) : Prop :=
  counter_in_range s -> counter_in_range s' /\ globalCounter s <= globalCounter s'.

(** From [s] to [s'] the counter did not change. *)
Definition counter_kept (s s' : State) : Prop :=
  globalCounter s' = globalCounter s.

Definition listeners_wired (st : State) : Prop :=
  Forall wired_listener (listeners st).

(** The listener of lines 198-200, registered on the document. *)
Definition keydown_listener : Listener :=
  mkListener TheDocument "keydown" OnKeydown.

(** From [s] to [s'] no listener was removed. *)
Definition listeners_persist (s s' : State) : Prop :=
  forall l, In l (listeners s) -> In l (listeners s').

(** [n] calls of [m] in sequence, with what each returned. *)
Fixpoint repeat_call {A : Type} (m : M A) (n : nat) : M (list A) :=
  match n with
  | O => ret []
  | S n' =>
      let* x := m in
      let* xs := repeat_call m n' in
      ret (x :: xs)
  end.

(** An element as markup gives it: rendered with the classes it has, an
    [input] with an empty value. *)
Definition markup (tag i : string) (cls : list string)
    (attrs : list (string * string)) (parent : option nat) : DOM.Element :=
  DOM.mkElement tag i cls (list_to_map attrs) ""
                (if String.eqb tag "input" then Some "" else None) parent cls.

(** A page with the elements [script.js] looks up. *)
Definition demo_page : DOM.Document :=
  [ markup "html" "" [] [] None;
    markup "body" "" [] [] (Some 0%nat);
    markup "input" "num1" [] [] (Some 1%nat);
    markup "input" "num2" [] [] (Some 1%nat);
    markup "button" "addBtn" [] [] (Some 1%nat);
    markup "p" "sumResult" [] [] (Some 1%nat);
    markup "button" "incLocal" [] [] (Some 1%nat);
    markup "button" "incGlobal" [] [] (Some 1%nat);
    markup "p" "localOut" [] [] (Some 1%nat);
    markup "p" "globalOut" [] [] (Some 1%nat);
    markup "button" "animateBoxBtn" [] [] (Some 1%nat);
    markup "div" "animBox" ["box"] [] (Some 1%nat);
    markup "button" "flipBtn" [] [] (Some 1%nat);
    markup "div" "flipCard" ["card"] [("aria-pressed", "false")] (Some 1%nat);
    markup "div" "spinner" [] [("aria-hidden", "true")] (Some 1%nat);
    markup "button" "startSpin" [] [] (Some 1%nat);
    markup "button" "stopSpin" [] [] (Some 1%nat);
    markup "button" "openModalBtn" [] [] (Some 1%nat);
    markup "div" "demoModal" ["modal"] [("aria-hidden", "true")] (Some 1%nat);
    markup "div" "" ["modal-content"] [] (Some 18%nat);
    markup "button" "closeModalBtn" [] [] (Some 19%nat) ].

(** The demo page once DOMContentLoaded has been dispatched. *)
Definition demo_wired : State :=
  Page.run (load demo_page) [Page.Dispatch Page.DOMContentLoaded].

(** A page with elements in elements, and one that is detached. *)
Definition nested_page : DOM.Document :=
  [ markup "html" "" [] [] None;
    markup "body" "" [] [] (Some 0%nat);
    markup "div" "a" ["modal"] [("aria-hidden", "true")] (Some 1%nat);
    markup "p" "" ["x"] [] (Some 2%nat);
    markup "span" "s" [] [("lang", "EN-us"); ("type", "TEXT")] (Some 3%nat);
    markup "div" "b" ["modal"; "open"] [("aria-hidden", "false")] (Some 1%nat);
    markup "p" "" [] [] (Some 1%nat);
    markup "p" "q" [] [] None ].

(** The demo page without the button of line 188. *)
Definition page_without_closeModalBtn : DOM.Document := take 20 demo_page.

(** A page whose card is already flipped. *)
Definition flipped_page : DOM.Document :=
  [ markup "html" "" [] [] None;
    markup "div" "flipCard" ["card"; "flipped"] [] (Some 0%nat) ].

(** ** What a listener may touch *)

(** The listeners [script.js] registers: the one of line 110 and the one of
    line 198 on the document, all others for clicks on an element. *)
Definition script_listener (l : Listener) : Prop :=
  match handler l with
  | OnDOMContentLoaded =>
      target l = TheDocument /\ eventType l = "DOMContentLoaded"
  | OnKeydown => target l = TheDocument /\ eventType l = "keydown"
  | _ => eventType l = "click" /\ exists h, target l = Node h
  end.

Definition listeners_scripted (st : State) : Prop :=
  Forall script_listener (listeners st).

(** A relation between states that holds across the changes of the page a
    listener can make: adding a class of [adds], removing a class of
    [removes], setting an attribute of [attrs], setting a text, a layout
    computation, the registration of one of the script's listeners. *)
Record Footprint (R : State -> State -> Prop)
    (adds removes attrs : string -> Prop) : Prop := mkFootprint {
  fp_refl : forall st, R st st;
  fp_trans : forall s1 s2 s3, R s1 s2 -> R s2 s3 -> R s1 s3;
  fp_add :
    forall el c, adds c -> keeps R (Browser.set_classList el (DOM.tokens_add c));
  fp_remove :
    forall el c,
      removes c -> keeps R (Browser.set_classList el (DOM.tokens_remove c));
  fp_attr :
    forall el name v, attrs name -> keeps R (Browser.setAttribute el name v);
  fp_text : forall el t, keeps R (Browser.set_textContent el t);
  fp_layout : forall el, keeps R (Browser.offsetWidth el);
  fp_listen :
    forall t ty h,
      script_listener (mkListener t ty h) ->
      keeps R (Browser.addEventListener t ty h)
}.

(** What the body of each listener needs of such a relation: the classes
    and attributes its lines name, and the calls of [incrementGlobal]
    (line 136) and [animateOnce] (lines 144 and 149) as a whole. *)
Definition handler_within (R : State -> State -> Prop)
    (adds removes attrs : string -> Prop) (h : Handler) : Prop :=
  match h with
  | OnDOMContentLoaded | OnAddClick _ _ _ | OnIncLocalClick _ => True
  | OnIncGlobalClick _ => keeps R incrementGlobal
  | OnAnimateBoxBtnClick | OnAnimBoxClick =>
      keeps R (animateOnce "#animBox" "anim-pop" (Some 700))
  | OnFlipBtnClick _ | OnFlipCardClick _ =>
      adds "flipped" /\ removes "flipped" /\ attrs "aria-pressed"
  | OnStartSpinClick _ => adds "spinning" /\ attrs "aria-hidden"
  | OnStopSpinClick _ => removes "spinning" /\ attrs "aria-hidden"
  | OnOpenModalBtnClick => adds "open" /\ attrs "aria-hidden"
  | OnCloseModalBtnClick | OnModalClick | OnKeydown =>
      removes "open" /\ attrs "aria-hidden"
  end.

(** The same for a listener as an event invokes it: the listeners of lines
    193 and 198 do nothing unless the click is on the modal itself, or the
    key is Escape. *)
Definition listener_within (R : State -> State -> Prop)
    (adds removes attrs : string -> Prop) (e : Event)
    (l : EventTarget * Handler) : Prop :=
  match snd l with
  | OnModalClick =>
      eventTarget e = fst l -> removes "open" /\ attrs "aria-hidden"
  | OnKeydown =>
      key e = Some "Escape" -> removes "open" /\ attrs "aria-hidden"
  | h => handler_within R adds removes attrs h
  end.

(** An invariant [I] as a relation: where it held it still holds. *)
Definition preserves (I : State -> Prop) (s s' : State) : Prop := I s -> I s'.

(** The pending timeouts are the ones lines 83-85 set: each has a handle of
    its own, given out before, removes the class [anim-pop] and is due at
    most 700 ms from now. *)
Definition timers_scripted (st : State) : Prop :=
  1 <= nextTimerId st
  /\ Forall (fun t => 1 <= timerId t < nextTimerId st
                   /\ due t <= now st + 700
                   /\ exists el, callback t = RemoveClass el "anim-pop")
         (timers st)
  /\ NoDup (timerId <$> timers st).

(** A timeout that will remove [anim-pop] from element [h] is pending. *)
Definition removal_pending (st : State) (h : nat) : Prop :=
  exists t, t ∈ timers st /\ callback t = RemoveClass h "anim-pop".

(** No element keeps the class [anim-pop] for good. *)
Definition self_cleaning (st : State) : Prop :=
  forall h, hasClass st h "anim-pop" = true -> removal_pending st h.

(** From [s] to [s'] what [proj] reads of each element is the same. *)
Definition kept {A : Type} (proj : DOM.Element -> A) (s s' : State) : Prop :=
  forall h, proj <$> document s' !! h = proj <$> document s !! h.

(** The classes and attributes the script names (lines 144, 149, 156, 163,
    173, 177, 97, 104 and 98, 105, 158, 164, 174, 178). *)
Definition script_classes : list string :=
  ["anim-pop"; "flipped"; "spinning"; "open"].

Definition script_attributes : list string := ["aria-hidden"; "aria-pressed"].

(** The classes the body of a listener can give an element, and the ones
    it can take from one. *)
Definition handler_adds (h : Handler) : list string :=
  match h with
  | OnAnimateBoxBtnClick | OnAnimBoxClick => ["anim-pop"]
  | OnFlipBtnClick _ | OnFlipCardClick _ => ["flipped"]
  | OnStartSpinClick _ => ["spinning"]
  | OnOpenModalBtnClick => ["open"]
  | _ => []
  end.

Definition listener_takes (e : Event) (l : EventTarget * Handler) : list string :=
  match snd l with
  | OnFlipBtnClick _ | OnFlipCardClick _ => ["flipped"]
  | OnStopSpinClick _ => ["spinning"]
  | OnCloseModalBtnClick => ["open"]
  | OnModalClick => if bool_decide (eventTarget e = fst l) then ["open"] else []
  | OnKeydown => if bool_decide (key e = Some "Escape") then ["open"] else []
  | _ => []
  end.

(** From [s] to [s'] no element got the class [c]; none lost it. *)
Definition no_class_gained (c : string) (s s' : State) : Prop :=
  forall h, hasClass s' h c = true -> hasClass s h c = true.

Definition no_class_lost (c : string) (s s' : State) : Prop :=
  forall h, hasClass s h c = true -> hasClass s' h c = true.

(** The ids of the elements lines 110-201 register a listener on. *)
Definition listened_ids : list string :=
  ["addBtn"; "incLocal"; "incGlobal"; "animateBoxBtn"; "animBox"; "flipBtn";
   "flipCard"; "startSpin"; "stopSpin"; "openModalBtn"; "closeModalBtn";
   "demoModal"].




(** [el.value], read off a state. *)
Definition valueOf (st : State) (h : nat) : JS.value :=
  match document st !! h with
  | Some e =>
      match DOM.value e with
      | Some v => JS.VString v
      | None => JS.VUndefined
      end
  | None => JS.VUndefined
  end.

(** * Properties *)

(** ** Looking elements up *)

Section Lookup.

Implicit Types (doc : DOM.Document) (e : DOM.Element) (h i : nat).

Lemma find_from_ext (p q : nat -> DOM.Element -> bool) l l' i :
  length l = length l' ->
  (forall k e e', l !! k = Some e -> l' !! k = Some e' ->
                  p (i + k)%nat e = q (i + k)%nat e') ->
  DOM.find_from p i l = DOM.find_from q i l'.
Proof.
  revert l' i. induction l as [|x l IH]; intros [|y l'] i Hlen Hpq;
    simpl in *; try discriminate; [reflexivity|].
  pose proof (Hpq 0%nat x y eq_refl eq_refl) as H0.
  rewrite Nat.add_0_r in H0. rewrite <- H0.
  destruct (p i x); [reflexivity|].
  apply IH; [congruence|].
  intros k e e' He He'.
  replace (S i + k)%nat with (i + S k)%nat by lia. now apply Hpq.
Qed.

Lemma find_from_Some (p : nat -> DOM.Element -> bool) l i j :
  DOM.find_from p i l = Some j ->
  exists e, (i <= j)%nat /\ l !! (j - i)%nat = Some e /\ p j e = true.
Proof.
  revert i. induction l as [|x l IH]; intros i; simpl; [discriminate|].
  destruct (p i x) eqn:Hp.
  - intros [= <-]. exists x. rewrite Nat.sub_diag. auto.
  - intros Hj. destruct (IH _ Hj) as (e & Hle & He & Hpe).
    exists e. split; [lia|]. split; [|assumption].
    replace (j - i)%nat with (S (j - S i)) by lia. exact He.
Qed.

Lemma connected_fuel_alter (f : DOM.Element -> DOM.Element) fuel doc h i :
  (forall e, DOM.parentNode (f e) = DOM.parentNode e) ->
  DOM.connected_fuel fuel (alter f h doc) i = DOM.connected_fuel fuel doc i.
Proof.
  intros Hf. revert i.
  induction fuel as [|fuel IH]; intros i; cbn [DOM.connected_fuel]; [reflexivity|].
  rewrite list_lookup_alter. destruct (decide (h = i)) as [->|_].
  - destruct (doc !! i) as [e|]; simpl; [|reflexivity].
    rewrite Hf. destruct (DOM.parentNode e); auto.
  - destruct (doc !! i) as [e|]; [|reflexivity].
    destruct (DOM.parentNode e); auto.
Qed.

Lemma isConnected_update (f : DOM.Element -> DOM.Element) doc h i :
  (forall e, DOM.parentNode (f e) = DOM.parentNode e) ->
  DOM.isConnected (DOM.update h f doc) i = DOM.isConnected doc i.
Proof.
  intros Hf. unfold DOM.isConnected, DOM.update.
  rewrite length_alter. now apply connected_fuel_alter.
Qed.

(** An update that keeps the parents, and the answer of the test on the
    updated element, keeps the first match. *)
Lemma first_match_update (f : DOM.Element -> DOM.Element) p doc h :
  (forall e, DOM.parentNode (f e) = DOM.parentNode e) ->
  (forall e, doc !! h = Some e -> p (f e) = p e) ->
  DOM.first_match (DOM.update h f doc) p = DOM.first_match doc p.
Proof.
  intros Hf Hp. unfold DOM.first_match. apply find_from_ext.
  - apply length_alter.
  - intros k e' e He' He. simpl. rewrite isConnected_update by assumption.
    unfold DOM.update in He'. rewrite list_lookup_alter in He'.
    destruct (decide (h = k)) as [->|_]; [|congruence].
    rewrite He in He'. injection He' as <-. now rewrite Hp.
Qed.

Lemma first_match_Some p doc h :
  DOM.first_match doc p = Some h ->
  exists e, doc !! h = Some e /\ p e = true /\ DOM.isConnected doc h = true.
Proof.
  intros H. apply find_from_Some in H as (e & _ & He & Hpe).
  rewrite Nat.sub_0_r in He. apply andb_prop in Hpe as [? ?]. eauto.
Qed.

Lemma querySelector_Some doc sel h :
  DOM.querySelector doc sel = Normal (Some h) ->
  exists e, doc !! h = Some e /\ DOM.isConnected doc h = true.
Proof.
  unfold DOM.querySelector. destruct (DOM.parse_selector sel); [|discriminate].
  intros [= H]. apply find_from_Some in H as (e & _ & He & Hpe).
  rewrite Nat.sub_0_r in He. apply andb_prop in Hpe as [? _]. eauto.
Qed.

Lemma connected_fuel_fmap (f : DOM.Element -> DOM.Element) fuel doc i :
  (forall e, DOM.parentNode (f e) = DOM.parentNode e) ->
  DOM.connected_fuel fuel (f <$> doc) i = DOM.connected_fuel fuel doc i.
Proof.
  intros Hf. revert i.
  induction fuel as [|fuel IH]; intros i; cbn [DOM.connected_fuel]; [reflexivity|].
  rewrite list_lookup_fmap. destruct (doc !! i) as [e|]; simpl; [|reflexivity].
  rewrite Hf. destruct (DOM.parentNode e); auto.
Qed.

Lemma first_match_fmap (f : DOM.Element -> DOM.Element) p doc :
  (forall e, DOM.parentNode (f e) = DOM.parentNode e) ->
  (forall e, p (f e) = p e) ->
  DOM.first_match (f <$> doc) p = DOM.first_match doc p.
Proof.
  intros Hf Hp. unfold DOM.first_match. apply find_from_ext.
  - apply length_fmap.
  - intros k e' e He' He. simpl. unfold DOM.isConnected.
    rewrite length_fmap, connected_fuel_fmap by exact Hf.
    rewrite list_lookup_fmap, He in He'. injection He' as <-. now rewrite Hp.
Qed.

Lemma getElementById_update (f : DOM.Element -> DOM.Element) doc h (i : string) :
  (forall e, DOM.parentNode (f e) = DOM.parentNode e) ->
  (forall e, DOM.elemId (f e) = DOM.elemId e) ->
  DOM.getElementById (DOM.update h f doc) i = DOM.getElementById doc i.
Proof.
  intros Hp Hi. unfold DOM.getElementById. destruct (String.eqb i ""); [reflexivity|].
  apply first_match_update; [exact Hp|]. intros e _. now rewrite Hi.
Qed.

Lemma getElementById_flush_layout doc (i : string) :
  DOM.getElementById (DOM.flush_layout doc) i = DOM.getElementById doc i.
Proof.
  unfold DOM.getElementById. destruct (String.eqb i ""); [reflexivity|].
  apply first_match_fmap; intros e; reflexivity.
Qed.

Lemma getElementById_Some doc (i : string) h :
  DOM.getElementById doc i = Some h -> is_Some (doc !! h).
Proof.
  unfold DOM.getElementById. destruct (String.eqb i ""); [discriminate|].
  intros H. apply first_match_Some in H. destruct H as (e & He & _). now exists e.
Qed.

(** A selector made of an id alone asks for that id and nothing else. *)
Lemma matches_id doc (i : string) h e :
  doc !! h = Some e ->
  DOM.matches doc [([DOM.ById i], [])] h = String.eqb (DOM.elemId e) i.
Proof.
  intros He. unfold DOM.matches, DOM.matches_complex, DOM.matches_compound.
  cbn [existsb forallb fst snd DOM.matches_context DOM.matches_simple].
  rewrite He. now rewrite !andb_true_r, orb_false_r.
Qed.

(** It finds what [getElementById] finds. *)
Lemma querySelector_id doc (i : string) :
  DOM.parse_selector ("#" ++ i) = Some [([DOM.ById i], [])] ->
  String.eqb i "" = false ->
  DOM.querySelector doc ("#" ++ i) = Normal (DOM.getElementById doc i).
Proof.
  intros Hparse Hi. unfold DOM.querySelector, DOM.getElementById.
  rewrite Hparse, Hi. f_equal. unfold DOM.first_match.
  apply find_from_ext; [reflexivity|].
  intros k e e' He He'. rewrite He in He'. injection He' as <-.
  cbv beta. change (0 + k)%nat with k. now rewrite (matches_id _ _ _ _ He).
Qed.

Lemma querySelector_demoModal doc :
  DOM.querySelector doc "#demoModal" = Normal (DOM.getElementById doc "demoModal").
Proof. now apply (querySelector_id doc "demoModal"). Qed.

Lemma querySelector_flipCard doc :
  DOM.querySelector doc "#flipCard" = Normal (DOM.getElementById doc "flipCard").
Proof. now apply (querySelector_id doc "flipCard"). Qed.

Lemma querySelector_animBox doc :
  DOM.querySelector doc "#animBox" = Normal (DOM.getElementById doc "animBox").
Proof. now apply (querySelector_id doc "animBox"). Qed.

End Lookup.

(** ** Class lists *)

Section Tokens.

Implicit Types (c : string) (l : list string).

Lemma tokens_contains_add c l : DOM.tokens_contains c (DOM.tokens_add c l) = true.
Proof.
  unfold DOM.tokens_add. destruct (DOM.tokens_contains c l) eqn:H; [exact H|].
  apply bool_decide_eq_true, elem_of_app. right. apply list_elem_of_singleton.
  reflexivity.
Qed.

Lemma tokens_contains_remove c l :
  DOM.tokens_contains c (DOM.tokens_remove c l) = false.
Proof.
  apply bool_decide_eq_false. unfold DOM.tokens_remove.
  rewrite list_elem_of_filter. now intros [? _].
Qed.

Lemma tokens_contains_add_ne c c' l :
  c' <> c -> DOM.tokens_contains c' (DOM.tokens_add c l) = DOM.tokens_contains c' l.
Proof.
  intros Hne. unfold DOM.tokens_add.
  destruct (DOM.tokens_contains c l); [reflexivity|].
  apply bool_decide_ext. rewrite elem_of_app, list_elem_of_singleton. tauto.
Qed.

Lemma tokens_contains_remove_ne c c' l :
  c' <> c ->
  DOM.tokens_contains c' (DOM.tokens_remove c l) = DOM.tokens_contains c' l.
Proof.
  intros Hne. apply bool_decide_ext. unfold DOM.tokens_remove.
  rewrite list_elem_of_filter. tauto.
Qed.

Lemma tokens_remove_absent c l :
  DOM.tokens_contains c l = false -> DOM.tokens_remove c l = l.
Proof.
  intros H. apply bool_decide_eq_false in H. unfold DOM.tokens_remove.
  induction l as [|x l IH]; [reflexivity|].
  rewrite not_elem_of_cons in H. destruct H as [Hx Hl].
  rewrite filter_cons_True by congruence. f_equal. now apply IH.
Qed.

(** Adding a class that was not there and removing it gives the list back,
    order and all. *)
Lemma tokens_remove_add c l :
  DOM.tokens_contains c l = false -> DOM.tokens_remove c (DOM.tokens_add c l) = l.
Proof.
  intros H. unfold DOM.tokens_add. rewrite H. unfold DOM.tokens_remove.
  rewrite filter_app, filter_cons_False, filter_nil, app_nil_r by tauto.
  now apply tokens_remove_absent.
Qed.

Lemma tokens_add_idem c l :
  DOM.tokens_add c (DOM.tokens_add c l) = DOM.tokens_add c l.
Proof.
  unfold DOM.tokens_add at 1. now rewrite tokens_contains_add.
Qed.

Lemma tokens_remove_idem c l :
  DOM.tokens_remove c (DOM.tokens_remove c l) = DOM.tokens_remove c l.
Proof. apply tokens_remove_absent, tokens_contains_remove. Qed.

(** Removing a class that was there and adding it again leaves every class
    as it was (the class itself moves to the end of the list). *)
Lemma tokens_add_remove c c' l :
  DOM.tokens_contains c l = true ->
  DOM.tokens_contains c' (DOM.tokens_add c (DOM.tokens_remove c l))
  = DOM.tokens_contains c' l.
Proof.
  intros H. destruct (decide (c' = c)) as [->|Hne].
  - now rewrite tokens_contains_add.
  - now rewrite tokens_contains_add_ne, tokens_contains_remove_ne.
Qed.

End Tokens.

(** ** What the helpers compute *)

Section Helpers.

Implicit Types (st : State) (h : nat) (c sel : string).

Lemma with_document_twice d d' st :
  with_document d (with_document d' st) = with_document d st.
Proof. reflexivity. Qed.

Lemma update_twice (f g : DOM.Element -> DOM.Element) (doc : DOM.Document) h :
  DOM.update h f (DOM.update h g doc) = DOM.update h (fun e => f (g e)) doc.
Proof. apply list_alter_alter_eq. Qed.

Lemma lookup_update (f : DOM.Element -> DOM.Element) (doc : DOM.Document) h :
  DOM.update h f doc !! h = f <$> doc !! h.
Proof. apply list_lookup_alter_eq. Qed.

Lemma lookup_update_ne (f : DOM.Element -> DOM.Element) (doc : DOM.Document) h h' :
  h <> h' -> DOM.update h f doc !! h' = doc !! h'.
Proof. apply list_lookup_alter_ne. Qed.

(** The class list and the attribute map of an updated element. *)
Lemma classes_update st h (f : DOM.Element -> DOM.Element) :
  classes (with_document (DOM.update h f (document st)) st) h
  = match document st !! h with
    | Some e => DOM.classList (f e)
    | None => []
    end.
Proof.
  unfold classes. simpl. rewrite lookup_update. now destruct (document st !! h).
Qed.

(** An attribute other than [id] and [class] is read off the map. *)
Lemma attribute_other (e : DOM.Element) name :
  name <> "id" -> name <> "class" -> DOM.attribute e name = DOM.attributes e !! name.
Proof.
  intros Hid Hclass. unfold DOM.attribute.
  destruct (String.eqb_spec name "id") as [->|_]; [contradiction|].
  destruct (String.eqb_spec name "class") as [->|_]; [contradiction|reflexivity].
Qed.

Lemma getAttribute_other st h name :
  DOM.to_lower name = name -> name <> "id" -> name <> "class" ->
  getAttribute st h name = e ← document st !! h; DOM.attributes e !! name.
Proof.
  intros Hlow Hid Hclass. unfold getAttribute. rewrite Hlow.
  destruct (document st !! h) as [e|]; [|reflexivity]. now apply attribute_other.
Qed.

Lemma getAttribute_update st h (f : DOM.Element -> DOM.Element) name :
  DOM.to_lower name = name -> name <> "id" -> name <> "class" ->
  getAttribute (with_document (DOM.update h f (document st)) st) h name
  = e ← document st !! h; DOM.attributes (f e) !! name.
Proof.
  intros Hlow Hid Hclass. rewrite getAttribute_other by assumption.
  simpl. rewrite lookup_update. now destruct (document st !! h).
Qed.

(** The classes and attributes of the other elements. *)
Lemma classes_update_ne st h h' (f : DOM.Element -> DOM.Element) :
  h <> h' ->
  classes (with_document (DOM.update h f (document st)) st) h' = classes st h'.
Proof. intros Hne. unfold classes. simpl. now rewrite lookup_update_ne. Qed.

Lemma hasClass_update_ne st h h' (f : DOM.Element -> DOM.Element) c :
  h <> h' ->
  hasClass (with_document (DOM.update h f (document st)) st) h' c = hasClass st h' c.
Proof. intros Hne. unfold hasClass. now rewrite classes_update_ne. Qed.

Lemma getAttribute_update_ne st h h' (f : DOM.Element -> DOM.Element) name :
  h <> h' ->
  getAttribute (with_document (DOM.update h f (document st)) st) h' name
  = getAttribute st h' name.
Proof. intros Hne. unfold getAttribute. simpl. now rewrite lookup_update_ne. Qed.

(** [toggleClass] on an element that is found: the class is flipped, and
    the answer is whether it is there afterwards. *)
Lemma toggleClass_found st sel c h :
  DOM.querySelector (document st) sel = Normal (Some h) ->
  DOM.token_error c = None ->
  toggleClass sel c st
  = (Normal (negb (hasClass st h c)),
     with_document
       (DOM.update h
          (fun e => DOM.with_classList
                      ((if hasClass st h c then DOM.tokens_remove c
                        else DOM.tokens_add c) (DOM.classList e)) e)
          (document st)) st).
Proof.
  intros Hq Htok. destruct (querySelector_Some _ _ _ Hq) as (e & He & _).
  unfold toggleClass, Browser.querySelector, Browser.classList_toggle,
    Browser.classList_contains, Browser.check_token, Browser.set_classList,
    element, bind, lift, get_document, modify_document, ret.
  rewrite Hq, Htok. simpl. rewrite He. simpl.
  unfold hasClass, classes. rewrite He.
  destruct (DOM.tokens_contains c (DOM.classList e)) eqn:Hc; simpl;
    rewrite lookup_update, He; simpl.
  - now rewrite tokens_contains_remove.
  - now rewrite tokens_contains_add.
Qed.

Lemma toggleClass_not_found st sel c :
  DOM.querySelector (document st) sel = Normal None ->
  toggleClass sel c st = (Normal false, st).
Proof.
  intros Hq. unfold toggleClass, Browser.querySelector, bind, lift, get_document.
  now rewrite Hq.
Qed.

(** [openModal] and [closeModal] on an element that is found. *)
Lemma openModal_found st sel h :
  DOM.querySelector (document st) sel = Normal (Some h) ->
  openModal sel st
  = (Normal true, with_document (DOM.update h opened (document st)) st).
Proof.
  intros Hq.
  unfold openModal, Browser.querySelector, Browser.classList_add,
    Browser.setAttribute, Browser.check_token, Browser.set_classList,
    bind, lift, get_document, modify_document, ret.
  rewrite Hq. simpl. now rewrite update_twice.
Qed.

Lemma closeModal_found st sel h :
  DOM.querySelector (document st) sel = Normal (Some h) ->
  closeModal sel st
  = (Normal true, with_document (DOM.update h closed (document st)) st).
Proof.
  intros Hq.
  unfold closeModal, Browser.querySelector, Browser.classList_remove,
    Browser.setAttribute, Browser.check_token, Browser.set_classList,
    bind, lift, get_document, modify_document, ret.
  rewrite Hq. simpl. now rewrite update_twice.
Qed.

Lemma openModal_not_found st sel :
  DOM.querySelector (document st) sel = Normal None ->
  openModal sel st = (Normal false, st).
Proof.
  intros Hq. unfold openModal, Browser.querySelector, bind, lift, get_document.
  now rewrite Hq.
Qed.

Lemma closeModal_not_found st sel :
  DOM.querySelector (document st) sel = Normal None ->
  closeModal sel st = (Normal false, st).
Proof.
  intros Hq. unfold closeModal, Browser.querySelector, bind, lift, get_document.
  now rewrite Hq.
Qed.

End Helpers.

(** ** Toggling a class twice *)

Section Toggle.

Implicit Types (st : State) (el : nat) (c : string).

Lemma hasClass_toggled st el c :
  is_Some (document st !! el) ->
  hasClass
    (with_document
       (DOM.update el
          (fun e => DOM.with_classList
                      ((if hasClass st el c then DOM.tokens_remove c
                        else DOM.tokens_add c) (DOM.classList e)) e)
          (document st)) st) el c
  = negb (hasClass st el c).
Proof.
  intros [e He]. unfold hasClass at 1. rewrite classes_update, He. simpl.
  destruct (hasClass st el c).
  - apply tokens_contains_remove.
  - apply tokens_contains_add.
Qed.

(** C1 (as amended).  Two calls of [toggleClass] with the same selector and
    class name.  When the selector finds no element, both calls return false
    and the state is the one before.  When it finds an element, the first
    call returns true exactly when the class was absent, and flips the
    class.  The second call looks the selector up anew.  If it finds the
    same element, it returns whether the class was there at first, and the
    element has the classes it had.  If it finds none, it returns false and
    changes nothing.  If it finds another element, it flips the class of
    that one, and the first keeps its flipped class. *)
Theorem toggleClass_twice st selector className :
  let r1 := toggleClass selector className st in
  let r2 := toggleClass selector className (snd r1) in
  (DOM.querySelector (document st) selector = Normal None ->
   fst r1 = Normal false /\ fst r2 = Normal false /\ snd r2 = st)
  /\
  (forall el,
     DOM.querySelector (document st) selector = Normal (Some el) ->
     DOM.token_error className = None ->
     fst r1 = Normal (negb (hasClass st el className))
     /\ hasClass (snd r1) el className = negb (hasClass st el className)
     /\ (DOM.querySelector (document (snd r1)) selector = Normal (Some el) ->
         fst r2 = Normal (hasClass st el className)
         /\ forall c, hasClass (snd r2) el c = hasClass st el c)
     /\ (DOM.querySelector (document (snd r1)) selector = Normal None ->
         fst r2 = Normal false /\ snd r2 = snd r1)
     /\ (forall el',
           el' <> el ->
           DOM.querySelector (document (snd r1)) selector = Normal (Some el') ->
           fst r2 = Normal (negb (hasClass st el' className))
           /\ hasClass (snd r2) el className = negb (hasClass st el className)
           /\ hasClass (snd r2) el' className = negb (hasClass st el' className))).
Proof.
  cbv zeta. split.
  - intros Hq. rewrite (toggleClass_not_found _ _ _ Hq). simpl.
    rewrite (toggleClass_not_found _ _ _ Hq). auto.
  - intros el Hq Htok.
    destruct (querySelector_Some _ _ _ Hq) as (e & He & _).
    pose proof (hasClass_toggled st el className (ex_intro _ e He)) as Ht.
    rewrite (toggleClass_found _ _ _ _ Hq Htok). cbn [fst snd].
    set (s1 := with_document _ st) in *.
    split; [reflexivity|]. split; [exact Ht|]. split; [|split].
    + intros Hq1. rewrite (toggleClass_found s1 _ _ el Hq1 Htok). cbn [fst snd].
      rewrite Ht, negb_involutive. split; [reflexivity|].
      intros c. unfold hasClass at 1. rewrite classes_update.
      unfold s1 at 1. cbn [document with_document]. rewrite lookup_update, He.
      cbn [fmap option_fmap option_map DOM.classList DOM.with_classList].
      unfold hasClass, classes. rewrite He.
      destruct (DOM.tokens_contains className (DOM.classList e)) eqn:Hc;
        cbn [negb].
      * now apply tokens_add_remove.
      * now rewrite tokens_remove_add.
    + intros Hq1. now rewrite (toggleClass_not_found _ _ _ Hq1).
    + intros el' Hne Hq1.
      destruct (querySelector_Some _ _ _ Hq1) as (e' & He' & _).
      assert (Hs1 : hasClass s1 el' className = hasClass st el' className)
        by (apply hasClass_update_ne; congruence).
      pose proof (hasClass_toggled s1 el' className (ex_intro _ e' He')) as Ht'.
      rewrite (toggleClass_found s1 _ _ el' Hq1 Htok). cbn [fst snd].
      rewrite Hs1 in *. split; [reflexivity|]. split; [|exact Ht'].
      rewrite hasClass_update_ne by exact Hne. exact Ht.
Qed.

(** The flipped card at position 1 of [flipped_page], found by its id
    before and after the first call. *)
Lemma toggleClass_twice_witness :
  let st := load flipped_page in
  let r1 := toggleClass "#flipCard" "card-new" st in
  let r2 := toggleClass "#flipCard" "card-new" (snd r1) in
  hasClass st 1 "card-new" = false
  /\ fst r1 = Normal true /\ fst r2 = Normal false
  /\ forall c, hasClass (snd r2) 1 c = hasClass st 1 c.
Proof.
  cbv zeta.
  assert (Hq : DOM.querySelector (document (load flipped_page)) "#flipCard"
               = Normal (Some 1%nat)) by reflexivity.
  assert (Htok : DOM.token_error "card-new" = None) by reflexivity.
  assert (Hq1 : DOM.querySelector
                  (document (snd (toggleClass "#flipCard" "card-new"
                                    (load flipped_page)))) "#flipCard"
                = Normal (Some 1%nat)) by reflexivity.
  destruct (toggleClass_twice (load flipped_page) "#flipCard" "card-new")
    as [_ Hfound].
  destruct (Hfound 1%nat Hq Htok) as (H1 & _ & H2 & _).
  destruct (H2 Hq1) as (H3 & H4).
  exact (conj eq_refl (conj H1 (conj H3 H4))).
Defined.

(** C1 as stated fails: on a card that already has the class, the first
    call returns false and the second true. *)
Lemma toggleClass_present_first_false :
  let st := load flipped_page in
  let r1 := toggleClass "#flipCard" "flipped" st in
  let r2 := toggleClass "#flipCard" "flipped" (snd r1) in
  hasClass st 1 "flipped" = true
  /\ fst r1 = Normal false /\ fst r2 = Normal true.
Proof.
  cbv zeta. repeat (apply conj); vm_compute; reflexivity.
Qed.

End Toggle.

(** ** Opening and closing the modal *)

Section Modal.

Implicit Types (st : State) (el : nat).

Lemma opened_opened (e : DOM.Element) : opened (opened e) = opened e.
Proof.
  unfold opened, DOM.with_attributes, DOM.with_classList. simpl.
  now rewrite insert_insert_eq, tokens_add_idem.
Qed.

Lemma closed_closed (e : DOM.Element) : closed (closed e) = closed e.
Proof.
  unfold closed, DOM.with_attributes, DOM.with_classList. simpl.
  now rewrite insert_insert_eq, tokens_remove_idem.
Qed.

Lemma closed_hidden st el :
  is_Some (document st !! el) ->
  let st' := with_document (DOM.update el closed (document st)) st in
  getAttribute st' el "aria-hidden" = Some "true" /\ hasClass st' el "open" = false.
Proof.
  intros [e He]. cbv zeta. split.
  - rewrite getAttribute_update, He by easy. simpl. apply lookup_insert_eq.
  - unfold hasClass. rewrite classes_update, He. simpl.
    apply tokens_contains_remove.
Qed.

Lemma opened_shown st el :
  is_Some (document st !! el) ->
  let st' := with_document (DOM.update el opened (document st)) st in
  getAttribute st' el "aria-hidden" = Some "false" /\ hasClass st' el "open" = true.
Proof.
  intros [e He]. cbv zeta. split.
  - rewrite getAttribute_update, He by easy. simpl. apply lookup_insert_eq.
  - unfold hasClass. rewrite classes_update, He. simpl.
    apply tokens_contains_add.
Qed.

Lemma update_opened_twice (doc : DOM.Document) el :
  DOM.update el opened (DOM.update el opened doc) = DOM.update el opened doc.
Proof.
  rewrite update_twice. apply list_alter_ext; [|reflexivity].
  intros x _. apply opened_opened.
Qed.

Lemma update_closed_twice (doc : DOM.Document) el :
  DOM.update el closed (DOM.update el closed doc) = DOM.update el closed doc.
Proof.
  rewrite update_twice. apply list_alter_ext; [|reflexivity].
  intros x _. apply closed_closed.
Qed.

(** C2 (as amended).  [openModal] with a selector that finds an element
    returns true and sets its [aria-hidden] to ["false"].  [closeModal] then
    looks the selector up anew.  If it finds the same element, it returns
    true and the element's [aria-hidden] is ["true"], which is the value it
    had before the modal was opened exactly when that was ["true"]; the
    class [open] is off, and the classes are the ones before when [open]
    was not among them.  If it finds none, it returns false and changes
    nothing: [aria-hidden] stays ["false"].  If it finds another element, it
    closes that one. *)
Theorem openModal_closeModal st modalSelector el :
  DOM.querySelector (document st) modalSelector = Normal (Some el) ->
  let r1 := openModal modalSelector st in
  let r2 := closeModal modalSelector (snd r1) in
  fst r1 = Normal true
  /\ getAttribute (snd r1) el "aria-hidden" = Some "false"
  /\ (DOM.querySelector (document (snd r1)) modalSelector = Normal (Some el) ->
      fst r2 = Normal true
      /\ getAttribute (snd r2) el "aria-hidden" = Some "true"
      /\ (getAttribute (snd r2) el "aria-hidden" = getAttribute st el "aria-hidden"
          <-> getAttribute st el "aria-hidden" = Some "true")
      /\ hasClass (snd r2) el "open" = false
      /\ (hasClass st el "open" = false -> classes (snd r2) el = classes st el))
  /\ (DOM.querySelector (document (snd r1)) modalSelector = Normal None ->
      fst r2 = Normal false /\ snd r2 = snd r1)
  /\ (forall el',
        el' <> el ->
        DOM.querySelector (document (snd r1)) modalSelector = Normal (Some el') ->
        fst r2 = Normal true
        /\ getAttribute (snd r2) el "aria-hidden" = Some "false"
        /\ getAttribute (snd r2) el' "aria-hidden" = Some "true").
Proof.
  intros Hq. cbv zeta.
  destruct (querySelector_Some _ _ _ Hq) as (e & He & _).
  rewrite (openModal_found _ _ _ Hq). cbn [fst snd].
  destruct (opened_shown st el (ex_intro _ e He)) as [Ha Hc].
  set (s1 := with_document _ st) in *.
  split; [reflexivity|]. split; [exact Ha|]. split; [|split].
  - intros Hq1. rewrite (closeModal_found s1 _ el Hq1). cbn [fst snd].
    assert (Hs1 : is_Some (document s1 !! el)).
    { unfold s1. cbn [document with_document]. rewrite lookup_update, He.
      now eexists. }
    destruct (closed_hidden s1 el Hs1) as [Ha2 Hc2].
    split; [reflexivity|]. split; [exact Ha2|]. split; [|split; [exact Hc2|]].
    + rewrite Ha2. split; intros H; now rewrite H.
    + intros Hopen. rewrite classes_update. unfold s1.
      cbn [document with_document]. rewrite lookup_update, He.
      unfold classes. rewrite He. simpl. apply tokens_remove_add.
      unfold hasClass, classes in Hopen. now rewrite He in Hopen.
  - intros Hq1. now rewrite (closeModal_not_found s1 _ Hq1).
  - intros el' Hne Hq1. rewrite (closeModal_found s1 _ el' Hq1). cbn [fst snd].
    destruct (querySelector_Some _ _ _ Hq1) as (e' & He' & _).
    split; [reflexivity|]. split.
    + rewrite getAttribute_update_ne by exact Hne. exact Ha.
    + exact (proj1 (closed_hidden s1 el' (ex_intro _ e' He'))).
Qed.

(** The modal of [demo_page], found by its id before and after it is
    opened. *)
Lemma openModal_closeModal_witness :
  let st := load demo_page in
  let r1 := openModal "#demoModal" st in
  let r2 := closeModal "#demoModal" (snd r1) in
  getAttribute st 18 "aria-hidden" = Some "true"
  /\ fst r1 = Normal true
  /\ getAttribute (snd r1) 18 "aria-hidden" = Some "false"
  /\ fst r2 = Normal true
  /\ getAttribute (snd r2) 18 "aria-hidden" = Some "true".
Proof.
  cbv zeta.
  assert (Hq : DOM.querySelector (document (load demo_page)) "#demoModal"
               = Normal (Some 18%nat)) by reflexivity.
  assert (Hq1 : DOM.querySelector
                  (document (snd (openModal "#demoModal" (load demo_page))))
                  "#demoModal" = Normal (Some 18%nat)) by reflexivity.
  destruct (openModal_closeModal (load demo_page) "#demoModal" 18%nat Hq)
    as (H1 & H2 & H3 & _).
  destruct (H3 Hq1) as (H4 & H5 & _).
  exact (conj eq_refl (conj H1 (conj H2 (conj H4 H5)))).
Defined.

(** C2 as stated fails: the selector [.modal:not(.open)] finds the closed
    modal of [demo_page], and finds nothing once it is open; [closeModal]
    returns false and [aria-hidden] stays ["false"]. *)
Lemma closeModal_misses_opened_modal :
  let st := load demo_page in
  let r1 := openModal ".modal:not(.open)" st in
  let r2 := closeModal ".modal:not(.open)" (snd r1) in
  DOM.querySelector (document st) ".modal:not(.open)" = Normal (Some 18%nat)
  /\ getAttribute st 18 "aria-hidden" = Some "true"
  /\ fst r1 = Normal true
  /\ DOM.querySelector (document (snd r1)) ".modal:not(.open)" = Normal None
  /\ fst r2 = Normal false
  /\ getAttribute (snd r2) 18 "aria-hidden" = Some "false".
Proof.
  cbv zeta. repeat (apply conj); vm_compute; reflexivity.
Qed.

(** C10 (as amended).  On an element the selector finds, [openModal]
    returns true and leaves [aria-hidden] at ["false"] and the class [open]
    on, whether or not the modal was open; [closeModal] returns true and
    leaves [aria-hidden] at ["true"] and the class [open] off, whether or not
    the modal was closed.  A second call looks the selector up anew.  If it
    finds the same element, it returns true and changes nothing.  If it
    finds none, it returns false and changes nothing.  If it finds another
    element, it returns true and opens, or closes, that one; the first is
    as the first call left it. *)
Theorem modal_idempotent st modalSelector el :
  DOM.querySelector (document st) modalSelector = Normal (Some el) ->
  let o1 := openModal modalSelector st in
  let o2 := openModal modalSelector (snd o1) in
  let c1 := closeModal modalSelector st in
  let c2 := closeModal modalSelector (snd c1) in
  (fst o1 = Normal true
   /\ getAttribute (snd o1) el "aria-hidden" = Some "false"
   /\ hasClass (snd o1) el "open" = true
   /\ (DOM.querySelector (document (snd o1)) modalSelector = Normal (Some el) ->
       fst o2 = Normal true /\ snd o2 = snd o1)
   /\ (DOM.querySelector (document (snd o1)) modalSelector = Normal None ->
       fst o2 = Normal false /\ snd o2 = snd o1)
   /\ (forall el',
         el' <> el ->
         DOM.querySelector (document (snd o1)) modalSelector = Normal (Some el') ->
         fst o2 = Normal true
         /\ document (snd o2) !! el = document (snd o1) !! el
         /\ getAttribute (snd o2) el' "aria-hidden" = Some "false"
         /\ hasClass (snd o2) el' "open" = true))
  /\
  (fst c1 = Normal true
   /\ getAttribute (snd c1) el "aria-hidden" = Some "true"
   /\ hasClass (snd c1) el "open" = false
   /\ (DOM.querySelector (document (snd c1)) modalSelector = Normal (Some el) ->
       fst c2 = Normal true /\ snd c2 = snd c1)
   /\ (DOM.querySelector (document (snd c1)) modalSelector = Normal None ->
       fst c2 = Normal false /\ snd c2 = snd c1)
   /\ (forall el',
         el' <> el ->
         DOM.querySelector (document (snd c1)) modalSelector = Normal (Some el') ->
         fst c2 = Normal true
         /\ document (snd c2) !! el = document (snd c1) !! el
         /\ getAttribute (snd c2) el' "aria-hidden" = Some "true"
         /\ hasClass (snd c2) el' "open" = false)).
Proof.
  intros Hq. cbv zeta.
  destruct (querySelector_Some _ _ _ Hq) as (e & He & _).
  rewrite (openModal_found _ _ _ Hq), (closeModal_found _ _ _ Hq). cbn [fst snd].
  split.
  - destruct (opened_shown st el (ex_intro _ e He)) as [Ha Hc].
    set (s1 := with_document _ st) in *.
    split; [reflexivity|]. split; [exact Ha|]. split; [exact Hc|].
    split; [|split].
    + intros Hq1. rewrite (openModal_found s1 _ el Hq1). cbn [fst snd].
      split; [reflexivity|]. unfold s1. cbn [document with_document].
      rewrite with_document_twice. now rewrite update_opened_twice.
    + intros Hq1. now rewrite (openModal_not_found s1 _ Hq1).
    + intros el' Hne Hq1. rewrite (openModal_found s1 _ el' Hq1). cbn [fst snd].
      destruct (querySelector_Some _ _ _ Hq1) as (e' & He' & _).
      split; [reflexivity|]. split.
      * cbn [document with_document]. now apply lookup_update_ne.
      * exact (opened_shown s1 el' (ex_intro _ e' He')).
  - destruct (closed_hidden st el (ex_intro _ e He)) as [Ha Hc].
    set (s1 := with_document _ st) in *.
    split; [reflexivity|]. split; [exact Ha|]. split; [exact Hc|].
    split; [|split].
    + intros Hq1. rewrite (closeModal_found s1 _ el Hq1). cbn [fst snd].
      split; [reflexivity|]. unfold s1. cbn [document with_document].
      rewrite with_document_twice. now rewrite update_closed_twice.
    + intros Hq1. now rewrite (closeModal_not_found s1 _ Hq1).
    + intros el' Hne Hq1. rewrite (closeModal_found s1 _ el' Hq1). cbn [fst snd].
      destruct (querySelector_Some _ _ _ Hq1) as (e' & He' & _).
      split; [reflexivity|]. split.
      * cbn [document with_document]. now apply lookup_update_ne.
      * exact (closed_hidden s1 el' (ex_intro _ e' He')).
Qed.

(** The modal of [demo_page], found by its id before and after each
    call. *)
Lemma modal_idempotent_witness :
  let st := load demo_page in
  let o1 := openModal "#demoModal" st in
  let o2 := openModal "#demoModal" (snd o1) in
  let c1 := closeModal "#demoModal" (snd o1) in
  let c2 := closeModal "#demoModal" (snd c1) in
  (fst o1 = Normal true /\ fst o2 = Normal true /\ snd o2 = snd o1)
  /\ (fst c1 = Normal true /\ fst c2 = Normal true /\ snd c2 = snd c1).
Proof.
  cbv zeta.
  assert (Hq : DOM.querySelector (document (load demo_page)) "#demoModal"
               = Normal (Some 18%nat)) by reflexivity.
  assert (Hq1 : DOM.querySelector
                  (document (snd (openModal "#demoModal" (load demo_page))))
                  "#demoModal" = Normal (Some 18%nat)) by reflexivity.
  assert (Hq2 : DOM.querySelector
                  (document
                     (snd (closeModal "#demoModal"
                             (snd (openModal "#demoModal" (load demo_page))))))
                  "#demoModal" = Normal (Some 18%nat)) by reflexivity.
  destruct (modal_idempotent (load demo_page) "#demoModal" 18%nat Hq)
    as [(H1 & _ & _ & H2 & _) _].
  destruct (H2 Hq1) as [H3 H4].
  destruct (modal_idempotent _ "#demoModal" 18%nat Hq1)
    as [_ (H5 & _ & _ & H6 & _)].
  destruct (H6 Hq2) as [H7 H8].
  exact (conj (conj H1 (conj H3 H4)) (conj H5 (conj H7 H8))).
Defined.

(** C10 as stated fails: the selector [.modal:not(.open)] finds the modal
    of [demo_page] for the first [openModal] and nothing for the second,
    which returns false; and [.modal.open] finds the open modal for the
    first [closeModal] and nothing for the second. *)
Lemma openModal_again_false :
  let st := load demo_page in
  let o1 := openModal ".modal:not(.open)" st in
  let o2 := openModal ".modal:not(.open)" (snd o1) in
  let c1 := closeModal ".modal.open" (snd o1) in
  let c2 := closeModal ".modal.open" (snd c1) in
  fst o1 = Normal true /\ fst o2 = Normal false
  /\ fst c1 = Normal true /\ fst c2 = Normal false.
Proof.
  cbv zeta. repeat (apply conj); vm_compute; reflexivity.
Qed.

(** C6.  When the selector finds no element, each helper returns its
    failure value normally, and the state is the one it was called in. *)
Theorem helpers_not_found st selector className animationClass duration :
  DOM.querySelector (document st) selector = Normal None ->
  toggleClass selector className st = (Normal false, st)
  /\ animateOnce selector animationClass duration st = (Normal None, st)
  /\ openModal selector st = (Normal false, st)
  /\ closeModal selector st = (Normal false, st).
Proof.
  intros Hq. split; [now apply toggleClass_not_found|].
  split; [|split; [now apply openModal_not_found|now apply closeModal_not_found]].
  unfold animateOnce, Browser.querySelector, bind, lift, get_document.
  now rewrite Hq.
Qed.

(** No element of [demo_page] has the id [missing]. *)
Lemma helpers_not_found_witness :
  let st := load demo_page in
  toggleClass "#missing" "flipped" st = (Normal false, st)
  /\ animateOnce "#missing" "anim-pop" (Some 700) st = (Normal None, st)
  /\ openModal "#missing" st = (Normal false, st)
  /\ closeModal "#missing" st = (Normal false, st).
Proof.
  cbv zeta.
  apply (helpers_not_found (load demo_page) "#missing").
  reflexivity.
Defined.

End Modal.

(** ** Animating once *)

Section Animate.

Implicit Types (st s : State) (el : nat) (c : string).



(** [animateOnce] on an element that is found. *)
Lemma animateOnce_found st sel c duration el :
  DOM.querySelector (document st) sel = Normal (Some el) ->
  DOM.token_error c = None ->
  animateOnce sel c duration st
  = (Normal (Some (nextTimerId st)),
     with_timers
       (timers st
        ++ [mkTimer (nextTimerId st)
                    (now st + Browser.timer_delay (default 700 duration))
                    (RemoveClass el c)])
       (nextTimerId st + 1)
       (with_document
          (DOM.update el
             (fun e => DOM.with_classList (DOM.tokens_add c (DOM.classList e)) e)
             (DOM.flush_layout
                (DOM.update el
                   (fun e => DOM.with_classList
                               (DOM.tokens_remove c (DOM.classList e)) e)
                   (document st))))
          st)).
Proof.
  intros Hq Htok.
  unfold animateOnce, Browser.querySelector, Browser.classList_remove,
    Browser.classList_add, Browser.offsetWidth, Browser.setTimeout,
    Browser.check_token, Browser.set_classList,
    bind, lift, get_document, modify_document, ret.
  rewrite Hq, Htok. reflexivity.
Qed.




End Animate.

(** ** Sums and counters *)

Section Arithmetic.

Implicit Types (st : State) (a b : JS.value).

Lemma number_add_NaN_l (y : JS.number) : JS.number_add JS.NaN y = JS.NaN.
Proof. reflexivity. Qed.

Lemma number_add_NaN_r (x : JS.number) : JS.number_add x JS.NaN = JS.NaN.
Proof. now destruct x. Qed.

Lemma Number_not_Symbol a :
  (forall d, a <> JS.VSymbol d) -> exists x, JS.Number a = Normal x.
Proof.
  intros Hns. destruct a; simpl; eauto. now destruct (Hns description).
Qed.

(** C7 (as amended).  [add(a, b)] never changes the state; it is
    [Number(a) + Number(b)]; it throws only for a Symbol; its result is NaN
    as soon as one of the inputs coerces to NaN, which [undefined] does and
    a string does when, white space trimmed, it is neither empty nor a
    numeric literal; the empty and the blank string coerce to 0. *)
Theorem add_spec a b st :
  snd (add a b st) = st
  /\ (forall x y, JS.Number a = Normal x -> JS.Number b = Normal y ->
        fst (add a b st) = Normal (JS.number_add x y)
        /\ (x = JS.NaN \/ y = JS.NaN -> fst (add a b st) = Normal JS.NaN))
  /\ ((forall d, a <> JS.VSymbol d) -> (forall d, b <> JS.VSymbol d) ->
      exists z, fst (add a b st) = Normal z)
  /\ JS.Number JS.VUndefined = Normal JS.NaN
  /\ (forall s, JS.trim s <> "" -> JS.StrNumericLiteral (JS.trim s) = None ->
        JS.Number (JS.VString s) = Normal JS.NaN)
  /\ (forall s, JS.trim s = "" -> JS.Number (JS.VString s) = Normal JS.pos_zero).
Proof.
  split; [|split; [|split; [|split; [|split]]]].
  - unfold add, bind, lift, ret.
    destruct (JS.Number a); [|reflexivity]. now destruct (JS.Number b).
  - intros x y Ha Hb. unfold add, bind, lift, ret. rewrite Ha, Hb. simpl.
    split; [reflexivity|].
    intros [-> | ->]; [now rewrite number_add_NaN_l|now rewrite number_add_NaN_r].
  - intros Ha Hb.
    destruct (Number_not_Symbol a Ha) as [x Hx].
    destruct (Number_not_Symbol b Hb) as [y Hy].
    exists (JS.number_add x y). unfold add, bind, lift, ret. now rewrite Hx, Hy.
  - reflexivity.
  - intros s Hne Hlit. simpl. unfold JS.StringToNumber. rewrite Hlit.
    destruct (String.eqb_spec (JS.trim s) ""); [contradiction|reflexivity].
  - intros s Hs. simpl. unfold JS.StringToNumber. now rewrite Hs.
Qed.

(** Two fields of a form, one with text that is no number. *)
Lemma add_spec_witness :
  let st := load demo_page in
  fst (add (JS.VString "12px") (JS.VString "3") st) = Normal JS.NaN
  /\ snd (add (JS.VString "12px") (JS.VString "3") st) = st.
Proof.
  cbv zeta.
  destruct (add_spec (JS.VString "12px") (JS.VString "3") (load demo_page))
    as (Hst & Hval & _).
  destruct (Hval JS.NaN (JS.number_of_Z 3) eq_refl eq_refl) as [_ Hnan].
  exact (conj (Hnan (or_introl eq_refl)) Hst).
Defined.

(** C7 as stated fails: the empty string is not numeric, and the sum of two
    empty fields is 0. *)
Lemma add_empty_strings_is_zero :
  fst (add (JS.VString "") (JS.VString "") (load demo_page))
  = Normal (S754_zero false).
Proof. reflexivity. Qed.

(** Integers of at most 53 bits are Numbers, and so is [2^53]. *)
Lemma round53_exact (z : Z) : 0 <= z <= counter_limit -> JS.round53 z = z.
Proof.
  unfold counter_limit. intros [Hlo Hhi].
  destruct (Z.eq_dec z (2 ^ 53)) as [->|Hne]; [reflexivity|].
  unfold JS.round53. rewrite Z.abs_eq by assumption.
  destruct (Z.eq_dec z 0) as [->|Hz]; [reflexivity|].
  assert (Z.log2 z < 53) by (apply Z.log2_lt_pow2; lia).
  unfold JS.prec. destruct (Z.leb_spec (Z.log2 z + 1) 53); [reflexivity|lia].
Qed.

(** One more than [2^53] is no Number: the sum is rounded back to [2^53]. *)
Lemma integer_add_limit : JS.integer_add counter_limit 1 = counter_limit.
Proof. reflexivity. Qed.

Lemma integer_add_succ (z : Z) :
  0 <= z < counter_limit -> JS.integer_add z 1 = z + 1.
Proof. intros H. unfold JS.integer_add. apply round53_exact. lia. Qed.

(** The counter after one call, wherever it stood. *)
Lemma incrementGlobal_step (z : Z) :
  0 <= z <= counter_limit ->
  JS.integer_add z 1 = Z.min (z + 1) counter_limit.
Proof.
  intros H. destruct (Z.eq_dec z counter_limit) as [->|Hne].
  - reflexivity.
  - rewrite integer_add_succ by lia. lia.
Qed.

Lemma repeat_call_incrementGlobal_counter n st :
  0 <= globalCounter st <= counter_limit ->
  globalCounter (snd (repeat_call incrementGlobal n st))
  = Z.min (globalCounter st + Z.of_nat n) counter_limit.
Proof.
  revert st. induction n as [|n IH]; intros st Hst.
  - simpl. lia.
  - cbn [repeat_call]. unfold bind at 1. unfold incrementGlobal at 1.
    cbn [globalCounter with_globalCounter].
    set (st1 := with_globalCounter (JS.integer_add (globalCounter st) 1) st).
    assert (H1 : globalCounter st1 = Z.min (globalCounter st + 1) counter_limit)
      by now apply incrementGlobal_step.
    specialize (IH st1). unfold bind.
    destruct (repeat_call incrementGlobal n st1) as [[xs|e] st2];
      simpl in *; rewrite IH by lia; lia.
Qed.

Lemma repeat_call_incrementGlobal n st :
  0 <= globalCounter st -> globalCounter st + Z.of_nat n <= counter_limit ->
  repeat_call incrementGlobal n st
  = (Normal (map (fun i => globalCounter st + Z.of_nat i) (seq 1 n)),
     with_globalCounter (globalCounter st + Z.of_nat n) st).
Proof.
  revert st. induction n as [|n IH]; intros st Hlo Hhi.
  - simpl. unfold ret. rewrite Z.add_0_r. now destruct st.
  - cbn [repeat_call]. unfold bind at 1. unfold incrementGlobal at 1.
    cbn [globalCounter with_globalCounter].
    rewrite integer_add_succ by lia.
    set (st1 := with_globalCounter (globalCounter st + 1) st).
    unfold bind. rewrite (IH st1) by (simpl; lia). unfold ret. simpl.
    f_equal.
    + f_equal. f_equal. rewrite <- (seq_shift n 1), map_map.
      apply map_ext. intros i. simpl. lia.
    + unfold with_globalCounter. simpl. f_equal. lia.
Qed.

(** C3 (as amended).  From the counter at 0, [N] calls of [incrementGlobal]
    with [N <= 2^53] return 1, 2, ..., [N], and the counter is [N] after
    them; however many the calls, the counter is then the smaller of [N] and
    [2^53]. *)
Theorem incrementGlobal_sequence doc n :
  let r := repeat_call incrementGlobal n (load doc) in
  globalCounter (load doc) = 0
  /\ globalCounter (snd r) = Z.min (Z.of_nat n) counter_limit
  /\ (Z.of_nat n <= counter_limit ->
      fst r = Normal (map Z.of_nat (seq 1 n))
      /\ globalCounter (snd r) = Z.of_nat n).
Proof.
  cbv zeta.
  assert (H0 : globalCounter (load doc) = 0) by reflexivity.
  split; [exact H0|]. split.
  - rewrite repeat_call_incrementGlobal_counter, H0;
      [reflexivity|unfold counter_limit; lia].
  - intros Hn. rewrite repeat_call_incrementGlobal; rewrite H0; [|lia..].
    split; reflexivity.
Qed.

(** Three clicks' worth of calls. *)
Lemma incrementGlobal_sequence_witness :
  fst (repeat_call incrementGlobal 3 (load demo_page)) = Normal [1; 2; 3]
  /\ globalCounter (snd (repeat_call incrementGlobal 3 (load demo_page))) = 3.
Proof.
  destruct (incrementGlobal_sequence demo_page 3) as (_ & _ & H).
  exact (H ltac:(vm_compute; discriminate)).
Defined.

(** C3 as stated fails: after [2^53 + 1] calls the counter is [2^53]. *)
Lemma incrementGlobal_saturates :
  globalCounter
    (snd (repeat_call incrementGlobal (Z.to_nat 9007199254740993) (load [])))
  = 9007199254740992.
Proof.
  assert (H0 : globalCounter (load []) = 0) by reflexivity.
  rewrite repeat_call_incrementGlobal_counter, H0;
    [|unfold counter_limit; lia].
  rewrite Z2Nat.id by lia. reflexivity.
Qed.

(** C8.  [incrementLocal] returns 1 in every state and leaves the state as
    it is, however often it is called; and the listener that calls it
    (lines 129-133) leaves the counter and the text of every element but
    [localOut] as they are. *)
Theorem incrementLocal_spec st :
  incrementLocal st = (Normal 1, st)
  /\ (forall n, repeat_call incrementLocal n st = (Normal (repeat 1 n), st))
  /\ (forall localOut this e,
        let st' := snd (run_handler (OnIncLocalClick localOut) this e st) in
        globalCounter st' = globalCounter st
        /\ forall g, localOut <> Some g -> textOf st' g = textOf st g).
Proof.
  split; [reflexivity|]. split.
  - intros n. induction n as [|n IH]; [reflexivity|].
    cbn [repeat_call]. unfold bind at 1. change (incrementLocal st) with (Normal 1, st).
    cbv beta iota. unfold bind. rewrite IH. reflexivity.
  - intros localOut this e. cbv zeta.
    unfold run_handler, bind. change (incrementLocal st) with (Normal 1, st).
    cbv beta iota. destruct localOut as [out|]; simpl; [|auto].
    split; [reflexivity|]. intros g Hg. unfold textOf. simpl.
    unfold DOM.set_textContent. rewrite lookup_update_ne by congruence.
    rewrite list_lookup_fmap. destruct (document st !! g) as [x|]; simpl; [|reflexivity].
    now destruct (bool_decide (DOM.parentNode x = Some out)).
Qed.

End Arithmetic.

(** ** What the listeners leave alone *)

Section Frames.

Variable R : State -> State -> Prop.
Hypothesis HR : StepRelation R.

Lemma keeps_ret {A : Type} (a : A) : keeps R (ret a).
Proof. intros st. apply (rel_refl R HR). Qed.

Lemma keeps_throw {A : Type} (e : exn) : keeps R (throw (A := A) e).
Proof. intros st. apply (rel_refl R HR). Qed.

Lemma keeps_lift {A : Type} (c : completion A) : keeps R (lift c).
Proof. intros st. apply (rel_refl R HR). Qed.

Lemma keeps_bind {A B : Type} (m : M A) (k : A -> M B) :
  keeps R m -> (forall a, keeps R (k a)) -> keeps R (bind m k).
Proof.
  intros Hm Hk st. unfold bind. specialize (Hm st).
  destruct (m st) as [[a|e] st']; simpl in *; [|assumption].
  eapply (rel_trans R HR); [exact Hm|apply Hk].
Qed.

Lemma keeps_get_document : keeps R get_document.
Proof. intros st. apply (rel_refl R HR). Qed.

Lemma keeps_modify_document f : keeps R (modify_document f).
Proof. intros st. apply (rel_document R HR). Qed.

Lemma keeps_setTimeout cb d : keeps R (Browser.setTimeout cb d).
Proof. intros st. apply (rel_timers R HR). Qed.

Lemma keeps_clearTimeout i : keeps R (Browser.clearTimeout i).
Proof. intros st. apply (rel_timers R HR). Qed.

Lemma keeps_addEventListener t ty h :
  (ty = "keydown" -> h = OnKeydown) -> keeps R (Browser.addEventListener t ty h).
Proof. intros Hw st. now apply (rel_listen R HR). Qed.

(** Computations are taken apart bind by bind, down to the changes of the
    state above. *)
Ltac keeps_step :=
  first
    [ apply keeps_ret | apply keeps_throw | apply keeps_lift
    | apply keeps_get_document | apply keeps_modify_document
    | apply keeps_setTimeout | apply keeps_clearTimeout
    | apply keeps_addEventListener; discriminate
    | apply keeps_bind; [|intros ?]
    | match goal with
      | |- keeps _ (match ?x with _ => _ end) => destruct x
      end ].

Ltac keeps_all := repeat keeps_step.

Lemma keeps_querySelector sel : keeps R (Browser.querySelector sel).
Proof. unfold Browser.querySelector. keeps_all. Qed.

Lemma keeps_getElementById i : keeps R (Browser.getElementById i).
Proof. unfold Browser.getElementById. keeps_all. Qed.

Lemma keeps_deref r : keeps R (deref r).
Proof. unfold deref. keeps_all. Qed.

Lemma keeps_element h : keeps R (element h).
Proof. unfold element. keeps_all. Qed.

Lemma keeps_classList_add el c : keeps R (Browser.classList_add el c).
Proof.
  unfold Browser.classList_add, Browser.check_token, Browser.set_classList.
  keeps_all.
Qed.

Lemma keeps_classList_remove el c : keeps R (Browser.classList_remove el c).
Proof.
  unfold Browser.classList_remove, Browser.check_token, Browser.set_classList.
  keeps_all.
Qed.

Lemma keeps_setAttribute el name v : keeps R (Browser.setAttribute el name v).
Proof. unfold Browser.setAttribute. keeps_all. Qed.

Lemma keeps_set_textContent el t : keeps R (Browser.set_textContent el t).
Proof. unfold Browser.set_textContent. keeps_all. Qed.

Lemma keeps_get_value el : keeps R (Browser.get_value el).
Proof. unfold Browser.get_value. apply keeps_bind; [apply keeps_element|]. keeps_all. Qed.

Lemma keeps_add a b : keeps R (add a b).
Proof. unfold add. keeps_all. Qed.

Lemma keeps_greet name : keeps R (greet name).
Proof. unfold greet. keeps_all. Qed.

Lemma keeps_incrementLocal : keeps R incrementLocal.
Proof. unfold incrementLocal. keeps_all. Qed.

Lemma keeps_toggleClass sel c : keeps R (toggleClass sel c).
Proof.
  unfold toggleClass, Browser.classList_toggle, Browser.classList_contains,
    Browser.check_token, Browser.set_classList.
  apply keeps_bind; [apply keeps_querySelector|]. intros [el|]; [|keeps_all].
  apply keeps_bind.
  - apply keeps_bind; [keeps_all|]. intros _.
    apply keeps_bind; [apply keeps_element|]. intros e.
    destruct (DOM.tokens_contains c (DOM.classList e)); keeps_all.
  - intros _. apply keeps_bind; [apply keeps_element|]. keeps_all.
Qed.

Lemma keeps_animateOnce sel c d : keeps R (animateOnce sel c d).
Proof.
  unfold animateOnce, Browser.offsetWidth.
  apply keeps_bind; [apply keeps_querySelector|]. intros [el|]; [|keeps_all].
  apply keeps_bind; [apply keeps_classList_remove|]. intros _.
  apply keeps_bind; [keeps_all|]. intros _.
  apply keeps_bind; [apply keeps_classList_add|]. intros _. keeps_all.
Qed.

Lemma keeps_openModal sel : keeps R (openModal sel).
Proof.
  unfold openModal.
  apply keeps_bind; [apply keeps_querySelector|]. intros [el|]; [|keeps_all].
  apply keeps_bind; [apply keeps_classList_add|]. intros _.
  apply keeps_bind; [apply keeps_setAttribute|]. keeps_all.
Qed.

Lemma keeps_closeModal sel : keeps R (closeModal sel).
Proof.
  unfold closeModal.
  apply keeps_bind; [apply keeps_querySelector|]. intros [el|]; [|keeps_all].
  apply keeps_bind; [apply keeps_classList_remove|]. intros _.
  apply keeps_bind; [apply keeps_setAttribute|]. keeps_all.
Qed.

Lemma keeps_run_callback cb : keeps R (run_callback cb).
Proof. destruct cb. apply keeps_classList_remove. Qed.

Lemma keeps_listen r ty h :
  (ty = "keydown" -> h = OnKeydown) -> keeps R (listen r ty h).
Proof.
  intros Hw. unfold listen. apply keeps_bind; [apply keeps_deref|].
  intros el. now apply keeps_addEventListener.
Qed.

Lemma keeps_wire : keeps R wire.
Proof.
  unfold wire.
  repeat (apply keeps_bind;
          [first [apply keeps_getElementById|apply keeps_listen; discriminate]
          |intros ?]).
  now apply keeps_addEventListener.
Qed.

(** Every listener but the one of lines 135-138, which calls
    [incrementGlobal]. *)
Lemma keeps_run_handler h this e :
  Page.is_incGlobal (this, h) = false -> keeps R (run_handler h this e).
Proof.
  destruct h; simpl; intros Hh; try discriminate.
  - apply keeps_wire.
  - repeat (apply keeps_bind;
            [first [apply keeps_deref|apply keeps_get_value|apply keeps_add]
            |intros ?]).
    apply keeps_set_textContent.
  - apply keeps_bind; [apply keeps_incrementLocal|]. intros ?.
    apply keeps_bind; [apply keeps_deref|]. intros ?. apply keeps_set_textContent.
  - apply keeps_bind; [apply keeps_animateOnce|]. keeps_all.
  - apply keeps_bind; [apply keeps_animateOnce|]. keeps_all.
  - apply keeps_bind; [apply keeps_toggleClass|]. intros ?.
    apply keeps_bind; [apply keeps_deref|]. intros ?. apply keeps_setAttribute.
  - apply keeps_bind; [apply keeps_toggleClass|]. intros ?.
    apply keeps_bind; [apply keeps_deref|]. intros ?. apply keeps_setAttribute.
  - apply keeps_bind; [apply keeps_deref|]. intros ?.
    apply keeps_bind; [apply keeps_classList_add|]. intros ?. apply keeps_setAttribute.
  - apply keeps_bind; [apply keeps_deref|]. intros ?.
    apply keeps_bind; [apply keeps_classList_remove|]. intros ?. apply keeps_setAttribute.
  - apply keeps_bind; [apply keeps_openModal|]. keeps_all.
  - apply keeps_bind; [apply keeps_closeModal|]. keeps_all.
  - destruct (bool_decide (eventTarget e = this)); [|keeps_all].
    apply keeps_bind; [apply keeps_closeModal|]. keeps_all.
  - destruct (bool_decide (key e = Some "Escape")); [|keeps_all].
    apply keeps_bind; [apply keeps_closeModal|]. keeps_all.
Qed.

(** The listener of lines 135-138 keeps what [incrementGlobal] keeps. *)
Lemma keeps_incGlobal_handler globalOut this e :
  keeps R incrementGlobal ->
  keeps R (run_handler (OnIncGlobalClick globalOut) this e).
Proof.
  intros Hinc. simpl. apply keeps_bind; [exact Hinc|]. intros ?.
  apply keeps_bind; [apply keeps_deref|]. intros ?. apply keeps_set_textContent.
Qed.

Lemma keeps_fold_invoke e (ls : list (EventTarget * Handler)) st :
  Forall (fun l => keeps R (run_handler (snd l) (fst l) e)) ls ->
  R st (fold_left (Page.invoke e) ls st).
Proof.
  intros H. revert st. induction H as [|l ls Hl _ IH]; intros st; simpl.
  - apply (rel_refl R HR).
  - eapply (rel_trans R HR); [apply Hl|apply IH].
Qed.

(** A step keeps the relation when the listeners it invokes do. *)
Lemma keeps_step_of st i :
  (forall e, i = Page.Dispatch e ->
     Forall (fun l => keeps R (run_handler (snd l) (fst l) e)) (Page.invoked e st)) ->
  R st (Page.step st i).
Proof.
  intros Hd. destruct i as [e|id|dt| |h v]; simpl.
  - unfold Page.dispatch. apply keeps_fold_invoke. now apply Hd.
  - unfold Page.fire. destruct (Page.find_timer id (timers st)) as [t|]; [|apply (rel_refl R HR)].
    destruct (due t <=? now st); [|apply (rel_refl R HR)].
    eapply (rel_trans R HR); [apply keeps_clearTimeout|apply keeps_run_callback].
  - apply (rel_now R HR).
  - apply (rel_document R HR).
  - apply (rel_document R HR).
Qed.

(** Every step keeps a relation that [incrementGlobal] keeps, and so does
    every sequence of steps. *)
Lemma keeps_every_step st i :
  keeps R incrementGlobal -> R st (Page.step st i).
Proof.
  intros Hinc. apply keeps_step_of.
  intros e _. apply Forall_forall. intros [this h] _.
  destruct (Page.is_incGlobal (this, h)) eqn:Hh.
  - destruct h; try discriminate. now apply keeps_incGlobal_handler.
  - now apply keeps_run_handler.
Qed.

Lemma keeps_run st (inputs : list Page.Input) :
  keeps R incrementGlobal -> R st (Page.run st inputs).
Proof.
  intros Hinc. revert st. induction inputs as [|i inputs IH]; intros st.
  - apply (rel_refl R HR).
  - simpl. eapply (rel_trans R HR); [now apply keeps_every_step|apply IH].
Qed.

End Frames.

(** ** The counter over the life of the page *)

Section Counter.

Implicit Types (st : State) (i : Page.Input).

Lemma counter_grows_relation : StepRelation counter_grows.
Proof.
  split; unfold counter_grows, counter_in_range; simpl; intros; lia.
Qed.

Lemma counter_kept_relation : StepRelation counter_kept.
Proof. split; unfold counter_kept; simpl; intros; congruence. Qed.

Lemma counter_grows_incrementGlobal : keeps counter_grows incrementGlobal.
Proof.
  intros st Hst. unfold counter_in_range in *. simpl.
  rewrite incrementGlobal_step by assumption. lia.
Qed.

Lemma step_counter_grows st i : counter_grows st (Page.step st i).
Proof.
  apply (keeps_every_step _ counter_grows_relation),
    counter_grows_incrementGlobal.
Qed.

Lemma run_counter_grows st (inputs : list Page.Input) :
  counter_grows st (Page.run st inputs).
Proof.
  apply (keeps_run _ counter_grows_relation), counter_grows_incrementGlobal.
Qed.

Lemma load_counter_in_range doc : counter_in_range (load doc).
Proof.
  unfold counter_in_range, counter_limit. simpl. unfold globalCounter_init. lia.
Qed.

(** Only a step that runs the listener of lines 135-138 changes the
    counter. *)
Lemma step_counter_kept st i :
  Page.calls_incrementGlobal st i = false -> counter_kept st (Page.step st i).
Proof.
  intros Hno. apply (keeps_step_of _ counter_kept_relation).
  intros e ->. simpl in Hno. apply Forall_forall. intros [this h] Hin.
  apply (keeps_run_handler _ counter_kept_relation). cbn [fst snd].
  destruct (Page.is_incGlobal (this, h)) eqn:Hh; [|reflexivity].
  assert (existsb Page.is_incGlobal (Page.invoked e st) = true); [|congruence].
  apply existsb_exists. exists (this, h). split; [|assumption].
  now apply list_elem_of_In.
Qed.

(** C4.  The counter is 0 when the script has been evaluated.  In every
    state the page reaches, a step (an event dispatched to the listeners, a
    timeout firing, time passing, a frame, an edit of a form control) leaves
    the counter where it is or raises it, and so does any sequence of steps;
    a step that does not run the listener calling [incrementGlobal] leaves
    it where it is, as does every other function of the script called in any
    state. *)
Theorem globalCounter_monotone doc (inputs more : list Page.Input) i :
  let st := Page.run (load doc) inputs in
  globalCounter (load doc) = 0
  /\ globalCounter st <= globalCounter (Page.step st i)
  /\ globalCounter st <= globalCounter (Page.run st more)
  /\ (Page.calls_incrementGlobal st i = false ->
      globalCounter (Page.step st i) = globalCounter st)
  /\ (forall a b name sel c d,
        keeps counter_kept (add a b) /\ keeps counter_kept (greet name)
        /\ keeps counter_kept incrementLocal
        /\ keeps counter_kept (toggleClass sel c)
        /\ keeps counter_kept (animateOnce sel c d)
        /\ keeps counter_kept (openModal sel)
        /\ keeps counter_kept (closeModal sel)).
Proof.
  cbv zeta.
  assert (Hst : counter_in_range (Page.run (load doc) inputs))
    by apply (run_counter_grows (load doc) inputs), load_counter_in_range.
  split; [reflexivity|]. split; [|split; [|split]].
  - now apply step_counter_grows.
  - now apply run_counter_grows.
  - apply step_counter_kept.
  - intros a b name sel c d.
    pose proof counter_kept_relation as HR.
    repeat split;
      first [now apply keeps_add|now apply keeps_greet
            |now apply keeps_incrementLocal|now apply keeps_toggleClass
            |now apply keeps_animateOnce|now apply keeps_openModal
            |now apply keeps_closeModal].
Qed.

(** Three clicks on [incGlobal] on the demo page, then one on [incLocal]:
    the click on [incLocal] does not run the listener of lines 135-138. *)
Lemma globalCounter_monotone_witness :
  let st := Page.run (load demo_page)
              [Page.Dispatch Page.DOMContentLoaded; Page.Dispatch (Page.click 7);
               Page.Dispatch (Page.click 7); Page.Dispatch (Page.click 7)] in
  globalCounter st = 3
  /\ textOf st 9 = Some "globalCounter is now: 3"
  /\ globalCounter (Page.step st (Page.Dispatch (Page.click 6))) = globalCounter st.
Proof.
  cbv zeta.
  destruct (globalCounter_monotone demo_page
              [Page.Dispatch Page.DOMContentLoaded; Page.Dispatch (Page.click 7);
               Page.Dispatch (Page.click 7); Page.Dispatch (Page.click 7)]
              [] (Page.Dispatch (Page.click 6))) as (_ & _ & _ & H & _).
  split; [reflexivity|]. split; [reflexivity|].
  apply H. reflexivity.
Defined.

End Counter.

(** ** Integers as Numbers

    The counter is kept as an integer; here its increment is checked
    against the addition of binary64 values. *)

Section IntegersAsNumbers.

Lemma shift_shift q a b : shift (shift q a) b = shift q (b + a).
Proof. induction b as [|b IH]; simpl; congruence. Qed.

Lemma iter_xO_shift q n :
  nat_rect (fun _ => positive) q (fun _ => xO) n = shift q n.
Proof. induction n as [|n IH]; simpl; congruence. Qed.

Lemma Zpos_shift q n : Z.pos (shift q n) = Z.pos q * 2 ^ Z.of_nat n.
Proof.
  induction n as [|n IH].
  - simpl. lia.
  - cbn [shift]. rewrite Pos2Z.inj_xO, IH.
    rewrite Nat2Z.inj_succ, Z.pow_succ_r by lia. lia.
Qed.

Lemma digits_shift q n :
  Z.pos (digits2_pos (shift q n)) = Z.pos (digits2_pos q) + Z.of_nat n.
Proof.
  induction n as [|n IH].
  - simpl. lia.
  - cbn [shift digits2_pos]. rewrite Pos2Z.inj_succ, IH. lia.
Qed.

Lemma digits2_pos_size q : digits2_pos q = Pos.size q.
Proof. induction q; simpl; congruence. Qed.

Lemma digits_bound q : Z.pos q < 2 ^ 53 -> Z.pos (digits2_pos q) <= 53.
Proof.
  intros H. rewrite digits2_pos_size.
  pose proof (Pos.size_le q) as Hle.
  assert (H2 : 2 ^ Z.pos (Pos.size q) <= 2 * Z.pos q).
  { change (2 * Z.pos q) with (Z.pos q~0). rewrite <- Pos2Z.inj_pow. exact Hle. }
  destruct (Z.le_gt_cases (Z.pos (Pos.size q)) 53) as [|Hgt]; [assumption|].
  assert (2 ^ 54 <= 2 ^ Z.pos (Pos.size q)) by (apply Z.pow_le_mono_r; lia).
  change (2 ^ 54) with (2 * 2 ^ 53) in *. lia.
Qed.

Lemma iter_pos_nat {A : Type} (f : A -> A) p x :
  SpecFloat.iter_pos f p x = Nat.iter (Pos.to_nat p) f x.
Proof.
  revert x. induction p as [p IH|p IH|]; intros x; cbn [SpecFloat.iter_pos].
  - rewrite !IH, Pos2Nat.inj_xI, <- Nat.iter_succ_r, <- Nat.iter_add.
    f_equal. lia.
  - rewrite !IH, Pos2Nat.inj_xO, <- Nat.iter_add. f_equal. lia.
  - reflexivity.
Qed.

Lemma shr_shift q n :
  Nat.iter n shr_1 (Build_shr_record (Z.pos (shift q n)) false false)
  = Build_shr_record (Z.pos q) false false.
Proof.
  induction n as [|n IH]; [reflexivity|].
  rewrite Nat.iter_succ_r. cbn [shift shr_1 orb]. exact IH.
Qed.

Lemma shl_align_le mx ex ex' :
  ex' <= ex -> shl_align mx ex ex' = (shift mx (Z.to_nat (ex - ex')), ex').
Proof.
  intros H. unfold shl_align. destruct (ex' - ex) as [|d|d] eqn:Hd; try lia.
  - replace (ex - ex') with 0 by lia. simpl. f_equal. lia.
  - replace (ex - ex') with (Z.pos d) by lia. rewrite Z2Nat.inj_pos.
    now rewrite Pos2Nat.inj_iter, iter_xO_shift.
Qed.

Lemma shl_align_ge mx ex ex' : ex <= ex' -> shl_align mx ex ex' = (mx, ex).
Proof.
  intros H. unfold shl_align. destruct (ex' - ex) eqn:Hd; try reflexivity. lia.
Qed.

Lemma fexp_small e : -1021 <= e -> fexp JS.prec JS.emax e = e - 53.
Proof. intros H. unfold fexp, emin, JS.prec, JS.emax. lia. Qed.

(** Rounding a mantissa of 53 bits followed by [k] zeros drops the zeros. *)
Lemma binary_round_aux_shift m k e :
  Z.pos (digits2_pos m) = 53 -> -1021 <= e + Z.of_nat k <= 971 ->
  binary_round_aux JS.prec JS.emax false (Z.pos (shift m k)) e loc_Exact
  = S754_finite false m (e + Z.of_nat k).
Proof.
  intros Hm He. unfold binary_round_aux, shr_fexp.
  cbn [Zdigits2 shr_record_of_loc]. rewrite digits_shift, Hm.
  rewrite fexp_small by lia.
  replace (53 + Z.of_nat k + e - 53 - e) with (Z.of_nat k) by lia.
  assert (Hshr : shr (Build_shr_record (Z.pos (shift m k)) false false) e (Z.of_nat k)
                 = (Build_shr_record (Z.pos m) false false, e + Z.of_nat k)).
  { unfold shr. destruct k as [|k].
    - simpl. f_equal. lia.
    - change (Z.of_nat (S k)) with (Z.pos (Pos.of_succ_nat k)). cbv beta iota.
      now rewrite iter_pos_nat, SuccNat2Pos.id_succ, shr_shift. }
  rewrite Hshr. cbn [shr_m loc_of_shr_record round_nearest_even Zdigits2 shr_record_of_loc].
  rewrite Hm, fexp_small by lia.
  replace (53 + (e + Z.of_nat k) - 53 - (e + Z.of_nat k)) with 0 by lia.
  cbn [shr shr_m]. unfold JS.emax, JS.prec.
  destruct (Z.leb_spec (e + Z.of_nat k) (1024 - 53)); [reflexivity|lia].
Qed.

(** The Number of a positive integer below [2^53]: its bits, moved up to
    fill the 53 of the mantissa. *)
Lemma number_of_Zpos q :
  Z.pos q < 2 ^ 53 ->
  JS.number_of_Z (Z.pos q)
  = S754_finite false (shift q (Z.to_nat (53 - Z.pos (digits2_pos q))))
                (Z.pos (digits2_pos q) - 53).
Proof.
  intros Hq. pose proof (digits_bound q Hq) as Hd.
  unfold JS.number_of_Z, binary_normalize, binary_round.
  rewrite fexp_small by lia.
  rewrite shl_align_le by lia.
  replace (0 - (Z.pos (digits2_pos q) + 0 - 53)) with (53 - Z.pos (digits2_pos q)) by lia.
  set (n := Z.to_nat (53 - Z.pos (digits2_pos q))).
  pose proof (binary_round_aux_shift (shift q n) 0%nat
                (Z.pos (digits2_pos q) + 0 - 53)) as H.
  cbn [shift] in H. rewrite H.
  - f_equal. lia.
  - rewrite digits_shift. lia.
  - lia.
Qed.

Lemma number_add_one q :
  Z.pos q + 1 < 2 ^ 53 ->
  JS.number_add (JS.number_of_Z (Z.pos q)) (JS.number_of_Z 1)
  = JS.number_of_Z (Z.pos q + 1).
Proof.
  intros Hq. pose proof (digits_bound q ltac:(lia)) as Hd.
  pose proof (digits_bound (q + 1) ltac:(lia)) as Hd'.
  change (Z.pos q + 1) with (Z.pos (q + 1)).
  rewrite (number_of_Zpos q), (number_of_Zpos (q + 1)) by lia.
  change (JS.number_of_Z 1) with (S754_finite false (shift 1 52) (-52)).
  unfold JS.number_add, SFadd.
  replace (Z.min (Z.pos (digits2_pos q) - 53) (-52)) with (-52) by lia.
  rewrite !shl_align_le by lia. cbn [fst cond_Zopp].
  rewrite !shift_shift.
  replace (Z.to_nat (Z.pos (digits2_pos q) - 53 - -52) + Z.to_nat (53 - Z.pos (digits2_pos q)))%nat
    with 52%nat by lia.
  replace (Z.to_nat (-52 - -52) + 52)%nat with 52%nat by lia.
  assert (Hsum : Z.pos (shift q 52) + Z.pos (shift 1 52) = Z.pos (shift (q + 1) 52)).
  { rewrite !Zpos_shift. lia. }
  rewrite Hsum. unfold binary_normalize, binary_round.
  rewrite digits_shift. rewrite fexp_small by lia.
  rewrite shl_align_ge by lia.
  replace 52%nat with (Z.to_nat (Z.pos (digits2_pos (q + 1)) - 1)
                       + Z.to_nat (53 - Z.pos (digits2_pos (q + 1))))%nat at 1 by lia.
  rewrite <- shift_shift. rewrite binary_round_aux_shift.
  - f_equal. lia.
  - rewrite digits_shift. lia.
  - lia.
Qed.

(** Over the whole range of the counter, adding 1 to the integer is adding
    1 to the Number it stands for. *)
Lemma number_add_integer (z : Z) :
  0 <= z <= counter_limit ->
  JS.number_add (JS.number_of_Z z) (JS.number_of_Z 1)
  = JS.number_of_Z (JS.integer_add z 1).
Proof.
  unfold counter_limit. intros Hz.
  destruct (Z.eq_dec z 0) as [->|H0]; [reflexivity|].
  destruct (Z.eq_dec z (2 ^ 53)) as [->|H1]; [vm_compute; reflexivity|].
  destruct (Z.eq_dec z (2 ^ 53 - 1)) as [->|H2]; [vm_compute; reflexivity|].
  rewrite integer_add_succ by (unfold counter_limit; lia).
  destruct z as [|q|q]; try lia. apply number_add_one. lia.
Qed.

(** In every state the page reaches, [incrementGlobal] leaves in the
    counter the integer whose Number is the sum, as a Number, of the counter
    and 1. *)
Theorem incrementGlobal_is_number_add doc (inputs : list Page.Input) :
  let st := Page.run (load doc) inputs in
  JS.number_of_Z (globalCounter (snd (incrementGlobal st)))
  = JS.number_add (JS.number_of_Z (globalCounter st)) (JS.number_of_Z 1).
Proof.
  cbv zeta. simpl. symmetry. apply number_add_integer.
  apply (run_counter_grows (load doc) inputs), load_counter_in_range.
Qed.

End IntegersAsNumbers.

(** ** The Escape key *)

Section Escape.

Implicit Types (st s : State) (t : EventTarget).

Lemma listeners_wired_relation :
  StepRelation (fun s s' => listeners_wired s -> listeners_wired s').
Proof.
  split; unfold listeners_wired; simpl; intros; auto.
  apply Forall_app. split; [assumption|]. now apply Forall_singleton.
Qed.

(** Every listener for key presses the page ever has is the one of lines
    198-200. *)
Lemma run_listeners_wired doc (inputs : list Page.Input) :
  listeners_wired (Page.run (load doc) inputs).
Proof.
  apply (keeps_run _ listeners_wired_relation).
  - intros s Hs. exact Hs.
  - apply Forall_singleton. intros H. discriminate H.
Qed.

(** Closing the modal leaves it the element [#demoModal] finds. *)
Lemma querySelector_demoModal_closed s modal :
  DOM.querySelector (document s) "#demoModal" = Normal (Some modal) ->
  DOM.querySelector (DOM.update modal closed (document s)) "#demoModal"
  = Normal (Some modal).
Proof.
  rewrite !querySelector_demoModal. intros H.
  rewrite getElementById_update; [exact H| |]; intros e; reflexivity.
Qed.

(** The listener of lines 198-200 on an Escape key press. *)
Lemma invoke_keydown_escape s t this modal :
  DOM.querySelector (document s) "#demoModal" = Normal (Some modal) ->
  Page.invoke (Page.keydown t "Escape") s (this, OnKeydown)
  = with_document (DOM.update modal closed (document s)) s.
Proof.
  intros Hq. unfold Page.invoke. simpl. unfold bind.
  now rewrite (closeModal_found _ _ _ Hq).
Qed.

(** One or more of them in a row close the modal once. *)
Lemma fold_invoke_keydown_escape t (ls : list (EventTarget * Handler)) s modal :
  Forall (fun l => snd l = OnKeydown) ls ->
  ls <> [] ->
  DOM.querySelector (document s) "#demoModal" = Normal (Some modal) ->
  fold_left (Page.invoke (Page.keydown t "Escape")) ls s
  = with_document (DOM.update modal closed (document s)) s.
Proof.
  intros Hall. revert s. induction Hall as [|[this h] ls Hh Hls IH]; intros s Hne Hq.
  - contradiction.
  - simpl in Hh. subst h. cbn [fold_left].
    rewrite (invoke_keydown_escape s t this modal Hq).
    destruct ls as [|l ls]; [reflexivity|].
    rewrite IH; [|discriminate|now apply querySelector_demoModal_closed].
    cbn [document with_document]. rewrite with_document_twice.
    now rewrite update_closed_twice.
Qed.

(** The listeners a key press invokes, on a page whose listeners are the
    script's. *)
Lemma invoked_keydown st t k :
  listeners_wired st ->
  Forall (fun l => snd l = OnKeydown) (Page.invoked (Page.keydown t k) st).
Proof.
  intros Hw. apply Forall_forall. intros [this h] Hin.
  unfold Page.invoked in Hin. apply list_elem_of_In, in_flat_map in Hin.
  destruct Hin as (x & _ & Hin). unfold Page.listeners_on in Hin.
  apply in_map_iff in Hin. destruct Hin as (l & [= <- <-] & Hl).
  apply list_elem_of_In, list_elem_of_filter in Hl. destruct Hl as [[_ Hty] Hl].
  unfold listeners_wired in Hw. rewrite Forall_forall in Hw.
  simpl. now apply Hw.
Qed.

Lemma invoked_keydown_document st t k :
  In keydown_listener (listeners st) ->
  in_document st t = true ->
  In (TheDocument, OnKeydown) (Page.invoked (Page.keydown t k) st).
Proof.
  intros Hl Ht. unfold Page.invoked. apply in_flat_map.
  exists TheDocument. split.
  - destruct t as [|h]; simpl; [now left|].
    simpl in Ht. rewrite Ht. apply in_or_app. right. now left.
  - unfold Page.listeners_on. apply in_map_iff.
    exists keydown_listener. split; [reflexivity|].
    apply list_elem_of_In, list_elem_of_filter. split; [now split|].
    now apply list_elem_of_In.
Qed.

(** An Escape key press on a page whose key listeners are the script's and
    whose document has one: the modal is closed, and nothing else
    changes. *)
Lemma dispatch_escape_state st t modal :
  listeners_wired st ->
  In keydown_listener (listeners st) ->
  in_document st t = true ->
  DOM.querySelector (document st) "#demoModal" = Normal (Some modal) ->
  Page.step st (Page.Dispatch (Page.keydown t "Escape"))
  = with_document (DOM.update modal closed (document st)) st.
Proof.
  intros Hw Hl Ht Hq. simpl. unfold Page.dispatch.
  apply (fold_invoke_keydown_escape t); [| |exact Hq].
  - now apply invoked_keydown.
  - intros Hnil. pose proof (invoked_keydown_document _ t "Escape" Hl Ht) as Hin.
    rewrite Hnil in Hin. destruct Hin.
Qed.

Lemma dispatch_escape st t modal :
  listeners_wired st ->
  In keydown_listener (listeners st) ->
  in_document st t = true ->
  DOM.querySelector (document st) "#demoModal" = Normal (Some modal) ->
  let st' := Page.step st (Page.Dispatch (Page.keydown t "Escape")) in
  getAttribute st' modal "aria-hidden" = Some "true"
  /\ hasClass st' modal "open" = false.
Proof.
  cbv zeta. intros Hw Hl Ht Hq.
  rewrite (dispatch_escape_state st t modal) by assumption.
  destruct (querySelector_Some _ _ _ Hq) as (e & He & _).
  apply (closed_hidden st modal). now exists e.
Qed.

Lemma listeners_persist_relation : StepRelation listeners_persist.
Proof.
  split; unfold listeners_persist; simpl; intros; auto.
  apply in_or_app. now left.
Qed.

Lemma run_listeners_persist st (inputs : list Page.Input) :
  listeners_persist st (Page.run st inputs).
Proof.
  apply (keeps_run _ listeners_persist_relation). intros s l Hl. exact Hl.
Qed.

Lemma dispatch_DOMContentLoaded doc :
  Page.step (load doc) (Page.Dispatch Page.DOMContentLoaded)
  = snd (wire (load doc)).
Proof. reflexivity. Qed.

(** The wiring that runs to its end has registered the key listener. *)
Lemma wire_done_keydown st :
  fst (wire st) = Normal tt -> In keydown_listener (listeners (snd (wire st))).
Proof.
  cbv beta iota zeta delta
    [wire listen deref bind ret throw Browser.getElementById
     Browser.addEventListener get_document].
  cbn [document with_listeners listeners fst snd].
  repeat
    match goal with
    | |- context [DOM.getElementById (document st) ?i] =>
        destruct (DOM.getElementById (document st) i);
        cbn [document with_listeners listeners fst snd]
    end;
    try (intros H; discriminate H).
  all: intros _; apply in_or_app; right; now left.
Qed.

(** Once DOMContentLoaded has been dispatched on a page where the wiring
    runs to its end, the key listener is registered for good. *)
Lemma run_wired_keydown doc (inputs : list Page.Input) :
  fst (wire (load doc)) = Normal tt ->
  In keydown_listener
     (listeners
        (Page.run (load doc) (Page.Dispatch Page.DOMContentLoaded :: inputs))).
Proof.
  intros Hwire.
  change (Page.run (load doc) (Page.Dispatch Page.DOMContentLoaded :: inputs))
    with (Page.run (Page.step (load doc) (Page.Dispatch Page.DOMContentLoaded))
                   inputs).
  apply run_listeners_persist. rewrite dispatch_DOMContentLoaded.
  now apply wire_done_keydown.
Qed.

(** C9 (as amended).  On a page where the wiring runs to its end (lines
    110-201 find every element they register a listener on), in every state
    the page reaches once DOMContentLoaded has been dispatched, an Escape
    key press sent to the document or to any connected element closes the
    element found by [#demoModal], whether it was open or not: its
    [aria-hidden] is ["true"], the class [open] is off, and nothing else of
    the page changes. *)
Theorem escape_closes_modal doc (inputs : list Page.Input) t modal :
  fst (wire (load doc)) = Normal tt ->
  let st := Page.run (load doc) (Page.Dispatch Page.DOMContentLoaded :: inputs) in
  in_document st t = true ->
  DOM.querySelector (document st) "#demoModal" = Normal (Some modal) ->
  let st' := Page.step st (Page.Dispatch (Page.keydown t "Escape")) in
  st' = with_document (DOM.update modal closed (document st)) st
  /\ getAttribute st' modal "aria-hidden" = Some "true"
  /\ hasClass st' modal "open" = false.
Proof.
  intros Hwire. cbv zeta. intros Ht Hq.
  pose proof (run_listeners_wired doc (Page.Dispatch Page.DOMContentLoaded :: inputs))
    as Hw.
  pose proof (run_wired_keydown doc inputs Hwire) as Hl.
  split.
  - now apply dispatch_escape_state.
  - now apply dispatch_escape.
Qed.

(** The demo page with its modal open and the focus in the first field. *)
Lemma escape_closes_modal_witness :
  let st := Page.run (load demo_page)
              [Page.Dispatch Page.DOMContentLoaded; Page.Dispatch (Page.click 17)] in
  let st' := Page.step st (Page.Dispatch (Page.keydown (Node 2) "Escape")) in
  hasClass st 18 "open" = true
  /\ getAttribute st 18 "aria-hidden" = Some "false"
  /\ getAttribute st' 18 "aria-hidden" = Some "true"
  /\ hasClass st' 18 "open" = false.
Proof.
  cbv zeta.
  split; [reflexivity|]. split; [reflexivity|].
  apply (escape_closes_modal demo_page [Page.Dispatch (Page.click 17)]
           (Node 2) 18%nat); reflexivity.
Defined.

(** C9 as stated fails: on the demo page without the button
    [closeModalBtn], line 188 throws a TypeError and line 198 is not
    reached; the button of line 185 opens the modal, and an Escape key
    press leaves it open. *)
Lemma escape_ignored_without_closeModalBtn :
  let st := Page.run (load page_without_closeModalBtn)
              [Page.Dispatch Page.DOMContentLoaded; Page.Dispatch (Page.click 17)] in
  let st' := Page.step st (Page.Dispatch (Page.keydown TheDocument "Escape")) in
  fst (wire (load page_without_closeModalBtn)) = Throw TypeError
  /\ hasClass st 18 "open" = true
  /\ getAttribute st 18 "aria-hidden" = Some "false"
  /\ st' = st
  /\ getAttribute st' 18 "aria-hidden" = Some "false".
Proof.
  cbv zeta. repeat (apply conj); vm_compute; reflexivity.
Qed.

End Escape.

(** ** The wiring *)

Section Wiring.

Implicit Types (st : State) (t : EventTarget).

(** The wiring registers the key listener, or stops at a TypeError before
    it does. *)
Theorem wire_all_or_abort st :
  (fst (wire st) = Normal tt /\ In keydown_listener (listeners (snd (wire st))))
  \/ (fst (wire st) = Throw TypeError
      /\ (In keydown_listener (listeners (snd (wire st))) ->
          In keydown_listener (listeners st))).
Proof.
  cbv beta iota zeta delta
    [wire listen deref bind ret throw Browser.getElementById
     Browser.addEventListener get_document].
  cbn [document with_listeners listeners fst snd].
  repeat
    match goal with
    | |- context [DOM.getElementById (document st) ?i] =>
        destruct (DOM.getElementById (document st) i);
        cbn [document with_listeners listeners fst snd]
    end;
    try (right; split; [reflexivity|];
         rewrite ?in_app_iff; simpl; unfold keydown_listener;
         intuition discriminate).
  all: left; split; [reflexivity|]; apply in_or_app; right; now left.
Qed.

(** A page without the button of the first listener: the wiring registers
    nothing. *)
Theorem wire_stops_without_addBtn st :
  DOM.getElementById (document st) "addBtn" = None ->
  wire st = (Throw TypeError, st).
Proof.
  intros H.
  cbv beta iota zeta delta
    [wire listen deref bind ret throw Browser.getElementById get_document].
  now rewrite H.
Qed.

Lemma wire_stops_without_addBtn_witness :
  wire (load flipped_page) = (Throw TypeError, load flipped_page).
Proof. apply wire_stops_without_addBtn. reflexivity. Defined.

(** On a page where the wiring runs to its end, once DOMContentLoaded has
    been dispatched an Escape key press closes the modal in every state the
    page reaches afterwards. *)
Theorem escape_closes_modal_once_wired doc (inputs : list Page.Input) t modal :
  fst (wire (load doc)) = Normal tt ->
  let st := Page.run (load doc) (Page.Dispatch Page.DOMContentLoaded :: inputs) in
  in_document st t = true ->
  DOM.querySelector (document st) "#demoModal" = Normal (Some modal) ->
  let st' := Page.step st (Page.Dispatch (Page.keydown t "Escape")) in
  getAttribute st' modal "aria-hidden" = Some "true"
  /\ hasClass st' modal "open" = false.
Proof.
  intros Hwire. cbv zeta. intros Ht Hq.
  apply dispatch_escape; [apply run_listeners_wired| |assumption..].
  now apply run_wired_keydown.
Qed.

Lemma escape_closes_modal_once_wired_witness :
  let st := Page.run (load demo_page)
              [Page.Dispatch Page.DOMContentLoaded; Page.Dispatch (Page.click 17)] in
  let st' := Page.step st (Page.Dispatch (Page.keydown TheDocument "Escape")) in
  hasClass st 18 "open" = true
  /\ getAttribute st' 18 "aria-hidden" = Some "true"
  /\ hasClass st' 18 "open" = false.
Proof.
  cbv zeta. split; [reflexivity|].
  apply (escape_closes_modal_once_wired demo_page [Page.Dispatch (Page.click 17)]
           TheDocument 18%nat); reflexivity.
Defined.

End Wiring.

(** ** Greeting *)

(** [greet()] greets the guest and [greet(name)] greets [name]; neither
    changes the state. *)
Theorem greet_spec st (name : string) :
  greet None st = (Normal "hi guest", st)
  /\ greet (Some name) st = (Normal ("hi " ++ name), st).
Proof. split; reflexivity. Qed.

(** A call without a name greets as a call with the name "guest" does;
    otherwise two calls return the same greeting only for the same name.
    The greeting is three characters longer than the name, and the state
    is left as it is. *)
Theorem greet_names (a b : option string) st :
  greet None st = greet (Some "guest") st
  /\ (fst (greet a st) = fst (greet b st)
      <-> default "guest" a = default "guest" b)
  /\ exists g,
       greet a st = (Normal g, st)
       /\ String.length g = (3 + String.length (default "guest" a))%nat.
Proof.
  split; [reflexivity|]. split.
  - unfold greet, ret. cbn [fst]. split.
    + intros H. injection H as H. exact H.
    + intros ->. reflexivity.
  - exists ("hi " ++ default "guest" a). split; reflexivity.
Qed.

(** ** Listeners within a footprint *)

Section Footprints.

Variable R : State -> State -> Prop.
Variables adds removes attrs : string -> Prop.
Hypothesis HF : Footprint R adds removes attrs.

Lemma within_ret {A : Type} (a : A) : keeps R (ret a).
Proof. intros st. apply (fp_refl _ _ _ _ HF). Qed.

Lemma within_throw {A : Type} (e : exn) : keeps R (throw (A := A) e).
Proof. intros st. apply (fp_refl _ _ _ _ HF). Qed.

Lemma within_lift {A : Type} (c : completion A) : keeps R (lift c).
Proof. intros st. apply (fp_refl _ _ _ _ HF). Qed.

Lemma within_get_document : keeps R get_document.
Proof. intros st. apply (fp_refl _ _ _ _ HF). Qed.

Lemma within_bind {A B : Type} (m : M A) (k : A -> M B) :
  keeps R m -> (forall a, keeps R (k a)) -> keeps R (bind m k).
Proof.
  intros Hm Hk st. unfold bind. specialize (Hm st).
  destruct (m st) as [[a|e] st']; simpl in *; [|assumption].
  eapply (fp_trans _ _ _ _ HF); [exact Hm|apply Hk].
Qed.

Ltac within_step :=
  first
    [ apply within_ret | apply within_throw | apply within_lift
    | apply within_get_document
    | apply (fp_text _ _ _ _ HF) | apply (fp_layout _ _ _ _ HF)
    | apply (fp_add _ _ _ _ HF); assumption
    | apply (fp_remove _ _ _ _ HF); assumption
    | apply (fp_attr _ _ _ _ HF); assumption
    | apply within_bind; [|intros ?]
    | match goal with
      | |- keeps _ (match ?x with _ => _ end) => destruct x
      | |- keeps _ (if ?x then _ else _) => destruct x
      end ].

Ltac within_all := repeat within_step.

Lemma within_querySelector sel : keeps R (Browser.querySelector sel).
Proof. unfold Browser.querySelector. within_all. Qed.

Lemma within_getElementById i : keeps R (Browser.getElementById i).
Proof. unfold Browser.getElementById. within_all. Qed.

Lemma within_deref r : keeps R (deref r).
Proof. unfold deref. within_all. Qed.

Lemma within_element h : keeps R (element h).
Proof. unfold element. within_all. Qed.

Lemma within_check_token c : keeps R (Browser.check_token c).
Proof. unfold Browser.check_token. within_all. Qed.

Lemma within_classList_add el c : adds c -> keeps R (Browser.classList_add el c).
Proof.
  intros Hc. unfold Browser.classList_add.
  apply within_bind; [apply within_check_token|intros _]. within_all.
Qed.

Lemma within_classList_remove el c :
  removes c -> keeps R (Browser.classList_remove el c).
Proof.
  intros Hc. unfold Browser.classList_remove.
  apply within_bind; [apply within_check_token|intros _]. within_all.
Qed.

Lemma within_classList_contains el c : keeps R (Browser.classList_contains el c).
Proof.
  unfold Browser.classList_contains.
  apply within_bind; [apply within_element|intros ?]. within_all.
Qed.

Lemma within_classList_toggle el c :
  adds c -> removes c -> keeps R (Browser.classList_toggle el c).
Proof.
  intros Ha Hr. unfold Browser.classList_toggle.
  apply within_bind; [apply within_check_token|intros _].
  apply within_bind; [apply within_element|intros e]. within_all.
Qed.

Lemma within_get_value el : keeps R (Browser.get_value el).
Proof.
  unfold Browser.get_value.
  apply within_bind; [apply within_element|intros ?]. within_all.
Qed.

Lemma within_add a b : keeps R (add a b).
Proof. unfold add. within_all. Qed.

Lemma within_incrementLocal : keeps R incrementLocal.
Proof. unfold incrementLocal. within_all. Qed.

Lemma within_toggleClass sel c :
  adds c -> removes c -> keeps R (toggleClass sel c).
Proof.
  intros Ha Hr. unfold toggleClass.
  apply within_bind; [apply within_querySelector|intros [el|]]; [|within_all].
  apply within_bind; [now apply within_classList_toggle|intros _].
  apply within_classList_contains.
Qed.

Lemma within_openModal sel :
  adds "open" -> attrs "aria-hidden" -> keeps R (openModal sel).
Proof.
  intros Ha Hat. unfold openModal.
  apply within_bind; [apply within_querySelector|intros [el|]]; [|within_all].
  apply within_bind; [now apply within_classList_add|intros _]. within_all.
Qed.

Lemma within_closeModal sel :
  removes "open" -> attrs "aria-hidden" -> keeps R (closeModal sel).
Proof.
  intros Hr Hat. unfold closeModal.
  apply within_bind; [apply within_querySelector|intros [el|]]; [|within_all].
  apply within_bind; [now apply within_classList_remove|intros _]. within_all.
Qed.

(** [animateOnce] with a class it may add and remove, where setting the
    timeout is within the relation too. *)
Lemma within_animateOnce sel c d :
  adds c -> removes c ->
  (forall el, keeps R (Browser.setTimeout (RemoveClass el c) (default 700 d))) ->
  keeps R (animateOnce sel c d).
Proof.
  intros Ha Hr Ht. unfold animateOnce.
  apply within_bind; [apply within_querySelector|intros [el|]]; [|within_all].
  apply within_bind; [now apply within_classList_remove|intros _].
  apply within_bind; [apply (fp_layout _ _ _ _ HF)|intros _].
  apply within_bind; [now apply within_classList_add|intros _].
  apply within_bind; [apply Ht|intros ?]. within_all.
Qed.

Lemma within_run_callback cb :
  (forall el c, cb = RemoveClass el c -> removes c) -> keeps R (run_callback cb).
Proof.
  intros H. destruct cb as [el c]. simpl.
  apply within_classList_remove. now apply (H el c).
Qed.

Lemma within_listen r h :
  (forall el, script_listener (mkListener (Node el) "click" h)) ->
  keeps R (listen r "click" h).
Proof.
  intros H. unfold listen.
  apply within_bind; [apply within_deref|intros el].
  now apply (fp_listen _ _ _ _ HF).
Qed.

Lemma within_wire : keeps R wire.
Proof.
  unfold wire.
  repeat first
    [ apply within_bind; [apply within_getElementById|intros ?]
    | apply within_bind;
      [apply within_listen; intros ?; simpl;
       (split; [reflexivity|eexists; reflexivity])|intros _] ].
  apply (fp_listen _ _ _ _ HF). split; reflexivity.
Qed.

Lemma within_run_handler h this e :
  handler_within R adds removes attrs h -> keeps R (run_handler h this e).
Proof.
  destruct h; simpl; intros H.
  - apply within_wire.
  - repeat first
      [ apply within_bind; [apply within_deref|intros ?]
      | apply within_bind; [apply within_get_value|intros ?]
      | apply within_bind; [apply within_add|intros ?] ].
    apply (fp_text _ _ _ _ HF).
  - apply within_bind; [apply within_incrementLocal|intros ?].
    apply within_bind; [apply within_deref|intros ?]. apply (fp_text _ _ _ _ HF).
  - apply within_bind; [exact H|intros ?].
    apply within_bind; [apply within_deref|intros ?]. apply (fp_text _ _ _ _ HF).
  - apply within_bind; [exact H|intros ?]. apply within_ret.
  - apply within_bind; [exact H|intros ?]. apply within_ret.
  - destruct H as (Ha & Hr & Hat).
    apply within_bind; [now apply within_toggleClass|intros ?].
    apply within_bind; [apply within_deref|intros ?]. now apply (fp_attr _ _ _ _ HF).
  - destruct H as (Ha & Hr & Hat).
    apply within_bind; [now apply within_toggleClass|intros ?].
    apply within_bind; [apply within_deref|intros ?]. now apply (fp_attr _ _ _ _ HF).
  - destruct H as (Ha & Hat).
    apply within_bind; [apply within_deref|intros ?].
    apply within_bind; [now apply within_classList_add|intros ?].
    now apply (fp_attr _ _ _ _ HF).
  - destruct H as (Hr & Hat).
    apply within_bind; [apply within_deref|intros ?].
    apply within_bind; [now apply within_classList_remove|intros ?].
    now apply (fp_attr _ _ _ _ HF).
  - destruct H as (Ha & Hat).
    apply within_bind; [now apply within_openModal|intros ?]. apply within_ret.
  - destruct H as (Hr & Hat).
    apply within_bind; [now apply within_closeModal|intros ?]. apply within_ret.
  - destruct H as (Hr & Hat). destruct (bool_decide _); [|apply within_ret].
    apply within_bind; [now apply within_closeModal|intros ?]. apply within_ret.
  - destruct H as (Hr & Hat). destruct (bool_decide _); [|apply within_ret].
    apply within_bind; [now apply within_closeModal|intros ?]. apply within_ret.
Qed.

Lemma within_fold_invoke e ls st :
  Forall (fun l => handler_within R adds removes attrs (snd l)) ls ->
  R st (fold_left (Page.invoke e) ls st).
Proof.
  intros H. revert st. induction H as [|l ls Hl _ IH]; intros st; simpl.
  - apply (fp_refl _ _ _ _ HF).
  - eapply (fp_trans _ _ _ _ HF); [|apply IH].
    unfold Page.invoke. now apply within_run_handler.
Qed.

(** An event whose listeners are all within the relation. *)
Lemma within_dispatch e st :
  Forall (fun l => handler_within R adds removes attrs (snd l)) (Page.invoked e st) ->
  R st (Page.dispatch e st).
Proof. apply within_fold_invoke. Qed.

Lemma within_run_listener e l :
  listener_within R adds removes attrs e l ->
  keeps R (run_handler (snd l) (fst l) e).
Proof.
  destruct l as [this h]. unfold listener_within. cbn [fst snd].
  destruct h; try apply within_run_handler.
  - intros H. simpl. destruct (bool_decide_reflect (eventTarget e = this)) as [Ht|_];
      [|apply within_ret].
    destruct (H Ht) as [Hr Hat].
    apply within_bind; [now apply within_closeModal|intros ?]. apply within_ret.
  - intros H. simpl.
    destruct (bool_decide_reflect (key e = Some "Escape")) as [Hk|_];
      [|apply within_ret].
    destruct (H Hk) as [Hr Hat].
    apply within_bind; [now apply within_closeModal|intros ?]. apply within_ret.
Qed.

Lemma within_dispatch_guarded e st :
  Forall (listener_within R adds removes attrs e) (Page.invoked e st) ->
  R st (Page.dispatch e st).
Proof.
  unfold Page.dispatch. generalize (Page.invoked e st). intros ls H.
  revert st. induction H as [|l ls Hl _ IH]; intros st; simpl.
  - apply (fp_refl _ _ _ _ HF).
  - eapply (fp_trans _ _ _ _ HF); [|apply IH].
    unfold Page.invoke. now apply within_run_listener.
Qed.

(** A timeout that fires, where its callback removes a class of
    [removes]. *)
Lemma within_fire id st :
  (forall i, keeps R (Browser.clearTimeout i)) ->
  (forall t el c, t ∈ timers st -> callback t = RemoveClass el c -> removes c) ->
  R st (Page.fire id st).
Proof.
  intros Hclear Hcb. unfold Page.fire.
  destruct (Page.find_timer id (timers st)) as [t|] eqn:Hfind;
    [|apply (fp_refl _ _ _ _ HF)].
  destruct (due t <=? now st); [|apply (fp_refl _ _ _ _ HF)].
  eapply (fp_trans _ _ _ _ HF); [apply (Hclear id st)|].
  apply within_run_callback. intros el c Hc.
  apply (Hcb t el c); [|exact Hc].
  unfold Page.find_timer in Hfind.
  destruct (list_find _ (timers st)) as [[k t']|] eqn:Hlf; [|discriminate].
  simpl in Hfind. injection Hfind as ->.
  apply list_find_Some in Hlf. destruct Hlf as (Hk & _).
  eapply list_elem_of_lookup_2. exact Hk.
Qed.

End Footprints.

(** ** The listeners and timeouts of a page the script runs on *)

Section Reachable.

Abbreviation any := (fun _ : string => True).

Lemma listeners_scripted_footprint :
  Footprint (preserves listeners_scripted) any any any.
Proof.
  split; unfold keeps, preserves;
    try (intros; match goal with H : _ |- _ => exact H end).
  - intros s1 s2 s3 H12 H23 H. apply H23, H12, H.
  - intros t ty h Hl st H. unfold listeners_scripted in *. simpl.
    apply Forall_app. split; [exact H|]. constructor; [exact Hl|constructor].
Qed.

Lemma timers_scripted_footprint :
  Footprint (preserves timers_scripted) any any any.
Proof.
  split; unfold keeps, preserves;
    try (intros; match goal with H : _ |- _ => exact H end).
  intros s1 s2 s3 H12 H23 H. apply H23, H12, H.
Qed.

Lemma timers_scripted_setTimeout el d :
  0 <= Browser.timer_delay d <= 700 ->
  keeps (preserves timers_scripted)
        (Browser.setTimeout (RemoveClass el "anim-pop") d).
Proof.
  intros Hd st (Hnext & Hall & Hnd). unfold timers_scripted. simpl.
  split; [lia|split].
  - apply Forall_app. split.
    + eapply Forall_impl; [exact Hall|]. simpl. intros t (Hid & Hdue & Hcb).
      split; [lia|]. split; [exact Hdue|exact Hcb].
    + constructor; [|constructor]. simpl. split; [lia|]. split; [lia|].
      now exists el.
  - rewrite fmap_app. apply NoDup_app. split; [exact Hnd|]. split.
    + intros x Hx Hx'. apply list_elem_of_fmap in Hx. destruct Hx as (t & -> & Ht).
      rewrite Forall_forall in Hall. apply Hall in Ht.
      simpl in Hx'. apply list_elem_of_singleton in Hx'. lia.
    + simpl. apply NoDup_singleton.
Qed.

Lemma filter_all {A : Type} (P : A -> Prop) `{forall x, Decision (P x)} (l : list A) :
  Forall P l -> filter P l = l.
Proof.
  induction 1 as [|x l Hx _ IH]; [reflexivity|].
  rewrite filter_cons_True by exact Hx. now rewrite IH.
Qed.

Lemma timers_scripted_clearTimeout i :
  keeps (preserves timers_scripted) (Browser.clearTimeout i).
Proof.
  intros st (Hnext & Hall & Hnd). unfold timers_scripted. simpl.
  split; [exact Hnext|split].
  - rewrite Forall_forall in Hall. apply Forall_forall. intros t Ht.
    apply list_elem_of_filter in Ht. apply Hall, Ht.
  - eapply sublist_NoDup; [exact Hnd|].
    apply fmap_sublist, sublist_filter.
Qed.

Lemma find_timer_Some id (ts : list Timer) t :
  Page.find_timer id ts = Some t -> t ∈ ts /\ timerId t = id.
Proof.
  unfold Page.find_timer. intros H.
  destruct (list_find _ ts) as [[k t']|] eqn:Hlf; [|discriminate].
  simpl in H. injection H as ->.
  apply list_find_Some in Hlf. destruct Hlf as (Hk & Hid & _).
  split; [eapply list_elem_of_lookup_2; exact Hk|exact Hid].
Qed.

Lemma all_within_listeners h :
  handler_within (preserves listeners_scripted) any any any h.
Proof.
  destruct h; simpl; auto.
  - intros st H. exact H.
  - apply (within_animateOnce _ _ _ _ listeners_scripted_footprint); auto.
    intros el st H. exact H.
  - apply (within_animateOnce _ _ _ _ listeners_scripted_footprint); auto.
    intros el st H. exact H.
Qed.

Lemma all_within_timers h :
  handler_within (preserves timers_scripted) any any any h.
Proof.
  destruct h; simpl; auto.
  - intros st H. exact H.
  - apply (within_animateOnce _ _ _ _ timers_scripted_footprint); auto.
    intros el. now apply timers_scripted_setTimeout.
  - apply (within_animateOnce _ _ _ _ timers_scripted_footprint); auto.
    intros el. now apply timers_scripted_setTimeout.
Qed.

Lemma step_listeners_scripted st i :
  listeners_scripted st -> listeners_scripted (Page.step st i).
Proof.
  destruct i as [e|id|dt| |h v]; simpl; try (intros H; exact H).
  - apply (within_dispatch _ _ _ _ listeners_scripted_footprint).
    apply Forall_forall. intros l _. apply all_within_listeners.
  - apply (within_fire _ _ _ _ listeners_scripted_footprint); [|auto].
    intros k s H. exact H.
Qed.

Lemma step_timers_scripted st i :
  timers_scripted st -> timers_scripted (Page.step st i).
Proof.
  destruct i as [e|id|dt| |h v]; simpl; try (intros H; exact H).
  - apply (within_dispatch _ _ _ _ timers_scripted_footprint).
    apply Forall_forall. intros l _. apply all_within_timers.
  - apply (within_fire _ _ _ _ timers_scripted_footprint); [|auto].
    apply timers_scripted_clearTimeout.
  - intros (Hnext & Hall & Hnd). split; [exact Hnext|split; [|exact Hnd]].
    eapply Forall_impl; [exact Hall|]. simpl. intros t (Hid & Hdue & Hcb).
    split; [exact Hid|]. split; [lia|exact Hcb].
Qed.

Lemma run_listeners_scripted st (inputs : list Page.Input) :
  listeners_scripted st -> listeners_scripted (Page.run st inputs).
Proof.
  revert st. induction inputs as [|i inputs IH]; intros st H; [exact H|].
  simpl. apply IH, step_listeners_scripted, H.
Qed.

Lemma run_timers_scripted st (inputs : list Page.Input) :
  timers_scripted st -> timers_scripted (Page.run st inputs).
Proof.
  revert st. induction inputs as [|i inputs IH]; intros st H; [exact H|].
  simpl. apply IH, step_timers_scripted, H.
Qed.

Lemma load_listeners_scripted doc : listeners_scripted (load doc).
Proof. constructor; [split; reflexivity|constructor]. Qed.

Lemma load_timers_scripted doc : timers_scripted (load doc).
Proof.
  split; [simpl; lia|]. split; [constructor|]. simpl. constructor.
Qed.

End Reachable.

(** ** Events no listener answers *)

Section Ignored.

Lemma script_listener_type l :
  script_listener l ->
  eventType l = "click" \/ eventType l = "keydown"
  \/ eventType l = "DOMContentLoaded".
Proof.
  unfold script_listener. destruct (handler l); intros [H1 H2]; auto.
Qed.

Lemma listeners_on_none (ls : list Listener) ty t :
  Forall (fun l => eventType l <> ty) ls -> Page.listeners_on ls ty t = [].
Proof.
  intros H. unfold Page.listeners_on.
  induction H as [|l ls Hl _ IH]; [reflexivity|].
  rewrite filter_cons_False by (intros [_ Hty]; now apply Hl). exact IH.
Qed.

Lemma invoked_none e st :
  Forall (fun l => eventType l <> type e) (listeners st) -> Page.invoked e st = [].
Proof.
  intros H. unfold Page.invoked.
  induction (Page.path (document st) (eventTarget e)) as [|t ts IH];
    [reflexivity|].
  simpl. rewrite listeners_on_none by exact H. exact IH.
Qed.

Lemma fold_invoke_other_key e (ls : list (EventTarget * Handler)) st :
  key e <> Some "Escape" ->
  Forall (fun l => snd l = OnKeydown) ls ->
  fold_left (Page.invoke e) ls st = st.
Proof.
  intros Hk H. induction H as [|[this h] ls Hl _ IH]; [reflexivity|].
  simpl in Hl. subst h. simpl. unfold Page.invoke at 2. simpl.
  rewrite bool_decide_eq_false_2 by exact Hk. exact IH.
Qed.

(** On a page the script runs on, at any time, an event that is no
    click, no key press and no DOMContentLoaded changes nothing, whatever
    its target: the script listens for nothing else. *)
Theorem other_events_ignored doc (inputs : list Page.Input) (e : Event) :
  type e <> "click" -> type e <> "keydown" -> type e <> "DOMContentLoaded" ->
  let st := Page.run (load doc) inputs in
  Page.step st (Page.Dispatch e) = st.
Proof.
  intros Hc Hk Hd st. simpl. unfold Page.dispatch.
  rewrite invoked_none; [reflexivity|].
  pose proof (run_listeners_scripted (load doc) inputs
                (load_listeners_scripted doc)) as H.
  eapply Forall_impl; [exact H|]. intros l Hl.
  destruct (script_listener_type l Hl) as [H1|[H1|H1]]; congruence.
Qed.

Lemma other_events_ignored_witness :
  Page.step demo_wired (Page.Dispatch (mkEvent "mouseover" (Node 11) None))
  = demo_wired.
Proof.
  apply (other_events_ignored demo_page [Page.Dispatch Page.DOMContentLoaded]
           (mkEvent "mouseover" (Node 11) None)); discriminate.
Defined.

(** A key press changes the page only when the key is Escape, wherever
    the key is pressed and whatever is open. *)
Theorem other_keys_ignored doc (inputs : list Page.Input) t (k : option string) :
  k <> Some "Escape" ->
  let st := Page.run (load doc) inputs in
  Page.step st (Page.Dispatch (mkEvent "keydown" t k)) = st.
Proof.
  intros Hk st. simpl. unfold Page.dispatch.
  apply fold_invoke_other_key; [exact Hk|].
  apply (invoked_keydown st t "Escape"). apply run_listeners_wired.
Qed.

Lemma other_keys_ignored_witness :
  let st := Page.run (load demo_page)
              [Page.Dispatch Page.DOMContentLoaded; Page.Dispatch (Page.click 17)] in
  hasClass st 18 "open" = true
  /\ Page.step st (Page.Dispatch (Page.keydown (Node 2) "Enter")) = st.
Proof.
  split; [reflexivity|].
  apply (other_keys_ignored demo_page
           [Page.Dispatch Page.DOMContentLoaded; Page.Dispatch (Page.click 17)]
           (Node 2) (Some "Enter")).
  discriminate.
Defined.

End Ignored.

(** ** Pending timeouts *)

Section Timeouts.

(** At any time, on any page, every pending timeout is one that lines
    83-85 set for the class [anim-pop], is due at most 700 ms from now, and
    has a handle of its own that [setTimeout] gave out before. *)
Theorem pending_timeouts_scripted doc (inputs : list Page.Input) :
  let st := Page.run (load doc) inputs in
  (forall t, t ∈ timers st ->
     (exists el, callback t = RemoveClass el "anim-pop")
     /\ due t <= now st + 700
     /\ 1 <= timerId t < nextTimerId st)
  /\ (forall t t', t ∈ timers st -> t' ∈ timers st ->
        timerId t = timerId t' -> t = t').
Proof.
  intros st.
  destruct (run_timers_scripted (load doc) inputs (load_timers_scripted doc))
    as (Hnext & Hall & Hnd).
  fold st in Hall, Hnd. split.
  - intros t Ht. rewrite Forall_forall in Hall.
    destruct (Hall t Ht) as (Hid & Hdue & Hcb). auto.
  - intros t t' Ht Ht' Hid.
    apply list_elem_of_lookup in Ht, Ht'.
    destruct Ht as [i Hi], Ht' as [j Hj].
    assert (i = j) as ->.
    { eapply NoDup_lookup; [exact Hnd| |].
      - rewrite list_lookup_fmap, Hi. reflexivity.
      - rewrite list_lookup_fmap, Hj. simpl. now rewrite Hid. }
    congruence.
Qed.

(** The handle [animateOnce] returns is new, and [clearTimeout] on it
    leaves exactly the timeouts that were pending before the call: an
    animation can be cancelled without touching the others. *)
Theorem animateOnce_handle_cancels doc (inputs : list Page.Input) sel c d el :
  let st := Page.run (load doc) inputs in
  DOM.querySelector (document st) sel = Normal (Some el) ->
  DOM.token_error c = None ->
  let r := animateOnce sel c d st in
  exists id,
    fst r = Normal (Some id)
    /\ Page.find_timer id (timers st) = None
    /\ timers (snd (Browser.clearTimeout id (snd r))) = timers st.
Proof.
  intros st Hq Hc r. exists (nextTimerId st).
  destruct (run_timers_scripted (load doc) inputs (load_timers_scripted doc))
    as (Hnext & Hall & Hnd).
  fold st in Hall, Hnd, Hnext.
  assert (Hfresh : Forall (fun t => timerId t ≠ nextTimerId st) (timers st)).
  { eapply Forall_impl; [exact Hall|]. simpl. intros t (Hid & _). lia. }
  unfold r. rewrite (animateOnce_found st sel c d el Hq Hc). simpl.
  split; [reflexivity|]. split.
  - destruct (Page.find_timer (nextTimerId st) (timers st)) as [t|] eqn:Hf;
      [|reflexivity].
    apply find_timer_Some in Hf. destruct Hf as [Ht Hid].
    rewrite Forall_forall in Hfresh. now apply Hfresh in Ht.
  - rewrite filter_app, (filter_all _ _ Hfresh).
    rewrite filter_cons_False by (simpl; intros H; now apply H).
    rewrite filter_nil. apply app_nil_r.
Qed.

Lemma animateOnce_handle_cancels_witness :
  let st := Page.run (load demo_page)
              [Page.Dispatch Page.DOMContentLoaded; Page.Dispatch (Page.click 10)] in
  let r := animateOnce "#animBox" "anim-pop" None st in
  exists id,
    fst r = Normal (Some id)
    /\ Page.find_timer id (timers st) = None
    /\ timers (snd (Browser.clearTimeout id (snd r))) = timers st.
Proof.
  apply (animateOnce_handle_cancels demo_page
           [Page.Dispatch Page.DOMContentLoaded; Page.Dispatch (Page.click 10)]
           "#animBox" "anim-pop" None 11%nat); reflexivity.
Defined.

End Timeouts.

(** ** What stays of an element *)

Section Kept.

Context {A : Type} (proj : DOM.Element -> A).

Lemma kept_refl st : kept proj st st.
Proof. intros h. reflexivity. Qed.

Lemma kept_trans s1 s2 s3 : kept proj s1 s2 -> kept proj s2 s3 -> kept proj s1 s3.
Proof. intros H12 H23 h. now rewrite H23, H12. Qed.

Lemma lookup_update_proj (f : DOM.Element -> DOM.Element) (doc : DOM.Document) h k :
  (forall e, proj (f e) = proj e) ->
  proj <$> DOM.update h f doc !! k = proj <$> doc !! k.
Proof.
  intros Hf. destruct (decide (h = k)) as [->|Hne].
  - rewrite lookup_update. destruct (doc !! k) as [e|]; simpl; [|reflexivity].
    now rewrite Hf.
  - now rewrite lookup_update_ne.
Qed.

Lemma lookup_fmap_proj (f : DOM.Element -> DOM.Element) (doc : DOM.Document) k :
  (forall e, proj (f e) = proj e) ->
  proj <$> (f <$> doc) !! k = proj <$> doc !! k.
Proof.
  intros Hf. rewrite list_lookup_fmap.
  destruct (doc !! k) as [e|]; simpl; [|reflexivity]. now rewrite Hf.
Qed.

Lemma kept_set_classList el (f : list string -> list string) :
  (forall e, proj (DOM.with_classList (f (DOM.classList e)) e) = proj e) ->
  keeps (kept proj) (Browser.set_classList el f).
Proof. intros Hf st k. simpl. now apply lookup_update_proj. Qed.

Lemma kept_setAttribute el name v :
  (forall e, proj (DOM.with_attributes (<[name := v]> (DOM.attributes e)) e)
             = proj e) ->
  keeps (kept proj) (Browser.setAttribute el name v).
Proof. intros Hf st k. simpl. now apply lookup_update_proj. Qed.

Lemma kept_set_textContent el t :
  (forall t e, proj (DOM.with_textContent t e) = proj e) ->
  (forall p e, proj (DOM.with_parentNode p e) = proj e) ->
  keeps (kept proj) (Browser.set_textContent el t).
Proof.
  intros Ht Hp st k. simpl. unfold DOM.set_textContent.
  rewrite lookup_update_proj by (intros e; apply Ht).
  apply lookup_fmap_proj. intros e. destruct (bool_decide _); [apply Hp|reflexivity].
Qed.

Lemma kept_flush_layout st :
  (forall r e, proj (DOM.with_rendered r e) = proj e) ->
  kept proj st (with_document (DOM.flush_layout (document st)) st).
Proof. intros Hr k. simpl. apply lookup_fmap_proj. intros e. apply Hr. Qed.

(** [proj] reads the same after every change of the page that leaves what
    it reads alone. *)
Lemma kept_footprint (adds removes attrs : string -> Prop) :
  (forall c e, adds c ->
     proj (DOM.with_classList (DOM.tokens_add c (DOM.classList e)) e) = proj e) ->
  (forall c e, removes c ->
     proj (DOM.with_classList (DOM.tokens_remove c (DOM.classList e)) e) = proj e) ->
  (forall name v e, attrs name ->
     proj (DOM.with_attributes (<[name := v]> (DOM.attributes e)) e) = proj e) ->
  (forall t e, proj (DOM.with_textContent t e) = proj e) ->
  (forall p e, proj (DOM.with_parentNode p e) = proj e) ->
  (forall r e, proj (DOM.with_rendered r e) = proj e) ->
  Footprint (kept proj) adds removes attrs.
Proof.
  intros Ha Hr Hat Ht Hp Hre. split.
  - apply kept_refl.
  - apply kept_trans.
  - intros el c Hc. apply kept_set_classList. intros e. now apply Ha.
  - intros el c Hc. apply kept_set_classList. intros e. now apply Hr.
  - intros el name v Hn. apply kept_setAttribute. intros e. now apply Hat.
  - intros el t. now apply kept_set_textContent.
  - intros el st. now apply kept_flush_layout.
  - intros t ty h _ st k. reflexivity.
Qed.

End Kept.

Lemma kept_hasClass s s' h c :
  kept DOM.classList s s' -> hasClass s' h c = hasClass s h c.
Proof.
  intros H. specialize (H h). unfold hasClass, classes.
  destruct (document s' !! h), (document s !! h); simpl in H; congruence.
Qed.

Lemma kept_classList_footprint :
  Footprint (kept DOM.classList) (fun _ => False) (fun _ => False) (fun _ => True).
Proof. apply kept_footprint; intros; try reflexivity; contradiction. Qed.

(** ** The animation class goes away *)

Section SelfCleaning.

Lemma hasClass_set_classList_inv st el (f : list string -> list string) h c :
  (forall l, DOM.tokens_contains c (f l) = true -> DOM.tokens_contains c l = true) ->
  hasClass (snd (Browser.set_classList el f st)) h c = true ->
  hasClass st h c = true.
Proof.
  intros Hf. unfold hasClass, classes. simpl.
  destruct (decide (el = h)) as [->|Hne].
  - rewrite lookup_update. destruct (document st !! h) as [e|]; simpl; [apply Hf|auto].
  - now rewrite lookup_update_ne.
Qed.

Lemma tokens_contains_remove_inv c c' l :
  DOM.tokens_contains c' (DOM.tokens_remove c l) = true ->
  DOM.tokens_contains c' l = true.
Proof.
  destruct (decide (c' = c)) as [->|Hne].
  - now rewrite tokens_contains_remove.
  - now rewrite tokens_contains_remove_ne.
Qed.

Lemma self_cleaning_footprint :
  Footprint (preserves self_cleaning)
            (fun c => c <> "anim-pop") (fun _ => True) (fun _ => True).
Proof.
  split.
  - intros st H. exact H.
  - intros s1 s2 s3 H12 H23 H. apply H23, H12, H.
  - intros el c Hc st H h Hh. apply (H h).
    eapply hasClass_set_classList_inv; [|exact Hh].
    intros l. now rewrite tokens_contains_add_ne by congruence.
  - intros el c _ st H h Hh. apply (H h).
    eapply hasClass_set_classList_inv; [|exact Hh].
    intros l. apply tokens_contains_remove_inv.
  - intros el name v _ st H h Hh. apply (H h).
    erewrite <- kept_hasClass; [exact Hh|]. now apply (fp_attr _ _ _ _ kept_classList_footprint).
  - intros el t st H h Hh. apply (H h).
    erewrite <- kept_hasClass; [exact Hh|]. apply (fp_text _ _ _ _ kept_classList_footprint).
  - intros el st H h Hh. apply (H h).
    erewrite <- kept_hasClass; [exact Hh|]. apply (fp_layout _ _ _ _ kept_classList_footprint).
  - intros t ty h _ st H. exact H.
Qed.

Lemma animateOnce_absent st sel c d :
  (forall el, DOM.querySelector (document st) sel <> Normal (Some el)) ->
  snd (animateOnce sel c d st) = st.
Proof.
  intros Hq. unfold animateOnce, Browser.querySelector, bind, get_document, lift.
  destruct (DOM.querySelector (document st) sel) as [[el|]|e]; try reflexivity.
  now destruct (Hq el).
Qed.

Lemma self_cleaning_animateOnce sel d :
  keeps (preserves self_cleaning) (animateOnce sel "anim-pop" d).
Proof.
  intros st H.
  destruct (DOM.querySelector (document st) sel) as [[el|]|e] eqn:Hq.
  - rewrite (animateOnce_found st sel "anim-pop" d el Hq eq_refl). simpl.
    intros h Hh. destruct (decide (h = el)) as [->|Hne].
    + exists (mkTimer (nextTimerId st)
                        (now st + Browser.timer_delay (default 700 d))
                        (RemoveClass el "anim-pop")).
      split; [|reflexivity].
      apply elem_of_app. right. apply list_elem_of_singleton. reflexivity.
    + unfold hasClass, classes in Hh. simpl in Hh.
      rewrite lookup_update_ne in Hh by congruence.
      unfold DOM.flush_layout in Hh.
      rewrite list_lookup_fmap, lookup_update_ne in Hh by congruence.
      destruct (H h) as (t & Ht & Hcb).
      { unfold hasClass, classes.
        destruct (document st !! h) as [e|]; [exact Hh|discriminate]. }
      exists t. split; [|exact Hcb]. simpl. apply elem_of_app. now left.
  - rewrite animateOnce_absent; [exact H|].
    intros el. rewrite Hq. discriminate.
  - rewrite animateOnce_absent; [exact H|].
    intros el. rewrite Hq. discriminate.
Qed.

Lemma all_within_self_cleaning h :
  handler_within (preserves self_cleaning)
    (fun c => c <> "anim-pop") (fun _ => True) (fun _ => True) h.
Proof.
  destruct h; simpl; auto; try (intuition discriminate).
  - intros st H. exact H.
  - apply self_cleaning_animateOnce.
  - apply self_cleaning_animateOnce.
Qed.

Lemma same_timerId (ts : list Timer) t t' :
  NoDup (timerId <$> ts) -> t ∈ ts -> t' ∈ ts -> timerId t = timerId t' -> t = t'.
Proof.
  intros Hnd Ht Ht' Hid.
  apply list_elem_of_lookup in Ht, Ht'. destruct Ht as [i Hi], Ht' as [j Hj].
  assert (i = j) as ->.
  { eapply NoDup_lookup; [exact Hnd| |].
    - rewrite list_lookup_fmap, Hi. reflexivity.
    - rewrite list_lookup_fmap, Hj. simpl. now rewrite Hid. }
  congruence.
Qed.

(** When a timeout fires, the element it cleans loses the class and the
    timeouts of the other elements stay pending. *)
Lemma self_cleaning_fire id st :
  timers_scripted st -> self_cleaning st -> self_cleaning (Page.fire id st).
Proof.
  intros (Hnext & Hall & Hnd) H. unfold Page.fire.
  destruct (Page.find_timer id (timers st)) as [t|] eqn:Hfind; [|exact H].
  destruct (due t <=? now st); [|exact H].
  apply find_timer_Some in Hfind. destruct Hfind as [Ht Hid].
  rewrite Forall_forall in Hall. destruct (Hall t Ht) as (_ & _ & el & Hcb).
  rewrite Hcb. simpl. intros h Hh.
  assert (Hne : h <> el).
  { intros ->. unfold hasClass, classes in Hh. simpl in Hh.
    rewrite lookup_update in Hh. destruct (document st !! el) as [e|]; simpl in Hh.
    - now rewrite tokens_contains_remove in Hh.
    - discriminate. }
  destruct (H h) as (t' & Ht' & Hcb').
  { unfold hasClass, classes in Hh |- *. simpl in Hh.
    now rewrite lookup_update_ne in Hh by congruence. }
  exists t'. split; [|exact Hcb']. simpl.
  apply list_elem_of_filter. split; [|exact Ht'].
  intros Hid'. apply Hne.
  assert (t' = t) as -> by (apply (same_timerId (timers st)); congruence).
  congruence.
Qed.

Lemma step_self_cleaning st i :
  timers_scripted st -> self_cleaning st -> self_cleaning (Page.step st i).
Proof.
  intros Ht. destruct i as [e|id|dt| |h v]; simpl.
  - apply (within_dispatch _ _ _ _ self_cleaning_footprint).
    apply Forall_forall. intros l _. apply all_within_self_cleaning.
  - now apply self_cleaning_fire.
  - intros H. exact H.
  - intros H k Hk. apply (H k). erewrite <- kept_hasClass; [exact Hk|].
    apply kept_flush_layout. reflexivity.
  - intros H k Hk. apply (H k). erewrite <- kept_hasClass; [exact Hk|].
    intros j. simpl. apply lookup_update_proj. reflexivity.
Qed.

Lemma run_self_cleaning st (inputs : list Page.Input) :
  timers_scripted st -> self_cleaning st -> self_cleaning (Page.run st inputs).
Proof.
  revert st. induction inputs as [|i inputs IH]; intros st Ht H; [exact H|].
  simpl. apply IH; [now apply step_timers_scripted|now apply step_self_cleaning].
Qed.

(** On a page that starts without the class [anim-pop], whatever
    happens, an element that has the class has a timeout pending that
    removes it, due at most 700 ms from now: the class never stays for
    good. *)
Theorem anim_pop_self_cleaning doc (inputs : list Page.Input) h :
  Forall (fun e => DOM.tokens_contains "anim-pop" (DOM.classList e) = false) doc ->
  let st := Page.run (load doc) inputs in
  hasClass st h "anim-pop" = true ->
  exists t,
    t ∈ timers st
    /\ callback t = RemoveClass h "anim-pop"
    /\ due t <= now st + 700.
Proof.
  intros Hdoc st Hh.
  assert (H0 : self_cleaning (load doc)).
  { intros k Hk. exfalso. unfold hasClass, classes in Hk. simpl in Hk.
    destruct (doc !! k) as [e|] eqn:He; [|discriminate].
    rewrite Forall_forall in Hdoc.
    apply list_elem_of_lookup_2 in He. apply Hdoc in He. congruence. }
  pose proof (run_timers_scripted (load doc) inputs (load_timers_scripted doc))
    as Ht.
  destruct (run_self_cleaning (load doc) inputs (load_timers_scripted doc) H0 h Hh)
    as (t & Hin & Hcb).
  exists t. split; [exact Hin|]. split; [exact Hcb|].
  destruct Ht as (_ & Hall & _). rewrite Forall_forall in Hall.
  now destruct (Hall t Hin) as (_ & Hdue & _).
Qed.

Lemma anim_pop_self_cleaning_witness :
  let st := Page.run (load demo_page)
              [Page.Dispatch Page.DOMContentLoaded; Page.Dispatch (Page.click 10);
               Page.Tick 300; Page.Dispatch (Page.click 11)] in
  hasClass st 11 "anim-pop" = true
  /\ exists t,
       t ∈ timers st
       /\ callback t = RemoveClass 11 "anim-pop"
       /\ due t <= now st + 700.
Proof.
  split; [reflexivity|].
  apply (anim_pop_self_cleaning demo_page
           [Page.Dispatch Page.DOMContentLoaded; Page.Dispatch (Page.click 10);
            Page.Tick 300; Page.Dispatch (Page.click 11)] 11%nat).
  - repeat constructor.
  - reflexivity.
Defined.

End SelfCleaning.

(** ** The classes and attributes the script leaves alone *)

Section Untouched.

Context {A : Type} (proj : DOM.Element -> A).
Variables adds removes attrs : string -> Prop.
Hypothesis HF : Footprint (kept proj) adds removes attrs.
Hypothesis Hclasses : forall c, c ∈ script_classes -> adds c /\ removes c.
Hypothesis Hattrs : forall n, n ∈ script_attributes -> attrs n.

Lemma kept_script_handlers h : handler_within (kept proj) adds removes attrs h.
Proof.
  assert (Hap : adds "anim-pop" /\ removes "anim-pop")
    by (apply Hclasses; repeat first [apply list_elem_of_here|apply list_elem_of_further]).
  assert (Hfl : adds "flipped" /\ removes "flipped")
    by (apply Hclasses; repeat first [apply list_elem_of_here|apply list_elem_of_further]).
  assert (Hsp : adds "spinning" /\ removes "spinning")
    by (apply Hclasses; repeat first [apply list_elem_of_here|apply list_elem_of_further]).
  assert (Hop : adds "open" /\ removes "open")
    by (apply Hclasses; repeat first [apply list_elem_of_here|apply list_elem_of_further]).
  assert (Hah : attrs "aria-hidden")
    by (apply Hattrs; repeat first [apply list_elem_of_here|apply list_elem_of_further]).
  assert (Hapr : attrs "aria-pressed")
    by (apply Hattrs; repeat first [apply list_elem_of_here|apply list_elem_of_further]).
  destruct h; simpl; try tauto.
  - intros st k. reflexivity.
  - apply (within_animateOnce _ _ _ _ HF); try tauto. intros el st k. reflexivity.
  - apply (within_animateOnce _ _ _ _ HF); try tauto. intros el st k. reflexivity.
Qed.

(** Every input but an edit, where the pending timeouts remove classes of
    [removes]. *)
Lemma kept_step st i :
  (forall t el c, t ∈ timers st -> callback t = RemoveClass el c -> removes c) ->
  (forall h v, i <> Page.Edit h v) ->
  kept proj st (Page.step st i).
Proof.
  intros Ht Hi. destruct i as [e|id|dt| |h v]; simpl.
  - apply (within_dispatch _ _ _ _ HF).
    apply Forall_forall. intros l _. apply kept_script_handlers.
  - apply (within_fire _ _ _ _ HF); [|exact Ht]. intros k s j. reflexivity.
  - intros k. reflexivity.
  - apply (fp_layout _ _ _ _ HF 0%nat st).
  - now destruct (Hi h v).
Qed.

End Untouched.

Section Shape.

Lemma hasClass_kept c s s' h :
  kept (fun e => DOM.tokens_contains c (DOM.classList e)) s s' ->
  hasClass s' h c = hasClass s h c.
Proof.
  intros H. specialize (H h). unfold hasClass, classes.
  destruct (document s' !! h), (document s !! h); simpl in H;
    try discriminate; [now injection H|reflexivity].
Qed.

Lemma getAttribute_kept n s s' h :
  kept (fun e => DOM.attribute e (DOM.to_lower n)) s s' ->
  getAttribute s' h n = getAttribute s h n.
Proof.
  intros H. specialize (H h). unfold getAttribute.
  destruct (document s' !! h), (document s !! h); simpl in H |- *;
    try discriminate; [now injection H|reflexivity].
Qed.

Lemma contains_footprint c :
  Footprint (kept (fun e => DOM.tokens_contains c (DOM.classList e)))
            (fun x => x <> c) (fun x => x <> c) (fun _ => True).
Proof.
  apply kept_footprint; try reflexivity.
  - intros x e Hx. simpl. apply tokens_contains_add_ne. congruence.
  - intros x e Hx. simpl. apply tokens_contains_remove_ne. congruence.
Qed.

(** An attribute other than [class] is as it was after every change of
    the classes, and after every setting of another attribute. *)
Lemma attribute_footprint n :
  n <> "class" ->
  Footprint (kept (fun e => DOM.attribute e n))
            (fun _ => True) (fun _ => True) (fun x => x <> n).
Proof.
  intros Hn.
  assert (Hcl : forall l e, DOM.attribute (DOM.with_classList l e) n
                            = DOM.attribute e n).
  { intros l e. unfold DOM.attribute.
    destruct (String.eqb n "id"); [reflexivity|].
    destruct (String.eqb_spec n "class") as [->|_]; [contradiction|reflexivity]. }
  apply kept_footprint; try reflexivity.
  - intros c e _. apply Hcl.
  - intros c e _. apply Hcl.
  - intros x v e Hx. unfold DOM.attribute. simpl.
    destruct (String.eqb n "id"); [reflexivity|].
    destruct (String.eqb n "class"); [reflexivity|].
    now apply lookup_insert_ne.
Qed.

Lemma kept_edit {A : Type} (proj : DOM.Element -> A) st h v :
  (forall e, proj (Page.with_value v e) = proj e) ->
  kept proj st (Page.step st (Page.Edit h v)).
Proof. intros H k. simpl. now apply lookup_update_proj. Qed.

Lemma run_contains_kept c st (inputs : list Page.Input) :
  c ∉ script_classes -> timers_scripted st ->
  kept (fun e => DOM.tokens_contains c (DOM.classList e)) st (Page.run st inputs).
Proof.
  intros Hc. revert st. induction inputs as [|i inputs IH]; intros st Ht.
  - apply kept_refl.
  - simpl. eapply kept_trans; [|apply IH, step_timers_scripted, Ht].
    destruct i as [e|id|dt| |h v]; try (now apply kept_edit);
      (eapply kept_step;
       [ apply contains_footprint
       | intros x Hx; split; intros ->; contradiction
       | intros x Hx; exact I
       | intros t el x Hin Hcb;
         destruct Ht as (_ & Hall & _); rewrite Forall_forall in Hall;
         destruct (Hall t Hin) as (_ & _ & el' & Hcb');
         assert (x = "anim-pop") as -> by congruence;
         intros <-; apply Hc; apply list_elem_of_here
       | discriminate ]).
Qed.

(** A class other than the four the script names is, at any time,
    on the elements the page started with it on: the script gives and
    takes no other class. *)
Theorem other_classes_untouched doc (inputs : list Page.Input) h c :
  c ∉ script_classes ->
  hasClass (Page.run (load doc) inputs) h c = hasClass (load doc) h c.
Proof.
  intros Hc. apply hasClass_kept, run_contains_kept; [exact Hc|].
  apply load_timers_scripted.
Qed.

Lemma other_classes_untouched_witness :
  let st := Page.run (load demo_page)
              [Page.Dispatch Page.DOMContentLoaded; Page.Dispatch (Page.click 10);
               Page.Tick 700; Page.Timeout 1] in
  hasClass st 11 "box" = hasClass (load demo_page) 11 "box".
Proof.
  apply (other_classes_untouched demo_page
           [Page.Dispatch Page.DOMContentLoaded; Page.Dispatch (Page.click 10);
            Page.Tick 700; Page.Timeout 1] 11%nat "box").
  apply (bool_decide_eq_false_1 _). reflexivity.
Defined.

Lemma run_attribute_kept n st (inputs : list Page.Input) :
  n ∉ "class" :: script_attributes ->
  kept (fun e => DOM.attribute e n) st (Page.run st inputs).
Proof.
  intros Hn.
  assert (Hclass : n <> "class") by (intros ->; apply Hn, list_elem_of_here).
  assert (Hscript : n ∉ script_attributes)
    by (intros H; apply Hn; now apply list_elem_of_further).
  revert st. induction inputs as [|i inputs IH]; intros st.
  - apply kept_refl.
  - simpl. eapply kept_trans; [|apply IH].
    destruct i as [e|id|dt| |h v]; try (now apply kept_edit);
      (eapply kept_step;
       [ now apply attribute_footprint
       | intros x Hx; split; exact I
       | intros x Hx; simpl; intros ->; contradiction
       | intros t el x Hin Hcb; exact I
       | discriminate ]).
Qed.

(** The script sets no attribute but [aria-hidden] and [aria-pressed],
    and of the others its changes of the classes reach [class] alone:
    every other attribute of every element, [id] among them, reads as it
    did, from any state and whatever happens.  The name is compared as
    [getAttribute] takes it, in lower case. *)
Theorem other_attributes_untouched st (inputs : list Page.Input) h n :
  DOM.to_lower n ∉ "class" :: script_attributes ->
  getAttribute (Page.run st inputs) h n = getAttribute st h n.
Proof. intros Hn. now apply getAttribute_kept, run_attribute_kept. Qed.

Lemma other_attributes_untouched_witness :
  let st := with_document
              [markup "html" "" [] [] None;
               markup "div" "demoModal" ["modal"] [("role", "dialog")] (Some 0%nat);
               markup "button" "openModalBtn" [] [] (Some 0%nat)]
              (mkState 0 []
                 [mkListener (Node 2) "click" OnOpenModalBtnClick] [] 1 0) in
  let st' := Page.run st [Page.Dispatch (Page.click 2)] in
  getAttribute st' 1 "aria-hidden" = Some "false"
  /\ getAttribute st' 1 "class" = Some "modal open"
  /\ getAttribute st' 1 "Role" = getAttribute st 1 "Role"
  /\ getAttribute st 1 "Role" = Some "dialog".
Proof.
  split; [reflexivity|]. split; [reflexivity|]. split; [|reflexivity].
  apply (other_attributes_untouched
           (with_document
              [markup "html" "" [] [] None;
               markup "div" "demoModal" ["modal"] [("role", "dialog")] (Some 0%nat);
               markup "button" "openModalBtn" [] [] (Some 0%nat)]
              (mkState 0 []
                 [mkListener (Node 2) "click" OnOpenModalBtnClick] [] 1 0))
           [Page.Dispatch (Page.click 2)] 1%nat "Role").
  apply (bool_decide_eq_false_1 _). reflexivity.
Defined.












End Shape.

(** ** Who gives a class and who takes it *)

Section GivenAndTaken.

Lemma no_class_gained_footprint c :
  Footprint (no_class_gained c) (fun x => x <> c) (fun _ => True) (fun _ => True).
Proof.
  split.
  - intros st h H. exact H.
  - intros s1 s2 s3 H12 H23 h H. apply H12, H23, H.
  - intros el x Hx st h Hh.
    eapply hasClass_set_classList_inv; [|exact Hh].
    intros l. now rewrite tokens_contains_add_ne by congruence.
  - intros el x _ st h Hh.
    eapply hasClass_set_classList_inv; [|exact Hh].
    intros l. apply tokens_contains_remove_inv.
  - intros el name v _ st h Hh.
    erewrite <- kept_hasClass; [exact Hh|].
    now apply (fp_attr _ _ _ _ kept_classList_footprint).
  - intros el t st h Hh.
    erewrite <- kept_hasClass; [exact Hh|].
    apply (fp_text _ _ _ _ kept_classList_footprint).
  - intros el st h Hh.
    erewrite <- kept_hasClass; [exact Hh|].
    apply (fp_layout _ _ _ _ kept_classList_footprint).
  - intros t ty h _ st k H. exact H.
Qed.

Lemma within_no_class_gained c h :
  c ∉ handler_adds h ->
  handler_within (no_class_gained c) (fun x => x <> c) (fun _ => True)
                 (fun _ => True) h.
Proof.
  intros Hc.
  assert (Hne : forall x, handler_adds h = [x] -> x <> c).
  { intros x Hx ->. apply Hc. rewrite Hx. apply list_elem_of_here. }
  destruct h; simpl; auto.
  - intros st k H. exact H.
  - apply (within_animateOnce _ _ _ _ (no_class_gained_footprint c)); auto.
    intros el st k H. exact H.
  - apply (within_animateOnce _ _ _ _ (no_class_gained_footprint c)); auto.
    intros el st k H. exact H.
Qed.

(** An element gets a class it did not have only when a listener that
    names this class runs: [anim-pop] on a click that reaches lines 144 or
    149, [flipped] one of lines 156 and 163, [spinning] line 173, [open]
    line 186.  Nothing else that happens gives an element a class. *)
Theorem class_given_by_listener st (i : Page.Input) k c :
  hasClass st k c = false ->
  hasClass (Page.step st i) k c = true ->
  exists e this h,
    i = Page.Dispatch e /\ (this, h) ∈ Page.invoked e st /\ c ∈ handler_adds h.
Proof.
  intros Hbefore Hafter.
  assert (Hcontra : no_class_gained c st (Page.step st i) -> False).
  { intros H. apply H in Hafter. congruence. }
  destruct i as [e|id|dt| |h v].
  - destruct (decide (Exists (fun l => c ∈ handler_adds (snd l))
                             (Page.invoked e st))) as [Hex|Hall].
    + apply Exists_exists in Hex. destruct Hex as ([this h] & Hin & Hc).
      exists e, this, h. auto.
    + exfalso. apply Hcontra. simpl.
      apply (within_dispatch _ _ _ _ (no_class_gained_footprint c)).
      apply Forall_forall. intros l Hl. apply within_no_class_gained.
      intros Hc. apply Hall, Exists_exists. exists l. auto.
  - exfalso. apply Hcontra. simpl.
    apply (within_fire _ _ _ _ (no_class_gained_footprint c)); [|auto].
    intros j s x H. exact H.
  - exfalso. apply Hcontra. intros x H. exact H.
  - exfalso. apply Hcontra. apply (fp_layout _ _ _ _ (no_class_gained_footprint c) 0%nat).
  - exfalso. apply Hcontra. intros x H.
    erewrite <- kept_hasClass; [exact H|]. now apply kept_edit.
Qed.

Lemma class_given_by_listener_witness :
  let st := demo_wired in
  let i := Page.Dispatch (Page.click 17) in
  hasClass st 18 "open" = false
  /\ hasClass (Page.step st i) 18 "open" = true
  /\ exists e this h,
       i = Page.Dispatch e /\ (this, h) ∈ Page.invoked e st
       /\ "open" ∈ handler_adds h.
Proof.
  split; [reflexivity|]. split; [reflexivity|].
  apply (class_given_by_listener demo_wired (Page.Dispatch (Page.click 17))
           18%nat "open"); reflexivity.
Defined.

Lemma hasClass_set_classList_mono st el (f : list string -> list string) h c :
  (forall l, DOM.tokens_contains c l = true -> DOM.tokens_contains c (f l) = true) ->
  hasClass st h c = true ->
  hasClass (snd (Browser.set_classList el f st)) h c = true.
Proof.
  intros Hf. unfold hasClass, classes. simpl.
  destruct (decide (el = h)) as [->|Hne].
  - rewrite lookup_update. destruct (document st !! h) as [e|]; simpl; [apply Hf|auto].
  - now rewrite lookup_update_ne.
Qed.

Lemma no_class_lost_footprint c :
  Footprint (no_class_lost c) (fun _ => True) (fun x => x <> c) (fun _ => True).
Proof.
  split.
  - intros st h H. exact H.
  - intros s1 s2 s3 H12 H23 h H. apply H23, H12, H.
  - intros el x _ st h Hh.
    apply hasClass_set_classList_mono; [|exact Hh].
    intros l Hl. destruct (decide (c = x)) as [->|Hne].
    + apply tokens_contains_add.
    + now rewrite tokens_contains_add_ne.
  - intros el x Hx st h Hh.
    apply hasClass_set_classList_mono; [|exact Hh].
    intros l. now rewrite tokens_contains_remove_ne by congruence.
  - intros el name v _ st h Hh.
    erewrite kept_hasClass; [exact Hh|].
    now apply (fp_attr _ _ _ _ kept_classList_footprint).
  - intros el t st h Hh.
    erewrite kept_hasClass; [exact Hh|].
    apply (fp_text _ _ _ _ kept_classList_footprint).
  - intros el st h Hh.
    erewrite kept_hasClass; [exact Hh|].
    apply (fp_layout _ _ _ _ kept_classList_footprint).
  - intros t ty h _ st k H. exact H.
Qed.

(** [animateOnce] takes its class from the element only to give it
    back. *)
Lemma no_class_lost_animateOnce sel c d x :
  DOM.token_error c = None -> keeps (no_class_lost x) (animateOnce sel c d).
Proof.
  intros Hc st h Hh.
  destruct (DOM.querySelector (document st) sel) as [[el|]|e] eqn:Hq.
  - rewrite (animateOnce_found st sel c d el Hq Hc). simpl.
    unfold hasClass, classes in Hh |- *. simpl.
    destruct (decide (h = el)) as [->|Hne].
    + rewrite lookup_update. unfold DOM.flush_layout.
      rewrite list_lookup_fmap, lookup_update.
      destruct (document st !! el) as [e|]; simpl in *; [|exact Hh].
      destruct (decide (x = c)) as [->|Hne].
      * apply tokens_contains_add.
      * rewrite tokens_contains_add_ne, tokens_contains_remove_ne by exact Hne.
        exact Hh.
    + rewrite lookup_update_ne by congruence. unfold DOM.flush_layout.
      rewrite list_lookup_fmap, lookup_update_ne by congruence.
      destruct (document st !! h) as [e|]; simpl in *; exact Hh.
  - rewrite animateOnce_absent; [exact Hh|]. intros el. rewrite Hq. discriminate.
  - rewrite animateOnce_absent; [exact Hh|]. intros el. rewrite Hq. discriminate.
Qed.

Lemma within_no_class_lost c e l :
  c ∉ listener_takes e l ->
  listener_within (no_class_lost c) (fun _ => True) (fun x => x <> c)
                  (fun _ => True) e l.
Proof.
  destruct l as [this h]. unfold listener_takes, listener_within. cbn [fst snd].
  intros Hc. destruct h; cbn [handler_within].
  - exact I.
  - exact I.
  - exact I.
  - intros st k H. exact H.
  - now apply no_class_lost_animateOnce.
  - now apply no_class_lost_animateOnce.
  - split; [exact I|split; [|exact I]]. intros <-. apply Hc, list_elem_of_here.
  - split; [exact I|split; [|exact I]]. intros <-. apply Hc, list_elem_of_here.
  - split; exact I.
  - split; [|exact I]. intros <-. apply Hc, list_elem_of_here.
  - split; exact I.
  - split; [|exact I]. intros <-. apply Hc, list_elem_of_here.
  - intros Ht. rewrite bool_decide_eq_true_2 in Hc by exact Ht.
    split; [|exact I]. intros <-. apply Hc, list_elem_of_here.
  - intros Hk. rewrite bool_decide_eq_true_2 in Hc by exact Hk.
    split; [|exact I]. intros <-. apply Hc, list_elem_of_here.
Qed.

(** A timeout that fires takes at most its class from its element. *)
Lemma fire_takes id st k c :
  hasClass st k c = true ->
  hasClass (Page.fire id st) k c = false ->
  exists t,
    Page.find_timer id (timers st) = Some t
    /\ callback t = RemoveClass k c /\ due t <= now st.
Proof.
  intros Hbefore Hafter. unfold Page.fire in Hafter.
  destruct (Page.find_timer id (timers st)) as [t|] eqn:Hfind; [|congruence].
  destruct (due t <=? now st) eqn:Hdue; [|congruence].
  exists t. split; [reflexivity|]. split; [|lia].
  destruct (callback t) as [el x] eqn:Hcb. simpl in Hafter.
  unfold Browser.classList_remove, Browser.check_token, bind in Hafter.
  destruct (DOM.token_error x); simpl in Hafter;
    [unfold hasClass, classes in Hafter, Hbefore; simpl in Hafter; congruence|].
  destruct (decide (el = k)) as [->|Hne]; [destruct (decide (x = c)) as [->|Hne]|].
  - reflexivity.
  - exfalso. unfold hasClass, classes in Hafter, Hbefore. simpl in Hafter.
    rewrite lookup_update in Hafter.
    destruct (document st !! k) as [e|]; simpl in Hafter; [|congruence].
    rewrite tokens_contains_remove_ne in Hafter by congruence. congruence.
  - exfalso. unfold hasClass, classes in Hafter, Hbefore. simpl in Hafter.
    rewrite lookup_update_ne in Hafter by exact Hne. congruence.
Qed.

(** An element loses a class only when the timeout of an animation
    removes it (lines 83-85), or when a listener that takes this class
    runs: [flipped] at lines 156 and 163, [spinning] at line 177, [open] at
    line 189, at line 194 when the click is on the modal itself, and at
    line 199 when the key is Escape.  Starting an animation anew never
    leaves the element without the class. *)
Theorem class_taken_by_listener_or_timeout st (i : Page.Input) k c :
  hasClass st k c = true ->
  hasClass (Page.step st i) k c = false ->
  (exists id t,
     i = Page.Timeout id /\ Page.find_timer id (timers st) = Some t
     /\ callback t = RemoveClass k c /\ due t <= now st)
  \/ (exists e l,
        i = Page.Dispatch e /\ l ∈ Page.invoked e st /\ c ∈ listener_takes e l).
Proof.
  intros Hbefore Hafter.
  assert (Hcontra : no_class_lost c st (Page.step st i) -> False).
  { intros H. apply H in Hbefore. congruence. }
  destruct i as [e|id|dt| |h v].
  - right.
    destruct (decide (Exists (fun l => c ∈ listener_takes e l)
                             (Page.invoked e st))) as [Hex|Hall].
    + apply Exists_exists in Hex. destruct Hex as (l & Hin & Hc).
      exists e, l. auto.
    + exfalso. apply Hcontra. simpl.
      apply (within_dispatch_guarded _ _ _ _ (no_class_lost_footprint c)).
      apply Forall_forall. intros l Hl. apply within_no_class_lost.
      intros Hc. apply Hall, Exists_exists. exists l. auto.
  - left. destruct (fire_takes id st k c Hbefore Hafter) as (t & Ht).
    exists id, t. auto.
  - exfalso. apply Hcontra. intros x H. exact H.
  - exfalso. apply Hcontra.
    apply (fp_layout _ _ _ _ (no_class_lost_footprint c) 0%nat).
  - exfalso. apply Hcontra. intros x H.
    erewrite kept_hasClass; [exact H|]. now apply kept_edit.
Qed.

Lemma class_taken_by_listener_or_timeout_witness :
  let st := Page.run (load demo_page)
              [Page.Dispatch Page.DOMContentLoaded; Page.Dispatch (Page.click 17)] in
  let i := Page.Dispatch (Page.click 18) in
  hasClass st 18 "open" = true
  /\ hasClass (Page.step st i) 18 "open" = false
  /\ ((exists id t,
         i = Page.Timeout id /\ Page.find_timer id (timers st) = Some t
         /\ callback t = RemoveClass 18 "open" /\ due t <= now st)
      \/ (exists e l,
            i = Page.Dispatch e /\ l ∈ Page.invoked e st
            /\ "open" ∈ listener_takes e l)).
Proof.
  split; [reflexivity|]. split; [reflexivity|].
  apply (class_taken_by_listener_or_timeout
           (Page.run (load demo_page)
              [Page.Dispatch Page.DOMContentLoaded; Page.Dispatch (Page.click 17)])
           (Page.Dispatch (Page.click 18)) 18%nat "open"); reflexivity.
Defined.

End GivenAndTaken.

(** ** Sums *)

Section Sums.

Lemma number_add_comm (x y : JS.number) : JS.number_add x y = JS.number_add y x.
Proof.
  unfold JS.number_add.
  destruct x as [sx|sx| |sx mx ex], y as [sy|sy| |sy my ey];
    try reflexivity; try (destruct sx, sy; reflexivity).
  unfold SFadd. rewrite (Z.min_comm ex ey). f_equal. apply Z.add_comm.
Qed.

(** [add] does not depend on the order of its arguments, neither in
    what it returns nor in whether it throws. *)
Theorem add_comm a b st : add a b st = add b a st.
Proof.
  unfold add, bind, lift, ret.
  destruct (JS.Number a) as [x|e] eqn:Ha, (JS.Number b) as [y|e'] eqn:Hb;
    try reflexivity.
  - now rewrite number_add_comm.
  - destruct a; try discriminate. destruct b; try discriminate.
    injection Ha as <-. injection Hb as <-. reflexivity.
Qed.

Lemma digits_le p q : (p <= q)%positive -> Z.pos (digits2_pos p) <= Z.pos (digits2_pos q).
Proof.
  intros Hpq. rewrite !digits2_pos_size.
  pose proof (Pos.size_gt q) as Hq. pose proof (Pos.size_le p) as Hp.
  destruct (Z.le_gt_cases (Z.pos (Pos.size p)) (Z.pos (Pos.size q))) as [H|H];
    [exact H|exfalso].
  apply Pos2Z.pos_lt_pos in Hq. apply Pos2Z.pos_le_pos in Hp.
  rewrite Pos2Z.inj_pow in Hq, Hp.
  assert (H2 : 2 ^ (Z.pos (Pos.size q) + 1) <= 2 ^ Z.pos (Pos.size p))
    by (apply Z.pow_le_mono_r; lia).
  rewrite Z.pow_add_r, Z.pow_1_r in H2 by lia. lia.
Qed.

Lemma number_add_pos p q :
  Z.pos p + Z.pos q < 2 ^ 53 ->
  JS.number_add (JS.number_of_Z (Z.pos p)) (JS.number_of_Z (Z.pos q))
  = JS.number_of_Z (Z.pos p + Z.pos q).
Proof.
  intros Hs.
  pose proof (digits_bound p ltac:(lia)) as Hdp.
  pose proof (digits_bound q ltac:(lia)) as Hdq.
  pose proof (digits_bound (p + q) ltac:(lia)) as Hds.
  pose proof (digits_le p (p + q) ltac:(lia)) as Hps.
  pose proof (digits_le q (p + q) ltac:(lia)) as Hqs.
  change (Z.pos p + Z.pos q) with (Z.pos (p + q)).
  rewrite (number_of_Zpos p), (number_of_Zpos q), (number_of_Zpos (p + q)) by lia.
  unfold JS.number_add, SFadd.
  set (ez := Z.min (Z.pos (digits2_pos p) - 53) (Z.pos (digits2_pos q) - 53)).
  rewrite !shl_align_le by lia. cbn [fst cond_Zopp].
  rewrite !shift_shift.
  replace (Z.to_nat (Z.pos (digits2_pos p) - 53 - ez)
           + Z.to_nat (53 - Z.pos (digits2_pos p)))%nat
    with (Z.to_nat (- ez)) by lia.
  replace (Z.to_nat (Z.pos (digits2_pos q) - 53 - ez)
           + Z.to_nat (53 - Z.pos (digits2_pos q)))%nat
    with (Z.to_nat (- ez)) by lia.
  assert (Hsum : Z.pos (shift p (Z.to_nat (- ez))) + Z.pos (shift q (Z.to_nat (- ez)))
                 = Z.pos (shift (p + q) (Z.to_nat (- ez)))).
  { rewrite !Zpos_shift. lia. }
  rewrite Hsum. unfold binary_normalize, binary_round.
  rewrite digits_shift. rewrite fexp_small by lia.
  rewrite shl_align_ge by lia.
  replace (Z.to_nat (- ez))
    with (Z.to_nat (Z.pos (digits2_pos (p + q)) - 53 - ez)
          + Z.to_nat (53 - Z.pos (digits2_pos (p + q))))%nat at 1 by lia.
  rewrite <- shift_shift. rewrite binary_round_aux_shift.
  - f_equal. lia.
  - rewrite digits_shift. lia.
  - lia.
Qed.

(** On integers from 0 whose sum is below [2^53], [add] returns the
    integer sum, exactly. *)
Theorem add_integers (x y : Z) st :
  0 <= x -> 0 <= y -> x + y < 2 ^ 53 ->
  add (JS.VNumber (JS.number_of_Z x)) (JS.VNumber (JS.number_of_Z y)) st
  = (Normal (JS.number_of_Z (x + y)), st).
Proof.
  intros Hx Hy Hs. unfold add, bind, lift, ret. simpl. do 2 f_equal.
  destruct x as [|p|p]; [|destruct y as [|q|q]|]; try lia.
  - change (JS.number_of_Z 0) with (S754_zero false). simpl.
    destruct y as [|q|q]; try lia; [reflexivity|].
    rewrite Z.add_0_l, (number_of_Zpos q) by lia. reflexivity.
  - change (JS.number_of_Z 0) with (S754_zero false). rewrite Z.add_0_r.
    rewrite (number_of_Zpos p) by lia. reflexivity.
  - now apply number_add_pos.
Qed.

Lemma add_integers_witness :
  add (JS.VNumber (JS.number_of_Z 4503599627370496))
      (JS.VNumber (JS.number_of_Z 4503599627370495)) (load demo_page)
  = (Normal (JS.number_of_Z 9007199254740991), load demo_page).
Proof.
  apply (add_integers 4503599627370496 4503599627370495 (load demo_page)); lia.
Defined.

End Sums.

(** ** When the wiring goes through *)

Section WiringThrough.

Ltac wire_state :=
  cbn [document with_listeners listeners fst snd globalCounter timers
       nextTimerId now].

(** The body of the DOMContentLoaded listener runs to its end exactly
    when the page has the twelve elements it registers a listener on;
    the elements it only reads or writes later (the two inputs, the three
    outputs, the spinner) are not needed.  Otherwise it throws a TypeError.
    Either way it changes nothing but the list of listeners, to which it
    adds thirteen when it runs to its end and fewer when it throws. *)
Theorem wire_succeeds_iff st :
  let r := wire st in
  (fst r = Normal tt
   <-> Forall (fun i => is_Some (DOM.getElementById (document st) i)) listened_ids)
  /\ (fst r = Normal tt \/ fst r = Throw TypeError)
  /\ exists new,
       snd r = with_listeners (listeners st ++ new) st
       /\ (length new <= 13)%nat
       /\ (length new = 13%nat <-> fst r = Normal tt).
Proof.
  destruct st as [c doc ls ts n t].
  cbv beta iota zeta delta
    [wire listen deref bind ret throw Browser.getElementById
     Browser.addEventListener get_document listened_ids].
  wire_state. rewrite !Forall_cons. cbv beta.
  assert (Hno : ~ is_Some (@None nat)) by (intros [x Hx]; discriminate).
  assert (Hyes : forall x : nat, is_Some (Some x)) by (intros x; now exists x).
  destruct (DOM.getElementById doc "addBtn") as [h1|]; cbv beta iota; wire_state;
    [|split; [split; [intros H; discriminate H|tauto]|split; [now right|];
      exists []; rewrite app_nil_r; split; [reflexivity|];
      split; [simpl; lia|split; intros H; discriminate H]]].
  destruct (DOM.getElementById doc "incLocal") as [h2|]; cbv beta iota; wire_state;
    [|split; [split; [intros H; discriminate H|tauto]|split; [now right|];
      rewrite <- ?app_assoc;
      eexists; split; [reflexivity|]; split; [simpl; lia|split; intros H; discriminate H]]].
  destruct (DOM.getElementById doc "incGlobal") as [h3|]; cbv beta iota; wire_state;
    [|split; [split; [intros H; discriminate H|tauto]|split; [now right|];
      rewrite <- ?app_assoc;
      eexists; split; [reflexivity|]; split; [simpl; lia|split; intros H; discriminate H]]].
  destruct (DOM.getElementById doc "animateBoxBtn") as [h4|]; cbv beta iota; wire_state;
    [|split; [split; [intros H; discriminate H|tauto]|split; [now right|];
      rewrite <- ?app_assoc;
      eexists; split; [reflexivity|]; split; [simpl; lia|split; intros H; discriminate H]]].
  destruct (DOM.getElementById doc "animBox") as [h5|]; cbv beta iota; wire_state;
    [|split; [split; [intros H; discriminate H|tauto]|split; [now right|];
      rewrite <- ?app_assoc;
      eexists; split; [reflexivity|]; split; [simpl; lia|split; intros H; discriminate H]]].
  destruct (DOM.getElementById doc "flipBtn") as [h6|]; cbv beta iota; wire_state;
    [|split; [split; [intros H; discriminate H|tauto]|split; [now right|];
      rewrite <- ?app_assoc;
      eexists; split; [reflexivity|]; split; [simpl; lia|split; intros H; discriminate H]]].
  destruct (DOM.getElementById doc "flipCard") as [h7|]; cbv beta iota; wire_state;
    [|split; [split; [intros H; discriminate H|tauto]|split; [now right|];
      rewrite <- ?app_assoc;
      eexists; split; [reflexivity|]; split; [simpl; lia|split; intros H; discriminate H]]].
  destruct (DOM.getElementById doc "startSpin") as [h8|]; cbv beta iota; wire_state;
    [|split; [split; [intros H; discriminate H|tauto]|split; [now right|];
      rewrite <- ?app_assoc;
      eexists; split; [reflexivity|]; split; [simpl; lia|split; intros H; discriminate H]]].
  destruct (DOM.getElementById doc "stopSpin") as [h9|]; cbv beta iota; wire_state;
    [|split; [split; [intros H; discriminate H|tauto]|split; [now right|];
      rewrite <- ?app_assoc;
      eexists; split; [reflexivity|]; split; [simpl; lia|split; intros H; discriminate H]]].
  destruct (DOM.getElementById doc "openModalBtn") as [h10|]; cbv beta iota; wire_state;
    [|split; [split; [intros H; discriminate H|tauto]|split; [now right|];
      rewrite <- ?app_assoc;
      eexists; split; [reflexivity|]; split; [simpl; lia|split; intros H; discriminate H]]].
  destruct (DOM.getElementById doc "closeModalBtn") as [h11|]; cbv beta iota; wire_state;
    [|split; [split; [intros H; discriminate H|tauto]|split; [now right|];
      rewrite <- ?app_assoc;
      eexists; split; [reflexivity|]; split; [simpl; lia|split; intros H; discriminate H]]].
  destruct (DOM.getElementById doc "demoModal") as [h12|]; cbv beta iota; wire_state;
    [|split; [split; [intros H; discriminate H|tauto]|split; [now right|];
      rewrite <- ?app_assoc;
      eexists; split; [reflexivity|]; split; [simpl; lia|split; intros H; discriminate H]]].
  split; [split; [intros _; repeat split; auto|reflexivity]|].
  split; [now left|].
  rewrite <- ?app_assoc. eexists. split; [reflexivity|].
  split; [simpl; lia|split; reflexivity].
Qed.

End WiringThrough.

(** ** The card and the spinner *)

Section CardAndSpinner.

(** A click on the flip button, while the card is the element its id
    finds, turns the card over: the class [flipped] is there after the
    click exactly when it was not before, [aria-pressed] says whether it is
    there, and the card is still found by its id, so the next click turns
    it back.  A click on the card itself does the same. *)
Theorem flip_click st card this (e : Event) :
  DOM.getElementById (document st) "flipCard" = Some card ->
  let r := run_handler (OnFlipBtnClick (Some card)) this e st in
  fst r = Normal tt
  /\ hasClass (snd r) card "flipped" = negb (hasClass st card "flipped")
  /\ getAttribute (snd r) card "aria-pressed"
     = Some (JS.BooleanToString (hasClass (snd r) card "flipped"))
  /\ DOM.getElementById (document (snd r)) "flipCard" = Some card
  /\ run_handler (OnFlipCardClick (Some card)) this e st = r.
Proof.
  intros Hid r.
  assert (Hq : DOM.querySelector (document st) "#flipCard" = Normal (Some card))
    by (rewrite querySelector_flipCard; now f_equal).
  destruct (getElementById_Some _ _ _ Hid) as [e0 He0].
  set (f := fun x =>
              DOM.with_attributes
                (<["aria-pressed" :=
                     JS.BooleanToString (negb (hasClass st card "flipped"))]>
                   (DOM.attributes x))
                (DOM.with_classList
                   ((if hasClass st card "flipped"
                     then DOM.tokens_remove "flipped"
                     else DOM.tokens_add "flipped") (DOM.classList x)) x)).
  set (st' := with_document (DOM.update card f (document st)) st).
  assert (Hr : r = (Normal tt, st')).
  { unfold r. simpl. unfold bind at 1.
    rewrite (toggleClass_found st "#flipCard" "flipped" card Hq eq_refl).
    unfold bind, deref, ret, Browser.setAttribute, modify_document. simpl.
    now rewrite with_document_twice, update_twice. }
  rewrite Hr. cbn [fst snd]. split; [reflexivity|].
  assert (Hcls : hasClass st' card "flipped" = negb (hasClass st card "flipped")).
  { unfold hasClass at 1. unfold st'. rewrite classes_update, He0. unfold f. simpl.
    destruct (hasClass st card "flipped").
    - apply tokens_contains_remove.
    - apply tokens_contains_add. }
  split; [exact Hcls|]. split; [|split].
  - rewrite Hcls. unfold st'. rewrite getAttribute_update, He0 by easy. unfold f. simpl.
    apply lookup_insert_eq.
  - unfold st'. simpl.
    rewrite getElementById_update; [exact Hid| |]; intros x; reflexivity.
  - rewrite <- Hr. reflexivity.
Qed.

Lemma flip_click_witness :
  let st := demo_wired in
  let r := run_handler (OnFlipBtnClick (Some 13%nat)) (Node 12) (Page.click 12) st in
  fst r = Normal tt
  /\ hasClass (snd r) 13 "flipped" = negb (hasClass st 13 "flipped")
  /\ getAttribute (snd r) 13 "aria-pressed"
     = Some (JS.BooleanToString (hasClass (snd r) 13 "flipped"))
  /\ DOM.getElementById (document (snd r)) "flipCard" = Some 13%nat
  /\ run_handler (OnFlipCardClick (Some 13%nat)) (Node 12) (Page.click 12) st = r.
Proof.
  apply (flip_click demo_wired 13%nat (Node 12) (Page.click 12)). reflexivity.
Defined.









End CardAndSpinner.

(** ** The counter and the sum on the page *)

Section Outputs.

Lemma bind_normal {A B : Type} (m : M A) (k : A -> M B) st a st' :
  m st = (Normal a, st') -> bind m k st = k a st'.
Proof. intros H. unfold bind. now rewrite H. Qed.

Lemma bind_throw {A B : Type} (m : M A) (k : A -> M B) st x st' :
  m st = (Throw x, st') -> bind m k st = (Throw x, st').
Proof. intros H. unfold bind. now rewrite H. Qed.

Lemma textOf_set_textContent st out t :
  is_Some (document st !! out) ->
  textOf (snd (Browser.set_textContent out t st)) out = Some t.
Proof.
  intros [e0 He0]. unfold textOf. simpl. unfold DOM.set_textContent.
  rewrite lookup_update, list_lookup_fmap, He0. reflexivity.
Qed.

(** A click on the global button counts, whether or not the page has
    the paragraph that shows the count: without it the listener throws a
    TypeError after the counter has gone up, and the document is as it
    was.  With it, the paragraph shows the counter as it now is. *)
Theorem incGlobal_click st (globalOut : Ref) this (e : Event) :
  let r := run_handler (OnIncGlobalClick globalOut) this e st in
  globalCounter (snd r) = JS.integer_add (globalCounter st) 1
  /\ listeners (snd r) = listeners st /\ timers (snd r) = timers st
  /\ (globalOut = None ->
      fst r = Throw TypeError /\ document (snd r) = document st)
  /\ (forall out, globalOut = Some out ->
        fst r = Normal tt
        /\ (is_Some (document st !! out) ->
            textOf (snd r) out
            = Some ("globalCounter is now: "
                    ++ JS.NumberToString (JS.number_of_Z (globalCounter (snd r)))))).
Proof.
  intros r. unfold r. destruct globalOut as [out|]; simpl;
    unfold bind, incrementGlobal, deref, ret, throw; simpl.
  - split; [reflexivity|]. split; [reflexivity|]. split; [reflexivity|].
    split; [discriminate|]. intros out' [= <-]. split; [reflexivity|].
    intros Hout.
    apply (textOf_set_textContent
             (with_globalCounter (JS.integer_add (globalCounter st) 1) st) out).
    exact Hout.
  - split; [reflexivity|]. split; [reflexivity|]. split; [reflexivity|].
    split; [auto|]. intros out [=].
Qed.

(** A click on the add button with the two fields and the output on
    the page never throws: the output shows "result: " and the sum [add]
    returns for the values of the fields, which is NaN as soon as one of
    them does not read as a number, and 0 when both are empty.  Without
    one of the three elements the listener throws a TypeError and changes
    nothing. *)
Theorem add_click st n1 n2 out this (e : Event) :
  is_Some (document st !! n1) -> is_Some (document st !! n2) ->
  is_Some (document st !! out) ->
  let r := run_handler (OnAddClick (Some n1) (Some n2) (Some out)) this e st in
  exists sum,
    add (valueOf st n1) (valueOf st n2) st = (Normal sum, st)
    /\ fst r = Normal tt
    /\ textOf (snd r) out = Some ("result: " ++ JS.NumberToString sum)
    /\ (JS.Number (valueOf st n1) = Normal JS.NaN
        \/ JS.Number (valueOf st n2) = Normal JS.NaN ->
        textOf (snd r) out = Some "result: NaN")
    /\ (valueOf st n1 = JS.VString "" -> valueOf st n2 = JS.VString "" ->
        textOf (snd r) out = Some "result: 0")
    /\ globalCounter (snd r) = globalCounter st
    /\ (forall a b c, a = None \/ b = None \/ c = None ->
          run_handler (OnAddClick a b c) this e st = (Throw TypeError, st)).
Proof.
  intros [e1 He1] [e2 He2] Hout r.
  assert (Hv : forall h e0, document st !! h = Some e0 ->
                 exists s, JS.Number (valueOf st h) = Normal s
                 /\ Browser.get_value h st = (Normal (valueOf st h), st)).
  { intros h e0 He0. unfold valueOf, Browser.get_value, element, bind, get_document.
    rewrite He0. simpl. destruct (DOM.value e0); simpl; eauto. }
  destruct (Hv n1 e1 He1) as (x & Hx & Hg1).
  destruct (Hv n2 e2 He2) as (y & Hy & Hg2).
  assert (Hadd : add (valueOf st n1) (valueOf st n2) st
                 = (Normal (JS.number_add x y), st)).
  { unfold add, bind, lift, ret. now rewrite Hx, Hy. }
  assert (Hr : r = (Normal tt,
                    snd (Browser.set_textContent out
                           ("result: " ++ JS.NumberToString (JS.number_add x y)) st))).
  { unfold r, run_handler.
    rewrite (bind_normal (deref (Some n1)) _ st n1 st eq_refl).
    rewrite (bind_normal _ _ st _ st Hg1).
    rewrite (bind_normal (deref (Some n2)) _ st n2 st eq_refl).
    rewrite (bind_normal _ _ st _ st Hg2).
    rewrite (bind_normal _ _ st _ st Hadd).
    rewrite (bind_normal (deref (Some out)) _ st out st eq_refl).
    reflexivity. }
  assert (Ht : textOf (snd r) out
               = Some ("result: " ++ JS.NumberToString (JS.number_add x y))).
  { rewrite Hr. now apply textOf_set_textContent. }
  exists (JS.number_add x y). split; [exact Hadd|].
  split; [now rewrite Hr|]. split; [exact Ht|]. split; [|split; [|split]].
  - intros [H|H]; rewrite Ht; rewrite H in *.
    + injection Hx as <-. now rewrite number_add_NaN_l.
    + injection Hy as <-. now rewrite number_add_NaN_r.
  - intros H1 H2. rewrite Ht. rewrite H1 in Hx. rewrite H2 in Hy.
    injection Hx as <-. injection Hy as <-. reflexivity.
  - now rewrite Hr.
  - intros a b c Hnone. unfold run_handler.
    assert (Hval : forall h, (exists v, Browser.get_value h st = (Normal v, st)
                                        /\ exists s, JS.Number v = Normal s)
                             \/ Browser.get_value h st = (Throw TypeError, st)).
    { intros h. unfold Browser.get_value, element, bind, get_document.
      destruct (document st !! h) as [e0|]; simpl; [left|now right].
      eexists. split; [reflexivity|]. destruct (DOM.value e0); simpl; eauto. }
    destruct a as [a|]; [|reflexivity].
    rewrite (bind_normal (deref (Some a)) _ st a st eq_refl).
    destruct (Hval a) as [(va & Hva & sa & Hsa)|Hva];
      [|now rewrite (bind_throw _ _ st _ st Hva)].
    rewrite (bind_normal _ _ st _ st Hva).
    destruct b as [b|]; [|reflexivity].
    rewrite (bind_normal (deref (Some b)) _ st b st eq_refl).
    destruct (Hval b) as [(vb & Hvb & sb & Hsb)|Hvb];
      [|now rewrite (bind_throw _ _ st _ st Hvb)].
    rewrite (bind_normal _ _ st _ st Hvb).
    destruct c as [c|]; [intuition discriminate|].
    assert (Hab : add va vb st = (Normal (JS.number_add sa sb), st))
      by (unfold add, bind, lift, ret; now rewrite Hsa, Hsb).
    rewrite (bind_normal _ _ st _ st Hab). reflexivity.
Qed.

Lemma add_click_witness :
  let st := Page.run demo_wired [Page.Edit 2 "12px"; Page.Edit 3 "3"] in
  let r := run_handler (OnAddClick (Some 2%nat) (Some 3%nat) (Some 5%nat))
             (Node 4) (Page.click 4) st in
  exists sum,
    add (valueOf st 2) (valueOf st 3) st = (Normal sum, st)
    /\ fst r = Normal tt
    /\ textOf (snd r) 5 = Some ("result: " ++ JS.NumberToString sum)
    /\ textOf (snd r) 5 = Some "result: NaN".
Proof.
  destruct (add_click (Page.run demo_wired [Page.Edit 2 "12px"; Page.Edit 3 "3"])
              2%nat 3%nat 5%nat (Node 4) (Page.click 4))
    as (sum & Ha & Hf & Ht & Hnan & _);
    [eexists; reflexivity|eexists; reflexivity|eexists; reflexivity|].
  exists sum. split; [exact Ha|]. split; [exact Hf|]. split; [exact Ht|].
  apply Hnan. left. reflexivity.
Defined.

End Outputs.

(** ** An animation started anew *)

Section Restart.

Lemma find_timer_fresh id (ts ts' : list Timer) :
  Forall (fun t => timerId t ≠ id) ts ->
  Page.find_timer id (ts ++ ts') = Page.find_timer id ts'.
Proof.
  intros H. unfold Page.find_timer.
  induction H as [|t ts Ht _ IH]; [reflexivity|].
  simpl. rewrite decide_False by exact Ht.
  destruct (list_find _ (ts ++ ts')) as [[k x]|],
           (list_find _ ts') as [[k' x']|]; simpl in *; congruence.
Qed.

Lemma find_timer_here id t (ts : list Timer) :
  timerId t = id -> Page.find_timer id (t :: ts) = Some t.
Proof. intros H. unfold Page.find_timer. simpl. now rewrite decide_True. Qed.

(** A timeout whose time has come: it is no longer pending, and its class
    is off its element. *)
Lemma fire_due s id (t : Timer) el c :
  Page.find_timer id (timers s) = Some t ->
  callback t = RemoveClass el c ->
  DOM.token_error c = None ->
  due t <= now s ->
  Page.fire id s
  = with_document
      (DOM.update el
         (fun e => DOM.with_classList (DOM.tokens_remove c (DOM.classList e)) e)
         (document s))
      (with_timers (filter (fun t => timerId t ≠ id) (timers s)) (nextTimerId s) s).
Proof.
  intros Hfind Hcb Htok Hdue. unfold Page.fire. rewrite Hfind.
  destruct (Z.leb_spec (due t) (now s)) as [_|?]; [|lia].
  rewrite Hcb. unfold run_callback, Browser.classList_remove,
    Browser.check_token, Browser.set_classList, Browser.clearTimeout,
    bind, modify_document, ret.
  rewrite Htok. reflexivity.
Qed.

Lemma now_tick s d : now (Page.step s (Page.Tick d)) = now s + Z.max 0 d.
Proof. reflexivity. Qed.

Lemma animateOnce_animBox st el :
  DOM.getElementById (document st) "animBox" = Some el ->
  let st' := snd (animateOnce "#animBox" "anim-pop" (Some 700) st) in
  timers st'
  = (timers st
     ++ [mkTimer (nextTimerId st) (now st + 700) (RemoveClass el "anim-pop")])%list
  /\ nextTimerId st' = nextTimerId st + 1
  /\ now st' = now st
  /\ hasClass st' el "anim-pop" = true
  /\ DOM.getElementById (document st') "animBox" = Some el.
Proof.
  intros Hid st'.
  assert (Hq : DOM.querySelector (document st) "#animBox" = Normal (Some el))
    by (rewrite querySelector_animBox; now f_equal).
  destruct (getElementById_Some _ _ _ Hid) as [e0 He0].
  unfold st'. rewrite (animateOnce_found st "#animBox" "anim-pop" (Some 700) el Hq eq_refl).
  cbn [snd]. split; [reflexivity|]. split; [reflexivity|]. split; [reflexivity|].
  split.
  - unfold hasClass, classes. simpl. rewrite lookup_update.
    unfold DOM.flush_layout. rewrite list_lookup_fmap, lookup_update, He0. simpl.
    apply tokens_contains_add.
  - simpl.
    rewrite getElementById_update by (intros x; reflexivity).
    rewrite getElementById_flush_layout.
    rewrite getElementById_update by (intros x; reflexivity). exact Hid.
Qed.

(** [animateOnce] sets a new timeout without clearing the one of an
    animation still running.  When the box is animated again [dt] ms after
    the first time, the first timeout takes the class off 700 ms after the
    first click, only [700 - dt] ms into the second animation; the second
    timeout is then still pending, and finds nothing to remove when it
    fires. *)
Theorem animation_restart_cut_short doc (inputs : list Page.Input) el dt :
  let st := Page.run (load doc) inputs in
  DOM.getElementById (document st) "animBox" = Some el ->
  0 < dt <= 700 ->
  let animate s := snd (animateOnce "#animBox" "anim-pop" (Some 700) s) in
  let s2 := animate (Page.step (animate st) (Page.Tick dt)) in
  let s3 := Page.run s2 [Page.Tick (700 - dt); Page.Timeout (nextTimerId st)] in
  let s4 := Page.run s3 [Page.Tick dt; Page.Timeout (nextTimerId st + 1)] in
  hasClass s2 el "anim-pop" = true
  /\ now s3 = now s2 + (700 - dt)
  /\ hasClass s3 el "anim-pop" = false
  /\ Page.find_timer (nextTimerId st + 1) (timers s3)
     = Some (mkTimer (nextTimerId st + 1) (now s3 + dt) (RemoveClass el "anim-pop"))
  /\ hasClass s4 el "anim-pop" = false
  /\ timers s4 = timers st.
Proof.
  intros st Hid Hdt animate s2 s3 s4.
  destruct (run_timers_scripted (load doc) inputs (load_timers_scripted doc))
    as (Hnext & Hall & _). fold st in Hnext, Hall.
  assert (Hfresh : forall k, nextTimerId st <= k ->
                     Forall (fun t => timerId t ≠ k) (timers st)).
  { intros k Hk. eapply Forall_impl; [exact Hall|]. simpl. intros t (Ht & _). lia. }
  destruct (animateOnce_animBox st el Hid) as (Ht1 & Hn1 & Hnow1 & _ & Hid1).
  change (snd (animateOnce "#animBox" "anim-pop" (Some 700) st)) with (animate st)
    in Ht1, Hn1, Hnow1, Hid1.
  set (s1 := Page.step (animate st) (Page.Tick dt)).
  assert (Hid1' : DOM.getElementById (document s1) "animBox" = Some el) by exact Hid1.
  destruct (animateOnce_animBox s1 el Hid1') as (Ht2 & Hn2 & Hnow2 & Hc2 & Hid2).
  change (snd (animateOnce "#animBox" "anim-pop" (Some 700) s1)) with s2
    in Ht2, Hn2, Hnow2, Hc2, Hid2.
  assert (Hts1 : timers s1 = timers (animate st)) by reflexivity.
  assert (Hns1 : nextTimerId s1 = nextTimerId (animate st)) by reflexivity.
  assert (Hnows1 : now s1 = now st + dt).
  { unfold s1. rewrite now_tick, Hnow1. lia. }
  rewrite Hts1, Ht1, Hns1, Hn1, Hnows1 in Ht2.
  set (t1 := mkTimer (nextTimerId st) (now st + 700) (RemoveClass el "anim-pop")) in *.
  set (t2 := mkTimer (nextTimerId st + 1) (now st + dt + 700)
                     (RemoveClass el "anim-pop")) in *.
  set (s2' := Page.step s2 (Page.Tick (700 - dt))).
  assert (Hnow2' : now s2' = now st + 700).
  { unfold s2'. rewrite now_tick, Hnow2, Hnows1. lia. }
  assert (Hfind1 : Page.find_timer (nextTimerId st) (timers s2') = Some t1).
  { change (timers s2') with (timers s2). rewrite Ht2, <- app_assoc.
    rewrite find_timer_fresh by (apply Hfresh; lia).
    now apply find_timer_here. }
  assert (Hs3 : s3 = Page.fire (nextTimerId st) s2') by reflexivity.
  rewrite (fire_due s2' (nextTimerId st) t1 el "anim-pop" Hfind1 eq_refl eq_refl)
    in Hs3 by (rewrite Hnow2'; unfold t1; cbn [due]; lia).
  assert (Hts3 : timers s3 = (timers st ++ [t2])%list).
  { rewrite Hs3. simpl. change (timers s2') with (timers s2). rewrite Ht2.
    rewrite !filter_app, (filter_all _ _ (Hfresh _ (Z.le_refl _))).
    rewrite filter_cons_False by (simpl; intros H; now apply H).
    rewrite filter_nil, app_nil_r.
    rewrite filter_cons_True by (simpl; lia). reflexivity. }
  assert (Hnow3 : now s3 = now st + 700) by (rewrite Hs3; exact Hnow2').
  assert (Hc3 : hasClass s3 el "anim-pop" = false).
  { rewrite Hs3. unfold hasClass, classes. simpl. rewrite lookup_update.
    destruct (document s2 !! el) as [x|]; simpl; [|reflexivity].
    apply tokens_contains_remove. }
  assert (Hfind2 : Page.find_timer (nextTimerId st + 1) (timers s3) = Some t2).
  { rewrite Hts3, find_timer_fresh by (apply Hfresh; lia).
    now apply find_timer_here. }
  set (s3' := Page.step s3 (Page.Tick dt)).
  assert (Hs4 : s4 = Page.fire (nextTimerId st + 1) s3') by reflexivity.
  assert (Hfind2' : Page.find_timer (nextTimerId st + 1) (timers s3') = Some t2)
    by exact Hfind2.
  rewrite (fire_due s3' (nextTimerId st + 1) t2 el "anim-pop" Hfind2' eq_refl eq_refl)
    in Hs4 by (unfold s3'; rewrite now_tick, Hnow3; unfold t2; cbn [due]; lia).
  split; [exact Hc2|]. split; [rewrite Hnow3, Hnow2, Hnows1; lia|].
  split; [exact Hc3|]. split; [|split].
  - rewrite Hfind2. unfold t2. do 2 f_equal. rewrite Hnow3. lia.
  - rewrite Hs4. unfold hasClass, classes. simpl. rewrite lookup_update.
    destruct (document s3 !! el) as [x|]; simpl; [|reflexivity].
    apply tokens_contains_remove.
  - rewrite Hs4. simpl. change (timers s3') with (timers s3). rewrite Hts3.
    rewrite filter_app, (filter_all _ _ (Hfresh (nextTimerId st + 1) ltac:(lia))).
    rewrite filter_cons_False by (simpl; intros H; now apply H).
    rewrite filter_nil. apply app_nil_r.
Qed.

Lemma animation_restart_cut_short_witness :
  let animate s := snd (animateOnce "#animBox" "anim-pop" (Some 700) s) in
  let s2 := animate (Page.step (animate demo_wired) (Page.Tick 500)) in
  let s3 := Page.run s2 [Page.Tick 200; Page.Timeout 1] in
  hasClass s2 11 "anim-pop" = true
  /\ now s3 = now s2 + 200
  /\ hasClass s3 11 "anim-pop" = false.
Proof.
  pose proof (animation_restart_cut_short demo_page
                [Page.Dispatch Page.DOMContentLoaded] 11%nat 500 eq_refl
                ltac:(lia)) as H.
  cbv zeta in H. destruct H as (H1 & H2 & H3 & _).
  exact (conj H1 (conj H2 H3)).
Defined.

End Restart.

(** ** When a helper throws *)

Section Throwing.

Lemma helper_refused {A : Type} (k : Ref -> M A) st sel x :
  DOM.querySelector (document st) sel = Throw x ->
  bind (Browser.querySelector sel) k st = (Throw x, st).
Proof.
  intros Hq. unfold Browser.querySelector, get_document, lift, bind.
  cbv beta iota. now rewrite Hq.
Qed.

Lemma helper_found {A : Type} (k : Ref -> M A) st sel r :
  DOM.querySelector (document st) sel = Normal r ->
  bind (Browser.querySelector sel) k st = k r st.
Proof.
  intros Hq. unfold Browser.querySelector, get_document, lift, bind.
  cbv beta iota. now rewrite Hq.
Qed.

(** A helper that throws has changed nothing.  The four of them throw the
    SyntaxError of a selector [querySelector] refuses; [toggleClass] and
    [animateOnce] also throw, once the selector has found an element, what
    [classList] throws for a class name that is no token; with no element
    found, such a name is no error. *)
Theorem helpers_throw_unchanged st sel c d e :
  (fst (toggleClass sel c st) = Throw e ->
   snd (toggleClass sel c st) = st
   /\ (DOM.querySelector (document st) sel = Throw e
       \/ exists el, DOM.querySelector (document st) sel = Normal (Some el)
                     /\ DOM.token_error c = Some e))
  /\ (fst (animateOnce sel c d st) = Throw e ->
      snd (animateOnce sel c d st) = st
      /\ (DOM.querySelector (document st) sel = Throw e
          \/ exists el, DOM.querySelector (document st) sel = Normal (Some el)
                        /\ DOM.token_error c = Some e))
  /\ (fst (openModal sel st) = Throw e ->
      snd (openModal sel st) = st
      /\ DOM.querySelector (document st) sel = Throw e)
  /\ (fst (closeModal sel st) = Throw e ->
      snd (closeModal sel st) = st
      /\ DOM.querySelector (document st) sel = Throw e)
  /\ (DOM.querySelector (document st) sel = Throw e -> e = SyntaxError).
Proof.
  destruct (DOM.querySelector (document st) sel) as [[el|]|x] eqn:Hq.
  - (* an element is found *)
    split; [|split; [|split; [|split]]].
    + destruct (DOM.token_error c) as [x|] eqn:Htok.
      * unfold toggleClass. rewrite (helper_found _ st sel (Some el) Hq).
        unfold Browser.classList_toggle, Browser.check_token. rewrite Htok.
        cbn. intros [= <-]. split; [reflexivity|]. right. now exists el.
      * rewrite (toggleClass_found st sel c el Hq Htok). discriminate.
    + destruct (DOM.token_error c) as [x|] eqn:Htok.
      * unfold animateOnce. rewrite (helper_found _ st sel (Some el) Hq).
        unfold Browser.classList_remove, Browser.check_token. rewrite Htok.
        cbn. intros [= <-]. split; [reflexivity|]. right. now exists el.
      * rewrite (animateOnce_found st sel c d el Hq Htok). discriminate.
    + rewrite (openModal_found st sel el Hq). discriminate.
    + rewrite (closeModal_found st sel el Hq). discriminate.
    + discriminate.
  - (* no element is found *)
    split; [|split; [|split; [|split]]].
    + rewrite (toggleClass_not_found st sel c Hq). discriminate.
    + unfold animateOnce. rewrite (helper_found _ st sel None Hq). discriminate.
    + rewrite (openModal_not_found st sel Hq). discriminate.
    + rewrite (closeModal_not_found st sel Hq). discriminate.
    + discriminate.
  - (* the selector is refused *)
    assert (Hx : x = SyntaxError).
    { unfold DOM.querySelector in Hq.
      destruct (DOM.parse_selector sel); [discriminate|]. now injection Hq. }
    split; [|split; [|split; [|split]]].
    + unfold toggleClass. rewrite (helper_refused _ st sel x Hq).
      cbn. intros [= <-]. auto.
    + unfold animateOnce. rewrite (helper_refused _ st sel x Hq).
      cbn. intros [= <-]. auto.
    + unfold openModal. rewrite (helper_refused _ st sel x Hq).
      cbn. intros [= <-]. auto.
    + unfold closeModal. rewrite (helper_refused _ st sel x Hq).
      cbn. intros [= <-]. auto.
    + intros [= <-]. exact Hx.
Qed.

End Throwing.

(** ** The model at work *)

Section Checks.

(** Strings read as Numbers, and Numbers written as strings. *)
Example StringToNumber_samples :
  map (fun s => JS.NumberToString (JS.StringToNumber s))
      ["42"; " 12 "; ""; "   "; "abc"; "12px"; "1e3"; "0x1F"; "-0"; ".5"; "1.";
       "."; "Infinity"; "-Infinity"; "1e21"; "0.000001"; "0.0000001";
       "9007199254740993"; "1e309"]
  = ["42"; "12"; "0"; "0"; "NaN"; "NaN"; "1000"; "31"; "0"; "0.5"; "1";
     "NaN"; "Infinity"; "-Infinity"; "1e+21"; "0.000001"; "1e-7";
     "9007199254740992"; "Infinity"].
Proof. vm_compute. reflexivity. Qed.

Example add_tenth_and_fifth :
  JS.NumberToString
    (JS.number_add (JS.StringToNumber "0.1") (JS.StringToNumber "0.2"))
  = "0.30000000000000004".
Proof. vm_compute. reflexivity. Qed.

(** [null], booleans and blank strings are not numeric, and do not give
    NaN. *)
Example add_null_true :
  fst (add JS.VNull (JS.VBoolean true) (load demo_page))
  = Normal (JS.number_of_Z 1).
Proof. reflexivity. Qed.

Example add_symbol_throws :
  fst (add (JS.VSymbol "s") (JS.VNumber JS.pos_zero) (load demo_page))
  = Throw TypeError.
Proof. reflexivity. Qed.

(** The sums of integers, as integers and as Numbers, at the edge of the
    53 bits. *)
Example integer_add_samples :
  map (fun '(a, b) =>
         JS.number_eqb (JS.number_add (JS.number_of_Z a) (JS.number_of_Z b))
                       (JS.number_of_Z (JS.integer_add a b)))
      [(0, 1); (2 ^ 53 - 1, 1); (2 ^ 53, 1); (2 ^ 53 + 2, 1); (2 ^ 54, 2);
       (- 2 ^ 53, -1); (2 ^ 60, 2 ^ 7 + 1)]
  = [true; true; true; true; true; true; true].
Proof. vm_compute. reflexivity. Qed.

(** Selectors as they are read: a complex selector starts at its subject,
    and what stands before it follows, nearest first. *)
Example parse_selector_samples :
  map DOM.parse_selector
      ["#flipCard"; " .open "; "DIV.card#main"; "*"; "ul > li + li";
       "a b, c ~ d"; ".modal[aria-hidden='true']"; "div:not(.x, #y)";
       "[Lang|=en]"]
  = [Some [([DOM.ById "flipCard"], [])]; Some [([DOM.ByClass "open"], [])];
     Some [([DOM.Tag "div"; DOM.ByClass "card"; DOM.ById "main"], [])];
     Some [([DOM.Universal], [])];
     Some [([DOM.Tag "li"],
            [(DOM.NextSibling, [DOM.Tag "li"]); (DOM.Child, [DOM.Tag "ul"])])];
     Some [([DOM.Tag "b"], [(DOM.Descendant, [DOM.Tag "a"])]);
           ([DOM.Tag "d"], [(DOM.SubsequentSibling, [DOM.Tag "c"])])];
     Some [([DOM.ByClass "modal";
             DOM.ByAttr "aria-hidden" DOM.AttrEquals "true"], [])];
     Some [([DOM.Tag "div";
             DOM.Not [([DOM.ByClass "x"], []); ([DOM.ById "y"], [])]], [])];
     Some [([DOM.ByAttr "lang" DOM.AttrDashMatch "en"], [])]].
Proof. vm_compute. reflexivity. Qed.

(** Strings that are no selectors. *)
Example parse_selector_refused :
  map DOM.parse_selector
      [""; "#"; "#1"; "a,"; "a >"; "> a"; "a$"; "[a=1]"; "a*"; "a ) b";
       ":not()"; "a, , b"]
  = [None; None; None; None; None; None; None; None; None; None; None; None].
Proof. vm_compute. reflexivity. Qed.

(** What selectors find on [nested_page]. *)
Example querySelector_samples :
  map (DOM.querySelector nested_page)
      ["div"; "div.open"; ".modal:not(.open)"; ".modal[aria-hidden='false']";
       "body > p"; "body p"; "div > span"; "div span"; "div + p"; "p ~ div";
       "#a ~ *"; ":not(html):not(body)"; "[class]"; "[class='modal open']";
       "[class~=open]"; "[id^=b]"; "[lang|=en]"; "[type=text]"; "#q";
       "span, div.open"; "body :not(div p)"; "div:not(:not(.open))"]
  = map Normal
      [Some 2; Some 5; Some 2; Some 5;
       Some 6; Some 3; None; Some 4; Some 6; None;
       Some 5; Some 2; Some 2; Some 5;
       Some 5; Some 5; Some 4; Some 4; None;
       Some 4; Some 2; Some 5]%nat.
Proof. vm_compute. reflexivity. Qed.

(** [getAttribute] reads [id] and [class] as it reads the others, and takes
    the name in any case. *)
Example getAttribute_samples :
  map (getAttribute (load nested_page) 5)
      ["id"; "class"; "CLASS"; "aria-hidden"; "Aria-Hidden"; "title"]
  = [Some "b"; Some "modal open"; Some "modal open"; Some "false";
     Some "false"; None]
  /\ getAttribute (load nested_page) 0 "class" = None.
Proof. split; vm_compute; reflexivity. Qed.

(** The wiring of [demo_page] registers the fourteen listeners. *)
Example demo_wired_listeners :
  length (listeners demo_wired) = 14%nat
  /\ In keydown_listener (listeners demo_wired).
Proof. split; [reflexivity|]. vm_compute. tauto. Qed.

(** A page without the card: the wiring stops at line 162 with a TypeError,
    and the listeners of the lines after it are not registered. *)
Example wiring_stops_at_missing_element :
  let st := load (take 13 demo_page) in
  fst (wire st) = Throw TypeError
  /\ length (listeners (snd (wire st))) = 7%nat.
Proof. split; reflexivity. Qed.

(** Three clicks on [incGlobal], then clicks on [incLocal]: the page shows
    the count of the first three. *)
Example three_clicks :
  let st := Page.run demo_wired
              [Page.Dispatch (Page.click 7); Page.Dispatch (Page.click 7);
               Page.Dispatch (Page.click 7); Page.Dispatch (Page.click 6);
               Page.Dispatch (Page.click 6)] in
  textOf st 9 = Some "globalCounter is now: 3"
  /\ textOf st 8 = Some "returned local value: 1"
  /\ globalCounter st = 3.
Proof. repeat split; vm_compute; reflexivity. Qed.

(** Two fields filled in, and the add button. *)
Example add_button :
  let st := Page.run demo_wired
              [Page.Edit 2 "1.5"; Page.Edit 3 "2"; Page.Dispatch (Page.click 4)] in
  textOf st 5 = Some "result: 3.5".
Proof. vm_compute. reflexivity. Qed.

(** The add button with both fields left empty. *)
Example add_button_empty_fields :
  textOf (Page.run demo_wired [Page.Dispatch (Page.click 4)]) 5
  = Some "result: 0".
Proof. vm_compute. reflexivity. Qed.

(** A click inside the modal's content leaves it open; a click on the modal
    itself closes it. *)
Example modal_clicks :
  let opened := Page.run demo_wired [Page.Dispatch (Page.click 17)] in
  hasClass opened 18 "open" = true
  /\ hasClass (Page.step opened (Page.Dispatch (Page.click 19))) 18 "open" = true
  /\ hasClass (Page.step opened (Page.Dispatch (Page.click 18))) 18 "open" = false
  /\ hasClass (Page.step opened (Page.Dispatch (Page.click 20))) 18 "open" = false.
Proof. repeat split; vm_compute; reflexivity. Qed.

(** The animation of the box: the class is on for 700 ms. *)
Example animation_lasts :
  let st := Page.run demo_wired [Page.Dispatch (Page.click 10); Page.Tick 699] in
  hasClass st 11 "anim-pop" = true
  /\ hasClass (Page.step st (Page.Timeout 1)) 11 "anim-pop" = true
  /\ hasClass (Page.run st [Page.Tick 1; Page.Timeout 1]) 11 "anim-pop" = false.
Proof. repeat split; vm_compute; reflexivity. Qed.

(** A selector that names the class [open] does not find the modal once it
    is closed. *)
Example closeModal_by_class :
  let opened := Page.run demo_wired [Page.Dispatch (Page.click 17)] in
  let c1 := closeModal ".open" opened in
  fst c1 = Normal true /\ closeModal ".open" (snd c1) = (Normal false, snd c1).
Proof. split; vm_compute; reflexivity. Qed.

(** A selector that leaves out the elements with the class it toggles: the
    second call finds the next button, and returns true as the first
    did. *)
Example toggleClass_next_element :
  let st := load demo_page in
  let r1 := toggleClass "button:not(.x)" "x" st in
  let r2 := toggleClass "button:not(.x)" "x" (snd r1) in
  DOM.querySelector (document st) "button:not(.x)" = Normal (Some 4%nat)
  /\ DOM.querySelector (document (snd r1)) "button:not(.x)" = Normal (Some 6%nat)
  /\ fst r1 = Normal true /\ fst r2 = Normal true
  /\ hasClass (snd r2) 4 "x" = true /\ hasClass (snd r2) 6 "x" = true.
Proof. cbv zeta. repeat (apply conj); vm_compute; reflexivity. Qed.

(** A counter button that stands in the output its listener writes: the
    click removes the button from the document. *)
Example output_loses_children :
  let st := mkState 0
              [markup "html" "" [] [] None;
               markup "body" "" [] [] (Some 0%nat);
               markup "p" "globalOut" [] [] (Some 1%nat);
               markup "button" "incGlobal" [] [] (Some 2%nat)]
              [mkListener (Node 3) "click" (OnIncGlobalClick (Some 2%nat))]
              [] 1 0 in
  let st' := Page.step st (Page.Dispatch (Page.click 3)) in
  DOM.isConnected (document st) 3 = true
  /\ DOM.isConnected (document st') 3 = false
  /\ DOM.parentNode <$> document st' !! 3%nat = Some None
  /\ textOf st' 2 = Some "globalCounter is now: 1"
  /\ DOM.querySelector (document st') "#incGlobal" = Normal None.
Proof. cbv zeta. repeat (apply conj); vm_compute; reflexivity. Qed.

(** A class name with white space is no token. *)
Example toggleClass_bad_token :
  fst (toggleClass "#flipCard" "a b" (load demo_page)) = Throw InvalidCharacterError
  /\ fst (toggleClass "#flipCard" "" (load demo_page)) = Throw SyntaxError.
Proof. split; reflexivity. Qed.

End Checks.
